(** * Street View Explorer MCP server: the request handlers of [src/index.ts]

    A shallow embedding of the tool-call dispatcher of the server: the three
    Zod input schemas, the four tool handlers ([get_street_view],
    [get_metadata], [create_html_page], [list_saved_images]) and the helpers
    they call ([ensureDirectoryExists], [parseLatLng], [makeApiRequest],
    [makeMetadataRequest]), and the list of tools that the server advertises.

    The handlers are effectful.  They are written in a small state-and-
    exception monad whose state is the file system together with the
    chronological trace of every observable action (file-system calls, HTTP
    requests, image codec calls, log lines).  What the outside world answers
    (the HTTP response, what the image codec makes of a buffer, the clock, the
    API key of the process environment) is a parameter of the development. *)

From Stdlib Require Import ZArith QArith String Ascii List Bool Lia Permutation Sorted.
From stdpp Require Import gmap strings list fin_maps pretty sorting.

Local Open Scope Z_scope.

(** ** JavaScript values *)

(** A JavaScript number as [JSON.parse] can deliver it: a finite double, which
    is a rational, or an infinity (the literal 1e999 overflows to one).  NaN
    has no JSON spelling.  Comparisons and [Number.isInteger] on doubles agree
    with the same operations on the rationals they denote. *)
Inductive number :=
| Fin (q : Q)
| Infinity (negative : bool).

Definition num (z : Z) : number := Fin (inject_Z z).

Definition isInteger (n : number) : bool :=
  match n with
  | Fin q => Pos.eqb (Qden (Qred q)) 1
  | Infinity _ => false
  end.

Definition compare_to (n : number) (z : Z) : comparison :=
  match n with
  | Fin q => Qcompare q (inject_Z z)
  | Infinity false => Gt
  | Infinity true => Lt
  end.

(** [n < z] and [n > z] for a number [n] and an integer literal [z]. *)
Definition lt_lit (n : number) (z : Z) : bool :=
  match compare_to n z with Lt => true | _ => false end.

Definition gt_lit (n : number) (z : Z) : bool :=
  match compare_to n z with Gt => true | _ => false end.

(** The values of a tool call's argument bag, and of the JSON documents the
    handlers answer with. *)
#[warnings="-register-all"]
Inductive json :=
| JNull
| JBool (b : bool)
| JNumber (n : number)
| JString (s : string)
| JArray (xs : list json)
| JObject (kvs : list (string * json)).

(** An object literal with possibly [undefined] members: [JSON.stringify]
    leaves the undefined ones out. *)
Definition obj (members : list (string * option json)) : json :=
  JObject (omap (λ kv, match kv.2 with Some v => Some (kv.1, v) | None => None end) members).

(** [request.params.arguments]: absent, or a record of JSON values. *)
Abbreviation arguments := (option (gmap string json)).

(** ** Zod schemas *)

Inductive ZodIssueCode := invalid_type | too_small | too_big | invalid_enum_value | custom.

Inductive PathSeg := Key (k : string) | Index (i : nat).

(** [issue_message] is the message the schema declares, if it declares one;
    otherwise Zod's default text for the code applies. *)
Record ZodIssue := mkIssue {
  issue_code : ZodIssueCode;
  issue_path : list PathSeg;
  issue_message : option string
}.

(** What a schema's [_parse] returns: the issues it raised and the parsed
    value, which is missing when the parse was aborted (Zod's INVALID).  A
    value with issues is Zod's "dirty" status. *)
Record ParseReturn (A : Type) := mkParse {
  value : option A;
  issues : list ZodIssue
}.
Arguments mkParse {A} _ _.
Arguments value {A} _.
Arguments issues {A} _.

Definition OK {A} (a : A) : ParseReturn A := mkParse (Some a) [].
Definition DIRTY {A} (a : A) (iss : list ZodIssue) : ParseReturn A := mkParse (Some a) iss.
Definition INVALID {A} (iss : list ZodIssue) : ParseReturn A := mkParse None iss.

(** A schema reads the member at [path] of the input, [None] for undefined. *)
Definition schema (A : Type) : Type := list PathSeg → option json → ParseReturn A.

Definition issue_if (b : bool) (i : ZodIssue) : list ZodIssue := if b then [i] else [].

(** [z.string()] *)
Definition z_string : schema string := λ path input,
  match input with
  | Some (JString s) => OK s
  | _ => INVALID [mkIssue invalid_type path None]
  end.

(** [z.string().min(n, message)] *)
Definition z_string_min (n : nat) (message : string) : schema string := λ path input,
  match input with
  | Some (JString s) =>
      DIRTY s (issue_if (String.length s <? n)%nat (mkIssue too_small path (Some message)))
  | _ => INVALID [mkIssue invalid_type path None]
  end.

(** [z.number().int().min(lo)] followed by [.max(hi)] when [hi] is given.  All
    the checks run, each adding its own issue. *)
Definition z_number_int_min_max (lo : Z) (hi : option Z) : schema number := λ path input,
  match input with
  | Some (JNumber n) =>
      DIRTY n (issue_if (negb (isInteger n)) (mkIssue invalid_type path None)
               ++ issue_if (lt_lit n lo) (mkIssue too_small path None)
               ++ match hi with
                  | Some h => issue_if (gt_lit n h) (mkIssue too_big path None)
                  | None => []
                  end)
  | _ => INVALID [mkIssue invalid_type path None]
  end.

(** [z.enum(values)] *)
Definition z_enum (values : list string) : schema string := λ path input,
  match input with
  | Some (JString s) =>
      if existsb (String.eqb s) values then OK s
      else INVALID [mkIssue invalid_enum_value path None]
  | _ => INVALID [mkIssue invalid_type path None]
  end.

(** [.optional()]: undefined is accepted as it is. *)
Definition optional {A} (inner : schema A) : schema (option A) := λ path input,
  match input with
  | None => OK None
  | Some _ => let r := inner path input in mkParse (Some <$> value r) (issues r)
  end.

(** [.optional().default(d)]: an undefined input is replaced by [d], and the
    optional schema underneath, handed a defined value, runs [inner] on it. *)
Definition optional_default {A} (inner : schema A) (d : json) : schema A := λ path input,
  match input with
  | None => inner path (Some d)
  | Some _ => inner path input
  end.

(** [z.array(z.string()).min(n, message)]: the length check comes first, then
    the elements, each under its index. *)
Definition z_array_string_min (n : nat) (message : string) : schema (list string) := λ path input,
  match input with
  | Some (JArray xs) =>
      let rs := imap (λ i x, z_string (path ++ [Index i]) (Some x)) xs in
      mkParse (mapM value rs)
              (issue_if (length xs <? n)%nat (mkIssue too_small path (Some message))
               ++ concat (issues <$> rs))
  | _ => INVALID [mkIssue invalid_type path None]
  end.

(** [.refine(check, {message})]: the check runs on the value of a parse that
    was not aborted, and a failed check adds one custom issue. *)
Definition refine {A} (inner : ParseReturn A) (check : A → bool) (message : string)
  : ParseReturn A :=
  match value inner with
  | None => inner
  | Some a =>
      if check a then inner
      else mkParse (Some a) (issues inner ++ [mkIssue custom [] (Some message)])
  end.

Inductive ZodError := mkZodError (errors : list ZodIssue).

Inductive result (E A : Type) :=
| Ok (a : A)
| Err (e : E).
Arguments Ok {E A} _.
Arguments Err {E A} _.

(** [schema.parse(args)]: the value of a parse without issues, a thrown
    [ZodError] otherwise. *)
Definition parse {A} (r : ParseReturn A) : result ZodError A :=
  match value r, issues r with
  | Some a, [] => Ok a
  | _, iss => Err (mkZodError iss)
  end.

(** [Boolean(x)] for an optional string: undefined and the empty string are
    falsy. *)
Definition Boolean (x : option string) : bool :=
  match x with
  | Some s => negb (String.eqb s "")
  | None => false
  end.

Definition locationMethods (location lat_lng pano_id : option string) : nat :=
  length (List.filter Boolean [location; lat_lng; pano_id]).

Definition exactly_one_message : string :=
  "Exactly one of location, lat_lng, or pano_id must be provided".

Record GetStreetViewArgs := {
  sv_filename : string;
  sv_location : option string;
  sv_lat_lng : option string;
  sv_pano_id : option string;
  sv_size : string;
  sv_heading : number;
  sv_pitch : number;
  sv_fov : number;
  sv_radius : number;
  sv_source : string
}.

(** The [z.object] of [GetStreetViewSchema]: every member is parsed, in the
    order of the shape; the object is aborted when a member is. *)
Definition GetStreetViewShape (args : arguments) : ParseReturn GetStreetViewArgs :=
  match args with
  | None => INVALID [mkIssue invalid_type [] None]
  | Some o =>
      let field {A} (s : schema A) (k : string) := s [Key k] (o !! k) in
      let filename := field (z_string_min 1 "Filename cannot be empty") "filename" in
      let location := field (optional z_string) "location" in
      let lat_lng := field (optional z_string) "lat_lng" in
      let pano_id := field (optional z_string) "pano_id" in
      let size := field (optional_default z_string (JString "600x400")) "size" in
      let heading :=
        field (optional_default (z_number_int_min_max 0 (Some 360)) (JNumber (num 0))) "heading" in
      let pitch :=
        field (optional_default (z_number_int_min_max (-90) (Some 90)) (JNumber (num 0))) "pitch" in
      let fov :=
        field (optional_default (z_number_int_min_max 10 (Some 120)) (JNumber (num 90))) "fov" in
      let radius :=
        field (optional_default (z_number_int_min_max 1 None) (JNumber (num 50))) "radius" in
      let source :=
        field (optional_default (z_enum ["default"; "outdoor"]) (JString "default")) "source" in
      mkParse
        (f ← value filename; l ← value location; ll ← value lat_lng; p ← value pano_id;
         sz ← value size; h ← value heading; pi ← value pitch; fv ← value fov;
         r ← value radius; src ← value source;
         Some {| sv_filename := f; sv_location := l; sv_lat_lng := ll; sv_pano_id := p;
                 sv_size := sz; sv_heading := h; sv_pitch := pi; sv_fov := fv;
                 sv_radius := r; sv_source := src |})
        (issues filename ++ issues location ++ issues lat_lng ++ issues pano_id
         ++ issues size ++ issues heading ++ issues pitch ++ issues fov
         ++ issues radius ++ issues source)
  end.

Definition GetStreetViewSchema (args : arguments) : ParseReturn GetStreetViewArgs :=
  refine (GetStreetViewShape args)
         (λ data, Nat.eqb (locationMethods (sv_location data) (sv_lat_lng data) (sv_pano_id data)) 1)
         exactly_one_message.

Record GetMetadataArgs := {
  md_location : option string;
  md_lat_lng : option string;
  md_pano_id : option string;
  md_radius : number;
  md_source : string
}.

Definition GetMetadataShape (args : arguments) : ParseReturn GetMetadataArgs :=
  match args with
  | None => INVALID [mkIssue invalid_type [] None]
  | Some o =>
      let field {A} (s : schema A) (k : string) := s [Key k] (o !! k) in
      let location := field (optional z_string) "location" in
      let lat_lng := field (optional z_string) "lat_lng" in
      let pano_id := field (optional z_string) "pano_id" in
      let radius :=
        field (optional_default (z_number_int_min_max 1 None) (JNumber (num 50))) "radius" in
      let source :=
        field (optional_default (z_enum ["default"; "outdoor"]) (JString "default")) "source" in
      mkParse
        (l ← value location; ll ← value lat_lng; p ← value pano_id;
         r ← value radius; src ← value source;
         Some {| md_location := l; md_lat_lng := ll; md_pano_id := p;
                 md_radius := r; md_source := src |})
        (issues location ++ issues lat_lng ++ issues pano_id ++ issues radius ++ issues source)
  end.

Definition GetMetadataSchema (args : arguments) : ParseReturn GetMetadataArgs :=
  refine (GetMetadataShape args)
         (λ data, Nat.eqb (locationMethods (md_location data) (md_lat_lng data) (md_pano_id data)) 1)
         exactly_one_message.

Record CreateHtmlPageArgs := {
  hp_filename : string;
  hp_title : string;
  hp_html_elements : list string
}.

Definition CreateHtmlPageSchema (args : arguments) : ParseReturn CreateHtmlPageArgs :=
  match args with
  | None => INVALID [mkIssue invalid_type [] None]
  | Some o =>
      let field {A} (s : schema A) (k : string) := s [Key k] (o !! k) in
      let filename := field (z_string_min 1 "Filename cannot be empty") "filename" in
      let title := field (optional_default z_string (JString "Street View Tour")) "title" in
      let html_elements :=
        field (z_array_string_min 1 "HTML elements cannot be empty") "html_elements" in
      mkParse
        (f ← value filename; t ← value title; es ← value html_elements;
         Some {| hp_filename := f; hp_title := t; hp_html_elements := es |})
        (issues filename ++ issues title ++ issues html_elements)
  end.

(** ** Strings

    Strings are sequences of bytes: the UTF-8 encoding of the text.  The
    separators and extensions that the handlers look for are ASCII, so
    splitting, joining and the tests of prefixes and suffixes are the same on
    the bytes as on the characters. *)

Definition nl : string := String "010"%char EmptyString.
Definition dquote : string := String "034"%char EmptyString.

(** [s.endsWith(suffix)] *)
Fixpoint endsWith (s suffix : string) : bool :=
  String.eqb s suffix
  || match s with
     | EmptyString => false
     | String _ s' => endsWith s' suffix
     end.

Definition lower (c : ascii) : ascii :=
  let n := nat_of_ascii c in
  if ((65 <=? n) && (n <=? 90))%nat then ascii_of_nat (n + 32) else c.

(** [s.toLowerCase()], on the ASCII letters: the bytes of other characters
    are left as they are.  (Of the characters outside ASCII only U+0130,
    U+212A and U+212B have a lower case that holds an ASCII letter, and none
    of these makes a name end in an image extension.) *)
Fixpoint toLowerCase (s : string) : string :=
  match s with
  | EmptyString => EmptyString
  | String c s' => String (lower c) (toLowerCase s')
  end.

(** White space and line terminators, which [trim] and [parseFloat] skip.
    In one byte: TAB, LF, VT, FF, CR, SP. *)
Definition isWhiteSpace (c : ascii) : bool :=
  let n := nat_of_ascii c in
  ((9 <=? n) && (n <=? 13) || (n =? 32))%nat.

(** In two bytes: U+00A0, the no-break space. *)
Definition isWhiteSpace2 (a b : ascii) : bool :=
  ((nat_of_ascii a =? 194) && (nat_of_ascii b =? 160))%nat.

(** In three bytes: U+1680, U+2000 to U+200A, U+2028, U+2029, U+202F,
    U+205F, U+3000 and U+FEFF. *)
Definition isWhiteSpace3 (a b c : ascii) : bool :=
  let x := nat_of_ascii a in
  let y := nat_of_ascii b in
  let z := nat_of_ascii c in
  ((x =? 225) && (y =? 154) && (z =? 128)
   || (x =? 226) && (y =? 128)
      && ((128 <=? z) && (z <=? 138) || (z =? 168) || (z =? 169) || (z =? 175))
   || (x =? 226) && (y =? 129) && (z =? 159)
   || (x =? 227) && (y =? 128) && (z =? 128)
   || (x =? 239) && (y =? 187) && (z =? 191))%nat.

(** The string without the white space it starts with; [two] and [three]
    recognise the white space of two and three bytes. *)
Fixpoint skipWhiteSpace (two : ascii → ascii → bool) (three : ascii → ascii → ascii → bool)
    (s : string) : string :=
  match s with
  | EmptyString => EmptyString
  | String a s1 =>
      if isWhiteSpace a then skipWhiteSpace two three s1
      else match s1 with
           | String b s2 =>
               if two a b then skipWhiteSpace two three s2
               else match s2 with
                    | String c s3 => if three a b c then skipWhiteSpace two three s3 else s
                    | EmptyString => s
                    end
           | EmptyString => s
           end
  end.

Definition trimStart (s : string) : string := skipWhiteSpace isWhiteSpace2 isWhiteSpace3 s.

Definition reverse_string (s : string) : string :=
  string_of_list_ascii (rev (list_ascii_of_string s)).

(** The same from the end: the bytes come in the opposite order. *)
Definition trimEnd (s : string) : string :=
  reverse_string
    (skipWhiteSpace (λ a b, isWhiteSpace2 b a) (λ a b c, isWhiteSpace3 c b a)
       (reverse_string s)).

(** [s.trim()] *)
Definition trim (s : string) : string := trimEnd (trimStart s).

(** [s.split(c)] for a one-character separator: never an empty list. *)
Fixpoint split (c : ascii) (s : string) : list string :=
  match s with
  | EmptyString => [EmptyString]
  | String a s' =>
      if Ascii.eqb a c then EmptyString :: split c s'
      else match split c s' with
           | w :: ws => String a w :: ws
           | [] => [String a EmptyString]
           end
  end.

Definition isDigit (c : ascii) : bool :=
  let n := nat_of_ascii c in ((48 <=? n) && (n <=? 57))%nat.

Definition startsWith (s pre : string) : bool := String.prefix pre s.

(** [isNaN(parseFloat(s))]: [parseFloat] skips leading white space and reads
    the longest prefix that is a decimal literal; the result is NaN exactly
    when there is none, that is when what follows an optional sign starts
    neither with a digit, nor with a dot and a digit, nor with "Infinity". *)
Definition parseFloat_isNaN (s : string) : bool :=
  let unsigned :=
    match trimStart s with
    | String c rest => if Ascii.eqb c "+" || Ascii.eqb c "-" then rest else String c rest
    | EmptyString => EmptyString
    end in
  negb match unsigned with
       | String c rest =>
           isDigit c
           || (Ascii.eqb c "." && match rest with String d _ => isDigit d | EmptyString => false end)
           || startsWith unsigned "Infinity"
       | EmptyString => false
       end.

(** ** Paths (POSIX)

    A normalized absolute path: the names below the root, and whether the
    path ends in a separator. *)
Record path := mkPath {
  segments : list string;
  trailingSep : bool
}.

Definition directory (segs : list string) : path := mkPath segs false.

Definition path_string (p : path) : string :=
  "/" +:+ String.concat "/" (segments p) +:+ (if trailingSep p then "/" else "").

(** One segment of [normalize]: empty and "." segments vanish, ".." drops the
    last name (and is itself dropped at the root). *)
Definition normalize_segment (acc : list string) (seg : string) : list string :=
  if String.eqb seg "" || String.eqb seg "." then acc
  else if String.eqb seg ".." then removelast acc
  else acc ++ [seg].

(** [join(dir, name)] for a normalized absolute [dir] without a trailing
    separator: an empty [name] is skipped, otherwise [dir + "/" + name] is
    normalized. *)
Definition join (dir : list string) (name : string) : path :=
  if String.eqb name "" then directory dir
  else mkPath (fold_left normalize_segment (split "/" name) dir) (endsWith name "/").

Definition has_nul (p : path) : bool :=
  existsb (λ s, existsb (Ascii.eqb "000"%char) (list_ascii_of_string s)) (segments p).

(** ** Exceptions *)

(** [new Error(message)], and the errors of Node's [fs] with their [code]. *)
Inductive js_error :=
| Error (message : string)
| ErrnoException (code : string) (syscall : string) (p : path).

Definition code (e : js_error) : option string :=
  match e with
  | Error _ => None
  | ErrnoException c _ _ => Some c
  end.

Definition errno_text (c : string) : string :=
  if String.eqb c "ENOENT" then "no such file or directory"
  else if String.eqb c "ENOTDIR" then "not a directory"
  else if String.eqb c "EISDIR" then "illegal operation on a directory"
  else if String.eqb c "EEXIST" then "file already exists"
  else "invalid path argument".

(** [error.message] *)
Definition message (e : js_error) : string :=
  match e with
  | Error m => m
  | ErrnoException c syscall p =>
      c +:+ ": " +:+ errno_text c +:+ ", " +:+ syscall +:+ " '" +:+ path_string p +:+ "'"
  end.

(** ** The file system

    A finite map from the names below the root to nodes.  There are no
    symbolic links, permissions or length limits, and the time stamps of a
    directory do not move when an entry is added to it.  The parent of a
    node that is present is expected to be a directory that is present. *)
Record Stats := mkStats {
  stat_size : Z;
  stat_birthtime : Z;
  stat_mtime : Z
}.

Inductive node :=
| Dir (st : Stats)
| File (content : string) (birthtime mtime : Z).

Abbreviation filesystem := (gmap (list string) node).

Definition new_directory (now : Z) : node := Dir (mkStats 4096 now now).

(** The root is always there. *)
Definition node_at (fs : filesystem) (segs : list string) : option node :=
  match segs with
  | [] => Some (default (new_directory 0) (fs !! segs))
  | _ => fs !! segs
  end.

(** A regular file stands where the path needs a directory: at one of the
    names of [rest] below [cur], the last one apart. *)
Fixpoint file_on_the_way (fs : filesystem) (cur rest : list string) : bool :=
  match rest with
  | [] => false
  | s :: rest' =>
      match rest' with
      | [] => false
      | _ =>
          match fs !! (cur ++ [s]) with
          | Some (File _ _ _) => true
          | _ => file_on_the_way fs (cur ++ [s]) rest'
          end
      end
  end.

(** Path resolution, as [access], [stat] and the codec's reader see it. *)
Definition resolve (syscall : string) (fs : filesystem) (p : path) : result js_error node :=
  if has_nul p then Err (ErrnoException "ERR_INVALID_ARG_VALUE" syscall p)
  else if file_on_the_way fs [] (segments p) then Err (ErrnoException "ENOTDIR" syscall p)
  else match node_at fs (segments p) with
       | None => Err (ErrnoException "ENOENT" syscall p)
       | Some (File c b m) =>
           if trailingSep p then Err (ErrnoException "ENOTDIR" syscall p) else Ok (File c b m)
       | Some (Dir st) => Ok (Dir st)
       end.

(** [mkdir(p, {recursive: true})]: the missing directories along [rest] are
    created below [cur]; a regular file in the way is an error. *)
Fixpoint mkdir_from (now : Z) (p : path) (fs : filesystem) (cur rest : list string)
  : result js_error filesystem :=
  match rest with
  | [] => Ok fs
  | s :: rest' =>
      let cur' := cur ++ [s] in
      match fs !! cur' with
      | Some (File _ _ _) =>
          Err (ErrnoException (if rest' is [] then "EEXIST" else "ENOTDIR") "mkdir" p)
      | Some (Dir _) => mkdir_from now p fs cur' rest'
      | None => mkdir_from now p (<[cur' := new_directory now]> fs) cur' rest'
      end
  end.

Definition mkdir_recursive (now : Z) (fs : filesystem) (p : path) : result js_error filesystem :=
  if has_nul p then Err (ErrnoException "ERR_INVALID_ARG_VALUE" "mkdir" p)
  else mkdir_from now p fs [] (segments p).

(** Creating or replacing the regular file at [p]: the parent must be a
    directory, the target must not be one.  A file that is replaced keeps
    its birth time. *)
Definition write_file (syscall : string) (now : Z) (fs : filesystem) (p : path) (data : string)
  : result js_error filesystem :=
  if has_nul p then Err (ErrnoException "ERR_INVALID_ARG_VALUE" syscall p)
  else if trailingSep p then Err (ErrnoException "EISDIR" syscall p)
  else if file_on_the_way fs [] (segments p) then Err (ErrnoException "ENOTDIR" syscall p)
  else match segments p with
       | [] => Err (ErrnoException "EISDIR" syscall p)
       | _ =>
           match node_at fs (removelast (segments p)) with
           | None => Err (ErrnoException "ENOENT" syscall p)
           | Some (File _ _ _) => Err (ErrnoException "ENOTDIR" syscall p)
           | Some (Dir _) =>
               match fs !! segments p with
               | Some (Dir _) => Err (ErrnoException "EISDIR" syscall p)
               | Some (File _ b _) => Ok (<[segments p := File data b now]> fs)
               | None => Ok (<[segments p := File data now now]> fs)
               end
           end
       end.

Definition stats_of (n : node) : Stats :=
  match n with
  | Dir st => st
  | File c b m => mkStats (Z.of_nat (String.length c)) b m
  end.

(** The names of the entries of the directory [dir], in the order the file
    system enumerates them. *)
Definition entries (fs : filesystem) (dir : list string) : list string :=
  omap (λ k, if decide (k ≠ [] ∧ removelast k = dir) then last k else None)
       ((map_to_list fs).*1).

Definition read_directory (fs : filesystem) (p : path) : result js_error (list string) :=
  match resolve "scandir" fs p with
  | Err e => Err e
  | Ok (File _ _ _) => Err (ErrnoException "ENOTDIR" "scandir" p)
  | Ok (Dir _) => Ok (entries fs (segments p))
  end.

(** An error of axios: [response] is the status and status text of an answer
    outside 2xx, [request] tells that the request was sent. *)
Record AxiosError := mkAxiosError {
  axios_message : string;
  axios_response : option (Z * string);
  axios_request : bool
}.

(** What a call of [axios.get] can throw. *)
Inductive thrown :=
| Axios (e : AxiosError)
| Other (e : js_error).

(** ** The world outside the process *)

(** What the image codec reads from the header of an image. *)
Record Metadata := mkMetadata {
  width : option Z;
  height : option Z;
  format : option string
}.

Record environment := mkEnvironment {
  (** [process.env.GOOGLE_API_KEY] *)
  GOOGLE_API_KEY : option string;
  (** [process.cwd()], the names below the root *)
  cwd : list string;
  (** the clock, read when a node of the file system is written *)
  now : Z;
  (** the upstream API: status and body of the answer to a GET of the URL
      with the parameters, or the error of axios (a request that gets no
      answer within REQUEST_TIMEOUT, 30 seconds, is one without response) *)
  http_get : string → gmap string json → result thrown (Z * string);
  (** the answer of the metadata endpoint, its body parsed as JSON *)
  http_get_json : string → gmap string json → result thrown (Z * json);
  (** sharp: the buffer re-encoded as a JPEG of quality 95, or the message
      of the error for an input that is no image *)
  jpeg : string → result string string;
  (** sharp: the metadata of the image in a buffer *)
  metadata_of : string → result string Metadata;
  (** the decimal rendering of [parseFloat(s)], for [s] that is not NaN *)
  parseFloat_toString : string → string;
  (** [new Date(t).toISOString()] of a time value in milliseconds *)
  toISOString : Z → string;
  (** [a.localeCompare(b)], as the sign of the result *)
  localeCompare : string → string → comparison
}.

(** ** Observable actions *)

Inductive level := info | warn | error.

Inductive event :=
| Access (p : path)
| Mkdir (p : path)
| WriteFile (p : path) (data : string)
| Readdir (p : path)
| Stat (p : path)
| SharpToFile (p : path)
| SharpMetadata (p : path)
| HttpGet (url : string) (params : gmap string json)
| Log (l : level) (line : string).

(** ** The monad of the handlers *)

Record state := mkState {
  files : filesystem;
  trace : list event
}.

Definition M (A : Type) : Type := state → result js_error A * state.

#[global] Instance M_ret : MRet M := λ A a st, (Ok a, st).

#[global] Instance M_bind : MBind M := λ A B f m st,
  match m st with
  | (Ok a, st') => f a st'
  | (Err e, st') => (Err e, st')
  end.

Definition throw {A} (e : js_error) : M A := λ st, (Err e, st).

Definition try_catch {A} (body : M A) (handler : js_error → M A) : M A := λ st,
  match body st with
  | (Ok a, st') => (Ok a, st')
  | (Err e, st') => handler e st'
  end.

Definition emit (e : event) : M unit := λ st,
  (Ok tt, mkState (files st) (trace st ++ [e])).

Definition read_fs {A} (f : filesystem → result js_error A) : M A := λ st,
  (f (files st), st).

Definition update_fs (f : filesystem → result js_error filesystem) : M unit := λ st,
  match f (files st) with
  | Ok fs' => (Ok tt, mkState fs' (trace st))
  | Err e => (Err e, st)
  end.

Definition from_result {A} (r : result js_error A) : M A := λ st, (r, st).

(** The answer of a tool call: one text item, and the [isError] flag. *)
Inductive text :=
| Stringified (v : json)
| ErrorLine (m : string)
| ZodErrorLine (e : ZodError).

Record CallToolResult := mkResult {
  content : text;
  isError : bool
}.

Section Server.

Variable env : environment.

(** [log(level, message, data)]: one line on standard error. *)
Definition log (l : level) (line : string) : M unit := emit (Log l line).

(** *** Node's [fs.promises] and sharp *)

Definition fs_access (p : path) : M unit :=
  emit (Access p);; _ ← read_fs (λ fs, resolve "access" fs p); mret tt.

Definition fs_mkdir (p : path) : M unit :=
  emit (Mkdir p);; update_fs (λ fs, mkdir_recursive (now env) fs p).

Definition fs_writeFile (p : path) (data : string) : M unit :=
  emit (WriteFile p data);; update_fs (λ fs, write_file "open" (now env) fs p data).

Definition fs_stat (p : path) : M Stats :=
  emit (Stat p);; n ← read_fs (λ fs, resolve "stat" fs p); mret (stats_of n).

Definition fs_readdir (p : path) : M (list string) :=
  emit (Readdir p);; read_fs (λ fs, read_directory fs p).

(** [sharp(buffer).jpeg({quality: 95}).toFile(p)] *)
Definition sharp_jpeg_toFile (buffer : string) (p : path) : M unit :=
  emit (SharpToFile p);;
  match jpeg env buffer with
  | Err m => throw (Error m)
  | Ok encoded => update_fs (λ fs, write_file "open" (now env) fs p encoded)
  end.

(** [sharp(p).metadata()] *)
Definition sharp_metadata (p : path) : M Metadata :=
  emit (SharpMetadata p);;
  read_fs (λ fs,
    match resolve "open" fs p with
    | Ok (File c _ _) =>
        match metadata_of env c with
        | Ok m => Ok m
        | Err msg => Err (Error msg)
        end
    | _ => Err (Error ("Input file is missing: " +:+ path_string p))
    end).

(** *** Constants *)

Definition BASE_URL : string := "https://maps.googleapis.com/maps/api/streetview".
Definition METADATA_URL : string := "https://maps.googleapis.com/maps/api/streetview/metadata".

Definition OUTPUT_DIR : path := join (cwd env) "output".
Definition HTML_DIR : path := join (cwd env) "html".

(** [join(dir, name)] below one of the two directories. *)
Definition join_dir (dir : path) (name : string) : path := join (segments dir) name.

(** *** Helpers *)

Definition ensureDirectoryExists (dir : path) : M unit :=
  try_catch (fs_access dir) (λ _, fs_mkdir dir).

Definition invalid_lat_lng : string :=
  "Invalid lat_lng format. Use format: '40.714728,-73.998672'".

(** The pair that [parseLatLng] returns holds the two trimmed texts that
    [parseFloat] was applied to; they stand for the numbers read.  A missing
    second part is [undefined], which [isNaN] takes for NaN.  Whatever is
    thrown inside is replaced by the one error of the catch clause. *)
Definition parseLatLng (latLng : string) : result js_error (string * string) :=
  match trim <$> split "," latLng with
  | lat :: lng :: _ =>
      if parseFloat_isNaN lat || parseFloat_isNaN lng then Err (Error invalid_lat_lng)
      else Ok (lat, lng)
  | _ => Err (Error invalid_lat_lng)
  end.

Definition api_key_missing : string :=
  "GOOGLE_API_KEY not found in environment variables. Please set your Google Maps API key.".

(** The catch clause of the two request wrappers, which differ in the
    wording only: [what] starts the messages, [during] ends the log line of
    an unexpected error. *)
Definition request_failed (what during : string) (e : thrown) : M js_error :=
  match e with
  | Axios a =>
      match axios_response a with
      | Some (status, statusText) =>
          log error (what +:+ " failed with response");;
          mret (Error (what +:+ " failed: " +:+ pretty status +:+ " " +:+ statusText))
      | None =>
          if axios_request a then
            log error (what +:+ " failed - no response received");;
            mret (Error ("Network error: " +:+ axios_message a))
          else
            log error ("Unexpected error during " +:+ during);;
            mret (Error ("Unexpected error: " +:+ axios_message a))
      end
  | Other e =>
      log error ("Unexpected error during " +:+ during);;
      mret (Error ("Unexpected error: " +:+ message e))
  end.

Definition with_key (params : gmap string json) (key : string) : gmap string json :=
  <["key" := JString key]> params.

(** [if (!GOOGLE_API_KEY) throw ...] sits inside the [try] of the wrapper,
    so a missing key takes the catch clause as well, before any request. *)
Definition makeApiRequest (url : string) (params : gmap string json) : M string :=
  if Boolean (GOOGLE_API_KEY env) then
    log info "Making API request";;
    let sent := with_key params (default "" (GOOGLE_API_KEY env)) in
    emit (HttpGet url sent);;
    match http_get env url sent with
    | Ok (status, data) => log info "API request successful";; mret data
    | Err e => e' ← request_failed "API request" "API request" e; throw e'
    end
  else
    e' ← request_failed "API request" "API request" (Other (Error api_key_missing));
    throw e'.

Definition makeMetadataRequest (url : string) (params : gmap string json) : M json :=
  if Boolean (GOOGLE_API_KEY env) then
    log info "Making metadata API request";;
    let sent := with_key params (default "" (GOOGLE_API_KEY env)) in
    emit (HttpGet url sent);;
    match http_get_json env url sent with
    | Ok (status, data) => log info "Metadata API request successful";; mret data
    | Err e => e' ← request_failed "Metadata API request" "metadata API request" e; throw e'
    end
  else
    e' ← request_failed "Metadata API request" "metadata API request"
           (Other (Error api_key_missing));
    throw e'.

(** A string that is neither undefined nor empty, as [if (x)] and [x || y]
    test it. *)
Definition truthy (x : option string) : option string :=
  match x with
  | Some s => if String.eqb s "" then None else Some s
  | None => None
  end.

(** [a || b] *)
Definition or_else (a b : option string) : option string :=
  match truthy a with
  | Some _ => a
  | None => b
  end.

(** The existence check of [get_street_view] and [create_html_page]: the
    error thrown after a successful [access] has no [code], so the catch
    clause throws it again; of the errors of [access] only ENOENT is
    swallowed. *)
Definition must_not_exist (filePath : path) (complaint : string) : M unit :=
  try_catch (fs_access filePath;; throw (Error complaint))
            (λ e, if decide (code e = Some "ENOENT") then mret tt else throw e).

(** The block "Set location parameter", the same in [get_street_view] and
    [get_metadata]. *)
Definition set_location (location lat_lng pano_id : option string) (params : gmap string json)
  : M (gmap string json) :=
  match truthy location with
  | Some l => mret (<["location" := JString l]> params)
  | None =>
      match truthy lat_lng with
      | Some ll =>
          '(lat, lng) ← from_result (parseLatLng ll);
          mret (<["location" :=
                    JString (parseFloat_toString env lat +:+ "," +:+ parseFloat_toString env lng)]>
                  params)
      | None =>
          match truthy pano_id with
          | Some p => mret (delete "radius" (<["pano" := JString p]> params))
          | None => mret params
          end
      end
  end.

(** [`${Math.round(bytes / 1024)}KB`] *)
Definition kilobytes (bytes : Z) : string := pretty ((bytes + 512) / 1024) +:+ "KB".

Definition failure (what : string) (e : js_error) : CallToolResult :=
  mkResult (Stringified (obj [("error", Some (JString (what +:+ message e)))])) true.

Definition success (v : json) : CallToolResult := mkResult (Stringified v) false.

(** *** get_street_view *)

Definition street_view_params (a : GetStreetViewArgs) : gmap string json :=
  <["return_error_code" := JString "true"]>
  (<["source" := JString (sv_source a)]>
  (<["radius" := JNumber (sv_radius a)]>
  (<["fov" := JNumber (sv_fov a)]>
  (<["pitch" := JNumber (sv_pitch a)]>
  (<["heading" := JNumber (sv_heading a)]>
  (<["size" := JString (sv_size a)]> ∅)))))).

Definition get_street_view_try (a : GetStreetViewArgs) : M json :=
  ensureDirectoryExists OUTPUT_DIR;;
  let filePath := join_dir OUTPUT_DIR (sv_filename a) in
  must_not_exist filePath
    ("File " +:+ sv_filename a +:+ " already exists in output directory");;
  params ← set_location (sv_location a) (sv_lat_lng a) (sv_pano_id a) (street_view_params a);
  imageBuffer ← makeApiRequest BASE_URL params;
  sharp_jpeg_toFile imageBuffer filePath;;
  metadata ← sharp_metadata filePath;
  stats ← fs_stat filePath;
  mret (obj [
    ("status", Some (JString "success"));
    ("message", Some (JString "Street View image saved successfully"));
    ("filename", Some (JString (sv_filename a)));
    ("path", Some (JString (path_string filePath)));
    ("metadata", Some (obj [
       ("width", JNumber ∘ num <$> width metadata);
       ("height", JNumber ∘ num <$> height metadata);
       ("format", JString <$> format metadata);
       ("size", Some (JString (kilobytes (stat_size stats))))]));
    ("parameters", Some (obj [
       ("location", JString <$> or_else (sv_location a) (or_else (sv_lat_lng a) (sv_pano_id a)));
       ("size", Some (JString (sv_size a)));
       ("heading", Some (JNumber (sv_heading a)));
       ("pitch", Some (JNumber (sv_pitch a)));
       ("fov", Some (JNumber (sv_fov a)));
       ("radius", match truthy (sv_pano_id a) with
                  | Some _ => None
                  | None => Some (JNumber (sv_radius a))
                  end);
       ("source", Some (JString (sv_source a)))]))]).

Definition get_street_view (a : GetStreetViewArgs) : M CallToolResult :=
  try_catch (v ← get_street_view_try a; mret (success v))
            (λ e, mret (failure "Street View image fetch failed: " e)).

(** *** get_metadata *)

Definition metadata_params (a : GetMetadataArgs) : gmap string json :=
  <["source" := JString (md_source a)]> (<["radius" := JNumber (md_radius a)]> ∅).

(** [data.k] of a response body that is not null. *)
Definition property (data : json) (k : string) : option json :=
  match data with
  | JObject kvs => snd <$> List.find (λ kv, String.eqb kv.1 k) kvs
  | _ => None
  end.

(** The TypeError of [metadata.status] for a body that is null (in the
    words of V8 since its version 9.3). *)
Definition null_body : js_error := Error "Cannot read properties of null (reading 'status')".

(** The object that the handler answers with: the members that it reads
    from the body, and the query. *)
Definition metadata_answer (a : GetMetadataArgs) (metadata : json) : result js_error json :=
  match metadata with
  | JNull => Err null_body
  | _ =>
      Ok (obj [
        ("status", property metadata "status");
        ("copyright", property metadata "copyright");
        ("date", property metadata "date");
        ("pano_id", property metadata "pano_id");
        ("location", property metadata "location");
        ("query", Some (obj [
           ("location",
            JString <$> or_else (md_location a) (or_else (md_lat_lng a) (md_pano_id a)));
           ("radius", match truthy (md_pano_id a) with
                      | Some _ => None
                      | None => Some (JNumber (md_radius a))
                      end);
           ("source", Some (JString (md_source a)))]))])
  end.

Definition get_metadata_try (a : GetMetadataArgs) : M json :=
  params ← set_location (md_location a) (md_lat_lng a) (md_pano_id a) (metadata_params a);
  metadata ← makeMetadataRequest METADATA_URL params;
  from_result (metadata_answer a metadata).

Definition get_metadata (a : GetMetadataArgs) : M CallToolResult :=
  try_catch (v ← get_metadata_try a; mret (success v))
            (λ e, mret (failure "Metadata fetch failed: " e)).

(** *** create_html_page *)

Definition htmlFilename (filename : string) : string :=
  if endsWith filename ".html" then filename else filename +:+ ".html".

Definition page_head : list string := [
  "<!DOCTYPE html>";
  "<html lang=" +:+ dquote +:+ "en" +:+ dquote +:+ ">";
  "<head>";
  "    <meta charset=" +:+ dquote +:+ "UTF-8" +:+ dquote +:+ ">";
  "    <meta name=" +:+ dquote +:+ "viewport" +:+ dquote +:+ " content=" +:+ dquote
    +:+ "width=device-width, initial-scale=1.0" +:+ dquote +:+ ">"].

Definition page_style : list string := [
  "    <style>";
  "        body {";
  "            font-family: Arial, sans-serif;";
  "            line-height: 1.6;";
  "            max-width: 800px;";
  "            margin: 0 auto;";
  "            padding: 20px;";
  "            color: #333;";
  "        }";
  "        img {";
  "            max-width: 100%;";
  "            height: auto;";
  "            border-radius: 5px;";
  "            margin: 20px 0;";
  "        }";
  "        h1, h2, h3 {";
  "            color: #2c3e50;";
  "        }";
  "        .location {";
  "            font-weight: bold;";
  "            margin-bottom: 5px;";
  "        }";
  "        .description {";
  "            margin-bottom: 30px;";
  "        }";
  "    </style>";
  "</head>";
  "<body>"].

Definition htmlTemplate (title content : string) : string :=
  String.concat nl
    (page_head ++ ["    <title>" +:+ title +:+ "</title>"] ++ page_style
     ++ [content; "</body>"; "</html>"]).

Definition create_html_page_try (a : CreateHtmlPageArgs) : M json :=
  ensureDirectoryExists HTML_DIR;;
  let name := htmlFilename (hp_filename a) in
  let filePath := join_dir HTML_DIR name in
  must_not_exist filePath ("File " +:+ name +:+ " already exists");;
  let content := String.concat nl (hp_html_elements a) in
  fs_writeFile filePath (htmlTemplate (hp_title a) content);;
  mret (obj [
    ("status", Some (JString "success"));
    ("message", Some (JString "HTML page created successfully"));
    ("filename", Some (JString name));
    ("path", Some (JString (path_string filePath)));
    ("title", Some (JString (hp_title a)));
    ("elements_count", Some (JNumber (num (Z.of_nat (length (hp_html_elements a))))))]).

Definition create_html_page (a : CreateHtmlPageArgs) : M CallToolResult :=
  try_catch (v ← create_html_page_try a; mret (success v))
            (λ e, mret (failure "HTML page creation failed: " e)).

(** *** list_saved_images *)

Definition imageExtensions : list string :=
  [".jpg"; ".jpeg"; ".png"; ".gif"; ".bmp"; ".webp"].

Definition is_image_file (file : string) : bool :=
  existsb (λ ext, endsWith (toLowerCase file) ext) imageExtensions.

Record ImageInfo := mkImageInfo {
  filename : string;
  size : string;
  dimensions : option string;
  image_format : option string;
  created : string;
  modified : string
}.

(** [`${x}`] of a number that may be undefined. *)
Definition show (x : option Z) : string := from_option pretty "undefined" x.

(** The entry of one file: its stats, and what the codec reads from it; the
    fallback without dimensions and format when the codec fails. *)
Definition image_info (file : string) : M ImageInfo :=
  let filePath := join_dir OUTPUT_DIR file in
  stats ← fs_stat filePath;
  try_catch
    (metadata ← sharp_metadata filePath;
     mret {| filename := file;
             size := kilobytes (stat_size stats);
             dimensions := Some (show (width metadata) +:+ "x" +:+ show (height metadata));
             image_format := format metadata;
             created := toISOString env (stat_birthtime stats);
             modified := toISOString env (stat_mtime stats) |})
    (λ _,
     mret {| filename := file;
             size := kilobytes (stat_size stats);
             dimensions := None;
             image_format := None;
             created := toISOString env (stat_birthtime stats);
             modified := toISOString env (stat_mtime stats) |}).

(** [Array.prototype.sort] is a stable sort; with a comparator that is a
    consistent order, every stable sort returns the same array.  This one
    puts each element before the first element of the sorted rest that it
    does not compare greater than. *)
Fixpoint insert_by {A} (cmp : A → A → comparison) (x : A) (l : list A) : list A :=
  match l with
  | [] => [x]
  | y :: l' =>
      match cmp x y with
      | Gt => y :: insert_by cmp x l'
      | _ => x :: l
      end
  end.

Definition sort {A} (cmp : A → A → comparison) (l : list A) : list A :=
  foldr (insert_by cmp) [] l.

(** [(a, b) => b.modified.localeCompare(a.modified)] *)
Definition most_recent_first (a b : ImageInfo) : comparison :=
  localeCompare env (modified b) (modified a).

Definition image_json (i : ImageInfo) : json :=
  obj [("filename", Some (JString (filename i)));
       ("size", Some (JString (size i)));
       ("dimensions", JString <$> dimensions i);
       ("format", JString <$> image_format i);
       ("created", Some (JString (created i)));
       ("modified", Some (JString (modified i)))].

(** The entries are computed by [Promise.all] over the files; the array it
    resolves to is in the order of the files. *)
Definition saved_images : M (list ImageInfo) :=
  ensureDirectoryExists OUTPUT_DIR;;
  files ← fs_readdir OUTPUT_DIR;
  let imageFiles := List.filter is_image_file files in
  imageInfo ← mapM image_info imageFiles;
  mret (sort most_recent_first imageInfo).

Definition list_saved_images_try : M json :=
  images ← saved_images;
  mret (obj [
    ("output_directory", Some (JString (path_string OUTPUT_DIR)));
    ("total_images", Some (JNumber (num (Z.of_nat (length images)))));
    ("images", Some (JArray (image_json <$> images)))]).

Definition list_saved_images : M CallToolResult :=
  try_catch (v ← list_saved_images_try; mret (success v))
            (λ e, mret (failure "Failed to list saved images: " e)).

(** *** The dispatcher

    The [try] around the [switch] turns the [ZodError] of a failed [parse],
    and the error of an unknown tool name, into an error answer. *)
Definition zod_failure (e : ZodError) : CallToolResult := mkResult (ZodErrorLine e) true.

Definition CallTool (name : string) (args : arguments) : M CallToolResult :=
  if String.eqb name "get_street_view" then
    match parse (GetStreetViewSchema args) with
    | Ok validatedArgs => get_street_view validatedArgs
    | Err e => mret (zod_failure e)
    end
  else if String.eqb name "get_metadata" then
    match parse (GetMetadataSchema args) with
    | Ok validatedArgs => get_metadata validatedArgs
    | Err e => mret (zod_failure e)
    end
  else if String.eqb name "create_html_page" then
    match parse (CreateHtmlPageSchema args) with
    | Ok validatedArgs => create_html_page validatedArgs
    | Err e => mret (zod_failure e)
    end
  else if String.eqb name "list_saved_images" then list_saved_images
  else mret (mkResult (ErrorLine ("Unknown tool: " +:+ name)) true).

End Server.

(** * The list of tools

    What the handler of [ListToolsRequestSchema] returns: for each tool its
    name, its description and its [inputSchema], here the [properties] and
    the [required] names. *)

(** One entry of [properties] in an [inputSchema]. *)
Record PropertySchema := mkProperty {
  prop_type : string;
  prop_description : string;
  prop_default : option json;
  prop_enum : option (list string);
  prop_items : option string
}.

Record Tool := mkTool {
  tool_name : string;
  tool_description : string;
  tool_properties : list (string * PropertySchema);
  tool_required : list string
}.

Definition plain_property (type description : string) : PropertySchema :=
  mkProperty type description None None None.

Definition property_with_default (type description : string) (d : json) : PropertySchema :=
  mkProperty type description (Some d) None None.

(** The handler of [ListToolsRequestSchema]: the [tools] it returns. *)
Definition ListTools : list Tool := [
  mkTool "get_street_view"
    "Fetch a Street View image based on location, coordinates, or panorama ID and save to file."
    [("filename", plain_property "string"
        "Required filename to save the image (must not already exist in output directory)");
     ("location", plain_property "string"
        "The address to get Street View image for (e.g., 'Empire State Building, NY')");
     ("lat_lng", plain_property "string"
        "Comma-separated latitude and longitude (e.g., '40.748817,-73.985428')");
     ("pano_id", plain_property "string" "Specific panorama ID to fetch");
     ("size", property_with_default "string"
        "Image dimensions as 'widthxheight' (e.g., '600x400')" (JString "600x400"));
     ("heading", property_with_default "number"
        "Camera heading in degrees (0-360)" (JNumber (num 0)));
     ("pitch", property_with_default "number"
        "Camera pitch in degrees (-90 to 90)" (JNumber (num 0)));
     ("fov", property_with_default "number"
        "Field of view in degrees (zoom level, 10-120)" (JNumber (num 90)));
     ("radius", property_with_default "number"
        "Search radius in meters when using location or coordinates" (JNumber (num 50)));
     ("source", mkProperty "string" "Limit Street View searches to selected sources"
        (Some (JString "default")) (Some ["default"; "outdoor"]) None)]
    ["filename"];
  mkTool "get_metadata"
    "Fetch metadata about a Street View panorama."
    [("location", plain_property "string" "The address to check for Street View imagery");
     ("lat_lng", plain_property "string"
        "Comma-separated latitude and longitude (e.g., '40.748817,-73.985428')");
     ("pano_id", plain_property "string" "Specific panorama ID to fetch metadata for");
     ("radius", property_with_default "number"
        "Search radius in meters when using location or coordinates" (JNumber (num 50)));
     ("source", mkProperty "string" "Limit Street View searches to selected sources"
        (Some (JString "default")) (Some ["default"; "outdoor"]) None)]
    [];
  mkTool "create_html_page"
    "Create an HTML page that displays multiple Street View images as a virtual tour."
    [("filename", plain_property "string"
        "Name of the HTML file to create (without directory path)");
     ("title", property_with_default "string" "Title for the HTML page"
        (JString "Street View Tour"));
     ("html_elements", mkProperty "array"
        "List of content HTML elements (just the body content, no need for HTML structure). When including Street View images, use path '../output/filename.jpg'"
        None None (Some "string"))]
    ["filename"; "html_elements"];
  mkTool "list_saved_images"
    "List all saved Street View images in the output directory."
    []
    []
].

(** * What the handlers are expected to do *)

(** A location selector that a request supplies: the member is present and
    is not the empty string. *)
Definition supplied (v : option json) : bool :=
  match v with
  | None => false
  | Some (JString s) => negb (String.eqb s "")
  | Some _ => true
  end.

Definition selector_count (args : arguments) : nat :=
  match args with
  | None => 0%nat
  | Some o => length (List.filter supplied [o !! "location"; o !! "lat_lng"; o !! "pano_id"])
  end.

(** The two tools that take a location. *)
Definition takes_location (name : string) : Prop :=
  name = "get_street_view" ∨ name = "get_metadata".

(** [n < z] and [z < n] as propositions about the number denoted. *)
Definition below (n : number) (z : Z) : Prop :=
  match n with
  | Fin q => (q < inject_Z z)%Q
  | Infinity negative => negative = true
  end.

Definition above (n : number) (z : Z) : Prop :=
  match n with
  | Fin q => (inject_Z z < q)%Q
  | Infinity negative => negative = false
  end.

(** A numeric member of the argument bag lies outside its declared range:
    heading 0..360, pitch -90..90, fov 10..120, radius from 1. *)
Inductive out_of_range (o : gmap string json) : Prop :=
| heading_out n : o !! "heading" = Some (JNumber n) → below n 0 ∨ above n 360 → out_of_range o
| pitch_out n : o !! "pitch" = Some (JNumber n) → below n (-90) ∨ above n 90 → out_of_range o
| fov_out n : o !! "fov" = Some (JNumber n) → below n 10 ∨ above n 120 → out_of_range o
| radius_out n : o !! "radius" = Some (JNumber n) → below n 1 → out_of_range o.

(** The number is an integer. *)
Definition integral (n : number) : Prop :=
  match n with
  | Fin q => ∃ z : Z, (q == inject_Z z)%Q
  | Infinity _ => False
  end.

Definition numeric_fields : list string := ["heading"; "pitch"; "fov"; "radius"].

(** [s] ends with [suffix]. *)
Definition has_suffix (s suffix : string) : Prop := ∃ stem, s = stem +:+ suffix.

Definition selector_keys : list string := ["location"; "lat_lng"; "pano_id"].

(** The request carries the empty string as its location, a lat_lng that is
    not empty, and no pano_id. *)
Definition empty_location_and_lat_lng (o : gmap string json) : Prop :=
  o !! "location" = Some (JString "")
  ∧ (∃ s, o !! "lat_lng" = Some (JString s) ∧ s ≠ "")
  ∧ o !! "pano_id" = None.

(** The one selector that the request carries is the empty string. *)
Definition only_empty_selector (o : gmap string json) : Prop :=
  ∃ k, In k selector_keys
       ∧ o !! k = Some (JString "")
       ∧ ∀ k', In k' selector_keys → k' ≠ k → o !! k' = None.

Definition exactly_one_issue : ZodIssue := mkIssue custom [] (Some exactly_one_message).

(** The modification time of the file that an entry of the listing names,
    as [stat] reports it for the path below the output directory. *)
Definition modification_time (env : environment) (fs : gmap (list string) node) (i : ImageInfo)
  : Z :=
  match resolve "stat" fs (join_dir (OUTPUT_DIR env) (filename i)) with
  | Ok n => stat_mtime (stats_of n)
  | Err _ => 0
  end.


Definition latest_first (t u : Z) : Prop := u ≤ t.

(** ** Conflicts *)

(** The answer of [get_street_view] for a file name that is taken. *)
Definition conflict (filename : string) : CallToolResult :=
  failure "Street View image fetch failed: "
    (Error ("File " +:+ filename +:+ " already exists in output directory")).

(** Every regular file of [fs] is in [fs'], with its bytes and its times. *)
Definition keeps_files (fs fs' : gmap (list string) node) : Prop :=
  ∀ k c b m, fs !! k = Some (File c b m) → fs' !! k = Some (File c b m).

(** No run of [m] changes the file system. *)
Definition reads_only {A} (m : M A) : Prop :=
  ∀ st r st', m st = (r, st') → files st' = files st.

(** [access] finds something at the path. *)
Definition accessible (fs : gmap (list string) node) (p : path) : Prop :=
  ∃ n, resolve "access" fs p = Ok n.

(** A file name without a directory part: no separator (and no NUL, which
    no path may contain). *)
Fixpoint plain_name (s : string) : bool :=
  match s with
  | EmptyString => true
  | String c s' => negb (Ascii.eqb c "/") && negb (Ascii.eqb c "000") && plain_name s'
  end.

(** No regular file stands where a directory of [rest] below [cur] has to
    be. *)
Fixpoint clear_way (fs : gmap (list string) node) (cur rest : list string) : bool :=
  match rest with
  | [] => true
  | s :: rest' =>
      match fs !! (cur ++ [s]) with
      | Some (File _ _ _) => false
      | _ => clear_way fs (cur ++ [s]) rest'
      end
  end.

(** The directory exists or can be created. *)
Definition available (fs : gmap (list string) node) (dir : path) : Prop :=
  has_nul dir = false ∧ clear_way fs [] (segments dir) = true.

(** The answer of [create_html_page] for a page that is there already. *)
Definition page_exists (name : string) : CallToolResult :=
  failure "HTML page creation failed: " (Error ("File " +:+ name +:+ " already exists")).

(** The path and the text of the page of a request. *)
Definition page_path (env : environment) (filename : string) : path :=
  join_dir (HTML_DIR env) (htmlFilename filename).

Definition page_of (v : CreateHtmlPageArgs) : string :=
  htmlTemplate (hp_title v) (String.concat nl (hp_html_elements v)).

(** ** Upstream requests *)

(** Every run of [m] extends the trace by events that satisfy [P]. *)
Definition adds {A} (P : event → Prop) (m : M A) : Prop :=
  ∀ st r st', m st = (r, st') → ∃ evs, trace st' = trace st ++ evs ∧ Forall P evs.

(** The location reference of a request, as the handlers pick it. *)
Inductive LocationReference :=
| Address (text : string)
| Coordinates (lat_lng : string)
| Panorama (id : string).

Definition reference (location lat_lng pano_id : option string) : option LocationReference :=
  match truthy location with
  | Some s => Some (Address s)
  | None =>
      match truthy lat_lng with
      | Some s => Some (Coordinates s)
      | None => Panorama <$> truthy pano_id
      end
  end.

(** The radius in the parameters of an upstream request: left out for a
    panorama id, sent along with an address or coordinates. *)
Definition radius_rule (ref : option LocationReference) (radius : number)
    (params : gmap string json) : Prop :=
  match ref with
  | Some (Panorama id) => params !! "radius" = None ∧ params !! "pano" = Some (JString id)
  | Some _ => params !! "radius" = Some (JNumber radius) ∧ params !! "pano" = None
  | None => True
  end.

(** The default of the member [radius]. *)
Definition default_radius : number := num 50.



(** An upstream request, if the event is one, obeys the radius rule. *)
Definition obeys (ref : option LocationReference) (radius : number) (e : event) : Prop :=
  ∀ url params, e = HttpGet url params → radius_rule ref radius params.




(** ** The advertised schemas, the network and the disk *)

(** The schema that [CallTool] parses the arguments of a tool with, as far
    as acceptance goes. *)
Definition accepts (name : string) (args : arguments) : bool :=
  if String.eqb name "get_street_view" then
    match parse (GetStreetViewSchema args) with Ok _ => true | Err _ => false end
  else if String.eqb name "get_metadata" then
    match parse (GetMetadataSchema args) with Ok _ => true | Err _ => false end
  else if String.eqb name "create_html_page" then
    match parse (CreateHtmlPageSchema args) with Ok _ => true | Err _ => false end
  else String.eqb name "list_saved_images".

(** [typeof] of a JSON value, in the words of JSON Schema. *)
Definition json_type (j : json) : string :=
  match j with
  | JNull => "null"
  | JBool _ => "boolean"
  | JNumber _ => "number"
  | JString _ => "string"
  | JArray _ => "array"
  | JObject _ => "object"
  end.

(** The names of the advertised tools. *)
Definition tool_names : list string := tool_name <$> ListTools.

(** A JSON value fits the advertised schema of a member: its type, its
    [enum] and the type of its [items]. *)
Definition fits (p : PropertySchema) (j : json) : Prop :=
  json_type j = prop_type p
  ∧ (∀ values, prop_enum p = Some values → ∃ s, j = JString s ∧ In s values)
  ∧ (∀ t, prop_items p = Some t → ∃ xs, j = JArray xs ∧ Forall (λ x, json_type x = t) xs).

(** Two entries of the list of tools. *)
Definition create_html_page_tool : Tool := nth 2 ListTools (mkTool "" "" [] []).
Definition get_street_view_tool : Tool := nth 0 ListTools (mkTool "" "" [] []).

(** The number is an integer between [lo] and [hi]. *)
Definition integer_between (lo hi : Z) (n : number) : Prop :=
  integral n ∧ ¬ below n lo ∧ ¬ above n hi.

(** A log line or a request to the metadata endpoint. *)
Definition metadata_traffic (e : event) : Prop :=
  match e with
  | Log _ _ => True
  | HttpGet url _ => url = METADATA_URL
  | _ => False
  end.

(** What [create_html_page] may do for the page at [target]: look for the
    html directory and create it, look for the page and write it. *)
Definition page_action (env : environment) (target : path) (e : event) : Prop :=
  match e with
  | Access p => p = HTML_DIR env ∨ p = target
  | Mkdir p => p = HTML_DIR env
  | WriteFile p _ => p = target
  | _ => False
  end.

(** What [list_saved_images] may do: look for the output directory and
    create it, read it, and look at files below it. *)
Definition listing_action (env : environment) (e : event) : Prop :=
  match e with
  | Access p | Mkdir p | Readdir p => p = OUTPUT_DIR env
  | Stat p | SharpMetadata p => ∃ file, p = join_dir (OUTPUT_DIR env) file
  | _ => False
  end.

(** The two file systems hold the same regular files. *)
Definition same_files (fs fs' : gmap (list string) node) : Prop :=
  ∀ k c b m, fs' !! k = Some (File c b m) ↔ fs !! k = Some (File c b m).

(** The buffer [c] is the JPEG encoding of an answer of the image endpoint
    to a request that carries the API key. *)
Definition downloaded (env : environment) (c : string) : Prop :=
  Boolean (GOOGLE_API_KEY env) = true
  ∧ ∃ ps status data,
      http_get env BASE_URL (with_key ps (default "" (GOOGLE_API_KEY env))) = Ok (status, data)
      ∧ jpeg env data = Ok c.

(** The regular files of [fs] and [fs'] are the same, but for the path
    [k0], which was free and now holds a file with the bytes [c]. *)
Definition one_new_file (fs fs' : gmap (list string) node) (k0 : list string) (c : string)
  : Prop :=
  fs !! k0 = None
  ∧ (∃ b m, fs' !! k0 = Some (File c b m))
  ∧ ∀ k c' b m, k ≠ k0 → fs' !! k = Some (File c' b m) ↔ fs !! k = Some (File c' b m).

(** Anything but an upstream request. *)
Definition no_request (e : event) : Prop :=
  match e with
  | HttpGet _ _ => False
  | _ => True
  end.

(** The event is an upstream request. *)
Definition is_request (e : event) : bool :=
  match e with
  | HttpGet _ _ => true
  | _ => false
  end.

(** The number of upstream requests among the events. *)
Definition requests (evs : list event) : nat := length (List.filter is_request evs).

(** Every run of [m] sends at most [n] upstream requests. *)
Definition sends_at_most {A} (n : nat) (m : M A) : Prop :=
  ∀ st r st', m st = (r, st') → ∃ evs, trace st' = trace st ++ evs ∧ (requests evs ≤ n)%nat.

(** What the codec reads from a node. *)
Definition decoded (env : environment) (n : node) : option Metadata :=
  match n with
  | File c _ _ =>
      match metadata_of env c with
      | Ok md => Some md
      | Err _ => None
      end
  | Dir _ => None
  end.

(** The members of the upstream body that [get_metadata] hands on. *)
Definition passed_through : list string := ["status"; "copyright"; "date"; "pano_id"; "location"].

(** The words that start the error message of a handler. *)
Definition failure_prefix (name : string) : string :=
  if String.eqb name "get_street_view" then "Street View image fetch failed: "
  else if String.eqb name "get_metadata" then "Metadata fetch failed: "
  else if String.eqb name "create_html_page" then "HTML page creation failed: "
  else "Failed to list saved images: ".

(** The shapes of an answer: an object for a success; for an error the
    line of a schema, the line for an unknown tool, or an object whose only
    member is the message of the handler. *)
Definition envelope (name : string) (res : CallToolResult) : Prop :=
  if isError res then
    (∃ e, content res = ZodErrorLine e)
    ∨ content res = ErrorLine ("Unknown tool: " +:+ name)
    ∨ ∃ e, content res
           = Stringified (JObject [("error", JString (failure_prefix name +:+ message e))])
  else
    ∃ members, content res = Stringified (JObject members)
               ∧ (name = "get_street_view" ∨ name = "create_html_page"
                  → property (JObject members) "status" = Some (JString "success")).

(** The member [metadata] of the answer of [get_street_view] for a stored
    file with the bytes [c] that the codec reads as [md]. *)
Definition described (c : string) (md : Metadata) : json :=
  obj [("width", JNumber ∘ num <$> width md);
       ("height", JNumber ∘ num <$> height md);
       ("format", JString <$> format md);
       ("size", Some (JString (kilobytes (Z.of_nat (String.length c)))))].

(** * A sample world

    A process in the directory /srv with an API key, an upstream that answers
    every request, a codec that accepts every buffer, and three instants with
    their ISO renderings, compared by code units. *)
Definition sample_iso (t : Z) : string :=
  if t =? 1000 then "1970-01-01T00:00:01.000Z"
  else if t =? 2000 then "1970-01-01T00:00:02.000Z"
  else if t =? 3000 then "1970-01-01T00:00:03.000Z"
  else "1970-01-01T00:00:00.000Z".

Definition sample_env : environment :=
  mkEnvironment (Some "KEY") ["srv"] 1000
    (λ _ _, Ok (200, "bytes"))
    (λ _ _, Ok (200, JObject [("status", JString "OK")]))
    (λ buffer, Ok buffer)
    (λ _, Ok (mkMetadata (Some 600) (Some 400) (Some "jpeg")))
    (λ s, s)
    sample_iso
    String.compare.

(** The directory /srv and nothing else. *)
Definition sample_fs : gmap (list string) node := {[ ["srv"] := new_directory 0 ]}.

Definition sample_state : state := mkState sample_fs [].

(** /srv/output with three images, written at 1000, 2000 and 3000, a text
    file and an image that the codec cannot read. *)
Definition sample_gallery : gmap (list string) node :=
  <[ ["srv"; "output"; "b.PNG"] := File "bb" 2000 2000 ]>
  (<[ ["srv"; "output"; "a.jpg"] := File "a" 1000 1000 ]>
  (<[ ["srv"; "output"; "notes.txt"] := File "n" 2500 2500 ]>
  (<[ ["srv"; "output"; "c.jpeg"] := File "ccc" 1500 3000 ]>
  (<[ ["srv"; "output"] := new_directory 0 ]> sample_fs)))).



(** Requests to the sample world: a panorama saved under a name that is
    taken in the sample gallery, a page, a panorama looked up, coordinates
    that are no numbers. *)
Definition taken_name : gmap string json :=
  {[ "filename" := JString "a.jpg"; "pano_id" := JString "P1" ]}.

Definition taken_name_parsed : GetStreetViewArgs :=
  {| sv_filename := "a.jpg"; sv_location := None; sv_lat_lng := None; sv_pano_id := Some "P1";
     sv_size := "600x400"; sv_heading := num 0; sv_pitch := num 0; sv_fov := num 90;
     sv_radius := num 50; sv_source := "default" |}.

Definition tour : gmap string json :=
  {[ "filename" := JString "tour"; "html_elements" := JArray [JString "<h1>Rome</h1>"] ]}.

Definition tour_parsed : CreateHtmlPageArgs :=
  {| hp_filename := "tour"; hp_title := "Street View Tour"; hp_html_elements := ["<h1>Rome</h1>"] |}.

Definition nested_tour : gmap string json :=
  {[ "filename" := JString "pages/tour"; "html_elements" := JArray [JString "<h1>Rome</h1>"] ]}.

Definition nested_tour_parsed : CreateHtmlPageArgs :=
  {| hp_filename := "pages/tour"; hp_title := "Street View Tour";
     hp_html_elements := ["<h1>Rome</h1>"] |}.

Definition nested_tour_run : result js_error CallToolResult * state :=
  CallTool sample_env "create_html_page" (Some nested_tour) sample_state.

Definition coordinates_request : gmap string json :=
  {[ "filename" := JString "a.jpg"; "lat_lng" := JString "40.7,-74.0" ]}.

Definition coordinates_sent : gmap string json :=
  {[ "size" := JString "600x400"; "heading" := JNumber (num 0); "pitch" := JNumber (num 0);
     "fov" := JNumber (num 90); "radius" := JNumber (num 50); "source" := JString "default";
     "return_error_code" := JString "true"; "location" := JString "40.7,-74.0";
     "key" := JString "KEY" ]}.

Definition lookup_panorama : gmap string json := {[ "pano_id" := JString "P1" ]}.

Definition lookup_panorama_parsed : GetMetadataArgs :=
  {| md_location := None; md_lat_lng := None; md_pano_id := Some "P1";
     md_radius := num 50; md_source := "default" |}.

Definition lookup_panorama_run : result js_error CallToolResult * state :=
  CallTool sample_env "get_metadata" (Some lookup_panorama) sample_state.

Definition lookup_panorama_sent : gmap string json :=
  {[ "source" := JString "default"; "pano" := JString "P1"; "key" := JString "KEY" ]}.




(** More requests to the sample world, and a process without an API key. *)

Definition coordinates_parsed : GetStreetViewArgs :=
  {| sv_filename := "a.jpg"; sv_location := None; sv_lat_lng := Some "40.7,-74.0";
     sv_pano_id := None; sv_size := "600x400"; sv_heading := num 0; sv_pitch := num 0;
     sv_fov := num 90; sv_radius := num 50; sv_source := "default" |}.

Definition coordinates_run : result js_error CallToolResult * state :=
  CallTool sample_env "get_street_view" (Some coordinates_request) sample_state.

Definition tour_run : result js_error CallToolResult * state :=
  CallTool sample_env "create_html_page" (Some tour) sample_state.

(** The sample world of a process that was started without the API key. *)
Definition no_key_env : environment :=
  mkEnvironment None ["srv"] 1000
    (λ _ _, Ok (200, "bytes"))
    (λ _ _, Ok (200, JObject [("status", JString "OK")]))
    (λ buffer, Ok buffer)
    (λ _, Ok (mkMetadata (Some 600) (Some 400) (Some "jpeg")))
    (λ s, s)
    sample_iso
    String.compare.

Definition no_key_run : result js_error CallToolResult * state :=
  CallTool no_key_env "get_street_view" (Some coordinates_request) sample_state.

(** The output directory looked for, and created, in the sample world. *)
Definition output_ensured : result js_error () * state :=
  ensureDirectoryExists sample_env (OUTPUT_DIR sample_env) sample_state.

(** The sample gallery listed through the dispatcher. *)
Definition sample_listing_run : result js_error CallToolResult * state :=
  CallTool sample_env "list_saved_images" None (mkState sample_gallery []).

Definition sample_listing_answer : CallToolResult :=
  match sample_listing_run.1 with
  | Ok res => res
  | Err _ => mkResult (ErrorLine "") true
  end.

Definition lookup_panorama_answer : CallToolResult :=
  match lookup_panorama_run.1 with
  | Ok res => res
  | Err _ => mkResult (ErrorLine "") true
  end.

(** The answer to the request with coordinates in the sample world. *)
Definition coordinates_answer : CallToolResult :=
  match coordinates_run.1 with
  | Ok res => res
  | Err _ => mkResult (ErrorLine "") true
  end.

(** * Properties *)

(** ** Parsing *)

Lemma parse_Ok {A} (r : ParseReturn A) (a : A) : parse r = Ok a ↔ r = OK a.
Proof.
  destruct r as [[x|] [|i iss]]; unfold parse, OK; simpl; split; intros H;
    inversion H; subst; reflexivity.
Qed.

Lemma parse_Err {A} (r : ParseReturn A) :
  (∀ a, r ≠ OK a) → ∃ e, parse r = Err e.
Proof.
  intros H. destruct (parse r) as [a|e] eqn:E; [|eauto].
  apply parse_Ok in E. destruct (H _ E).
Qed.

Lemma refine_OK {A} (r : ParseReturn A) check msg (a : A) :
  refine r check msg = OK a → r = OK a ∧ check a = true.
Proof.
  unfold refine. destruct r as [[x|] iss]; simpl.
  - destruct (check x) eqn:E.
    + intros H. inversion H; subst. auto.
    + unfold OK. intros H. inversion H as [[H1 H2]]. destruct iss; discriminate.
  - unfold OK. intros H. inversion H.
Qed.

Lemma mkParse_OK {A} (v : option A) iss (a : A) :
  mkParse v iss = OK a → v = Some a ∧ iss = [].
Proof. unfold OK. intros H. inversion H. auto. Qed.

Lemma as_OK {A} (r : ParseReturn A) (a : A) :
  value r = Some a → issues r = [] → r = OK a.
Proof. destruct r; simpl; intros -> ->; reflexivity. Qed.

Ltac split_issues :=
  repeat match goal with
         | H : _ ++ _ = [] |- _ => apply app_eq_nil in H; destruct H
         end.

Ltac bind_value H x :=
  match type of H with
  | context [value ?r ≫= _] => destruct (value r) as [x|] eqn:?; simpl in H; [|discriminate H]
  end.

Lemma GetStreetViewShape_OK (o : gmap string json) (v : GetStreetViewArgs) :
  GetStreetViewShape (Some o) = OK v →
  z_string_min 1 "Filename cannot be empty" [Key "filename"] (o !! "filename") = OK (sv_filename v)
  ∧ optional z_string [Key "location"] (o !! "location") = OK (sv_location v)
  ∧ optional z_string [Key "lat_lng"] (o !! "lat_lng") = OK (sv_lat_lng v)
  ∧ optional z_string [Key "pano_id"] (o !! "pano_id") = OK (sv_pano_id v)
  ∧ optional_default (z_number_int_min_max 0 (Some 360)) (JNumber (num 0))
      [Key "heading"] (o !! "heading") = OK (sv_heading v)
  ∧ optional_default (z_number_int_min_max (-90) (Some 90)) (JNumber (num 0))
      [Key "pitch"] (o !! "pitch") = OK (sv_pitch v)
  ∧ optional_default (z_number_int_min_max 10 (Some 120)) (JNumber (num 90))
      [Key "fov"] (o !! "fov") = OK (sv_fov v)
  ∧ optional_default (z_number_int_min_max 1 None) (JNumber (num 50))
      [Key "radius"] (o !! "radius") = OK (sv_radius v).
Proof.
  unfold GetStreetViewShape. intros H. apply mkParse_OK in H as [Hv Hi].
  split_issues.
  bind_value Hv f. bind_value Hv l. bind_value Hv ll. bind_value Hv p.
  bind_value Hv sz. bind_value Hv h. bind_value Hv pi. bind_value Hv fv.
  bind_value Hv r. bind_value Hv src.
  inversion Hv; subst; simpl.
  repeat split; apply as_OK; assumption.
Qed.

Lemma GetMetadataShape_OK (o : gmap string json) (v : GetMetadataArgs) :
  GetMetadataShape (Some o) = OK v →
  optional z_string [Key "location"] (o !! "location") = OK (md_location v)
  ∧ optional z_string [Key "lat_lng"] (o !! "lat_lng") = OK (md_lat_lng v)
  ∧ optional z_string [Key "pano_id"] (o !! "pano_id") = OK (md_pano_id v)
  ∧ optional_default (z_number_int_min_max 1 None) (JNumber (num 50))
      [Key "radius"] (o !! "radius") = OK (md_radius v).
Proof.
  unfold GetMetadataShape. intros H. apply mkParse_OK in H as [Hv Hi].
  split_issues.
  bind_value Hv l. bind_value Hv ll. bind_value Hv p. bind_value Hv r. bind_value Hv src.
  inversion Hv; subst; simpl.
  repeat split; apply as_OK; assumption.
Qed.

(** What an accepted optional string was in the argument bag. *)
Lemma optional_string_OK path input (x : option string) :
  optional z_string path input = OK x → input = JString <$> x.
Proof.
  unfold optional, z_string, OK, INVALID.
  destruct input as [[]|]; simpl; intros H; inversion H; reflexivity.
Qed.

(** What an accepted number was, and the checks it passed. *)
Lemma number_OK lo hi d path input (n : number) :
  optional_default (z_number_int_min_max lo hi) d path input = OK n →
  default d input = JNumber n
  ∧ isInteger n = true
  ∧ lt_lit n lo = false
  ∧ match hi with Some h => gt_lit n h = false | None => True end.
Proof.
  assert (G : ∀ j, z_number_int_min_max lo hi path (Some j) = OK n →
              j = JNumber n ∧ isInteger n = true ∧ lt_lit n lo = false
              ∧ match hi with Some h => gt_lit n h = false | None => True end).
  { intros j. unfold z_number_int_min_max, DIRTY, INVALID, OK.
    destruct j; try (intros H; inversion H; fail).
    intros H. inversion H as [[H1 H2]]. subst. split_issues.
    repeat split.
    - destruct (isInteger n); [reflexivity | discriminate].
    - destruct (lt_lit n lo); [discriminate | reflexivity].
    - destruct hi; [|exact I]. destruct (gt_lit n z); [discriminate | reflexivity]. }
  unfold optional_default. destruct input as [j|]; simpl; apply G.
Qed.

Lemma supplied_Boolean path input (x : option string) :
  optional z_string path input = OK x → supplied input = Boolean x.
Proof.
  intros H. apply optional_string_OK in H. subst. destruct x; reflexivity.
Qed.

(** A request that [GetStreetViewSchema] accepts supplies one selector. *)
Lemma GetStreetViewSchema_selectors args v :
  parse (GetStreetViewSchema args) = Ok v → selector_count args = 1%nat.
Proof.
  intros H. apply parse_Ok in H. apply refine_OK in H as [H Hc].
  destruct args as [o|]; [|inversion H].
  apply GetStreetViewShape_OK in H as (_ & Hl & Hll & Hp & _).
  unfold selector_count, locationMethods in *. simpl in *.
  rewrite (supplied_Boolean _ _ _ Hl), (supplied_Boolean _ _ _ Hll), (supplied_Boolean _ _ _ Hp).
  apply Nat.eqb_eq in Hc. revert Hc.
  destruct (Boolean _), (Boolean _), (Boolean _); simpl; auto.
Qed.

Lemma GetMetadataSchema_selectors args v :
  parse (GetMetadataSchema args) = Ok v → selector_count args = 1%nat.
Proof.
  intros H. apply parse_Ok in H. apply refine_OK in H as [H Hc].
  destruct args as [o|]; [|inversion H].
  apply GetMetadataShape_OK in H as (Hl & Hll & Hp & _).
  unfold selector_count, locationMethods in *. simpl in *.
  rewrite (supplied_Boolean _ _ _ Hl), (supplied_Boolean _ _ _ Hll), (supplied_Boolean _ _ _ Hp).
  apply Nat.eqb_eq in Hc. revert Hc.
  destruct (Boolean _), (Boolean _), (Boolean _); simpl; auto.
Qed.

(** A call whose arguments the schema refuses answers with the [ZodError]
    and leaves the state, trace included, as it was. *)
Lemma get_street_view_refused env args st :
  (∀ v, parse (GetStreetViewSchema args) ≠ Ok v) →
  ∃ e, CallTool env "get_street_view" args st = (Ok (zod_failure e), st).
Proof.
  intros H. unfold CallTool. simpl.
  destruct (parse (GetStreetViewSchema args)) as [v|e]; [destruct (H v); reflexivity|].
  exists e. reflexivity.
Qed.

Lemma get_metadata_refused env args st :
  (∀ v, parse (GetMetadataSchema args) ≠ Ok v) →
  ∃ e, CallTool env "get_metadata" args st = (Ok (zod_failure e), st).
Proof.
  intros H. unfold CallTool. simpl.
  destruct (parse (GetMetadataSchema args)) as [v|e]; [destruct (H v); reflexivity|].
  exists e. reflexivity.
Qed.

(** ** A successful call

    The example of the spec: coordinates "40.7,-74.0" saved as a.jpg in the
    sample world.  The handler creates /srv/output, finds no a.jpg, asks
    upstream with a radius among the parameters, stores the JPEG and answers
    with the name, the path and the metadata of the stored file. *)
Example street_view_saved :
  let run := CallTool sample_env "get_street_view" (Some coordinates_request) sample_state in
  run.1 = Ok (success (obj [
    ("status", Some (JString "success"));
    ("message", Some (JString "Street View image saved successfully"));
    ("filename", Some (JString "a.jpg"));
    ("path", Some (JString "/srv/output/a.jpg"));
    ("metadata", Some (obj [
       ("width", Some (JNumber (num 600)));
       ("height", Some (JNumber (num 400)));
       ("format", Some (JString "jpeg"));
       ("size", Some (JString "0KB"))]));
    ("parameters", Some (obj [
       ("location", Some (JString "40.7,-74.0"));
       ("size", Some (JString "600x400"));
       ("heading", Some (JNumber (num 0)));
       ("pitch", Some (JNumber (num 0)));
       ("fov", Some (JNumber (num 90)));
       ("radius", Some (JNumber (num 50)));
       ("source", Some (JString "default"))]))]))
  ∧ files run.2 !! ["srv"; "output"; "a.jpg"] = Some (File "bytes" 1000 1000)
  ∧ trace run.2
    = [Access (OUTPUT_DIR sample_env); Mkdir (OUTPUT_DIR sample_env);
       Access (join_dir (OUTPUT_DIR sample_env) "a.jpg");
       Log info "Making API request";
       HttpGet BASE_URL coordinates_sent;
       Log info "API request successful";
       SharpToFile (join_dir (OUTPUT_DIR sample_env) "a.jpg");
       SharpMetadata (join_dir (OUTPUT_DIR sample_env) "a.jpg");
       Stat (join_dir (OUTPUT_DIR sample_env) "a.jpg")].
Proof. repeat split; vm_compute; reflexivity. Qed.

(** ** Location selectors *)

(** C1: a [get_street_view] or [get_metadata] request that supplies no
    location selector, or more than one, is answered with the validation
    error of the schema, and nothing has happened by then: the state of the
    world and the trace of actions (no network call, no file-system call)
    are unchanged. *)
Theorem selector_count_enforced env name args st :
  takes_location name →
  selector_count args ≠ 1%nat →
  ∃ e, CallTool env name args st = (Ok (zod_failure e), st).
Proof.
  intros [->| ->] Hn.
  - apply get_street_view_refused. intros v Hv.
    apply GetStreetViewSchema_selectors in Hv. contradiction.
  - apply get_metadata_refused. intros v Hv.
    apply GetMetadataSchema_selectors in Hv. contradiction.
Qed.

Lemma selector_count_enforced_witness :
  ∃ e, CallTool sample_env "get_metadata"
         (Some {[ "location" := JString "Rome"; "pano_id" := JString "P1" ]}) sample_state
       = (Ok (zod_failure e), sample_state).
Proof.
  apply selector_count_enforced.
  - right. reflexivity.
  - vm_compute. discriminate.
Defined.

(** ** Numeric members *)

Lemma lt_lit_below n z : below n z → lt_lit n z = true.
Proof.
  unfold lt_lit, compare_to, below. destruct n as [q|[]]; intros H.
  - assert (E : Qcompare q (inject_Z z) = Lt) by (apply Qlt_alt; exact H).
    rewrite E. reflexivity.
  - reflexivity.
  - discriminate.
Qed.

Lemma gt_lit_above n z : above n z → gt_lit n z = true.
Proof.
  unfold gt_lit, compare_to, above. destruct n as [q|[]]; intros H.
  - assert (E : Qcompare q (inject_Z z) = Gt) by (apply Qgt_alt; exact H).
    rewrite E. reflexivity.
  - discriminate.
  - reflexivity.
Qed.

Lemma isInteger_integral n : isInteger n = true → integral n.
Proof.
  destruct n as [q|b]; unfold isInteger, integral; [|discriminate].
  intros H. apply Pos.eqb_eq in H.
  exists (Qnum (Qred q)).
  rewrite <- (Qred_correct q) at 1.
  unfold Qeq. simpl. rewrite H. reflexivity.
Qed.

(** The number that the schema of a member sees, when the member is there. *)
Lemma number_OK_given lo hi d path n n' :
  optional_default (z_number_int_min_max lo hi) d path (Some (JNumber n)) = OK n' →
  isInteger n = true ∧ lt_lit n lo = false
  ∧ match hi with Some h => gt_lit n h = false | None => True end.
Proof.
  intros H. apply number_OK in H as (E & H). simpl in E. inversion E; subst. exact H.
Qed.

(** C3: a [get_street_view] request with a heading outside 0..360, a pitch
    outside -90..90, a field of view outside 10..120 or a radius below 1
    (each on its own) is answered with the validation error of the schema;
    the state and the trace are unchanged, so no network request was made. *)
Theorem out_of_range_rejected env o st :
  out_of_range o →
  ∃ e, CallTool env "get_street_view" (Some o) st = (Ok (zod_failure e), st).
Proof.
  intros Hout. apply get_street_view_refused. intros v Hv.
  apply parse_Ok in Hv. apply refine_OK in Hv as [Hv _].
  apply GetStreetViewShape_OK in Hv as (_ & _ & _ & _ & Hh & Hpi & Hfov & Hr).
  destruct Hout as [n E [Hn|Hn] | n E [Hn|Hn] | n E [Hn|Hn] | n E Hn];
    rewrite E in *;
    match goal with
    | H : optional_default _ _ _ (Some (JNumber n)) = OK _ |- _ =>
        apply number_OK_given in H as (_ & Hlo & Hhi)
    end;
    first [ apply lt_lit_below in Hn | apply gt_lit_above in Hn ]; congruence.
Qed.

Lemma out_of_range_rejected_witness :
  (∃ e, CallTool sample_env "get_street_view"
          (Some {[ "filename" := JString "a.jpg"; "pano_id" := JString "P1";
                   "heading" := JNumber (num 361) ]}) sample_state
        = (Ok (zod_failure e), sample_state))
  ∧ (∃ e, CallTool sample_env "get_street_view"
          (Some {[ "filename" := JString "a.jpg"; "pano_id" := JString "P1";
                   "pitch" := JNumber (num 91) ]}) sample_state
        = (Ok (zod_failure e), sample_state))
  ∧ (∃ e, CallTool sample_env "get_street_view"
          (Some {[ "filename" := JString "a.jpg"; "pano_id" := JString "P1";
                   "fov" := JNumber (num 5) ]}) sample_state
        = (Ok (zod_failure e), sample_state)).
Proof.
  repeat split; apply out_of_range_rejected.
  - apply (heading_out _ (num 361)); [reflexivity | right; reflexivity].
  - apply (pitch_out _ (num 91)); [reflexivity | right; reflexivity].
  - apply (fov_out _ (num 5)); [reflexivity | left; reflexivity].
Defined.

(** C9: a [get_street_view] request in which heading, pitch, fov or radius
    is a number that is not an integer, 90.5 say, is answered with the
    validation error of the schema, whether or not the number lies in the
    range of the member; the state and the trace are unchanged. *)
Theorem non_integer_rejected env o st k n :
  In k numeric_fields →
  o !! k = Some (JNumber n) →
  ¬ integral n →
  ∃ e, CallTool env "get_street_view" (Some o) st = (Ok (zod_failure e), st).
Proof.
  intros Hk E Hn. apply get_street_view_refused. intros v Hv.
  apply parse_Ok in Hv. apply refine_OK in Hv as [Hv _].
  apply GetStreetViewShape_OK in Hv as (_ & _ & _ & _ & Hh & Hpi & Hfov & Hr).
  apply Hn, isInteger_integral.
  unfold numeric_fields in Hk. simpl in Hk.
  destruct Hk as [<-|[<-|[<-|[<-|[]]]]]; rewrite E in *;
    match goal with
    | H : optional_default _ _ _ (Some (JNumber n)) = OK _ |- _ =>
        apply number_OK_given in H as (Hi & _)
    end; exact Hi.
Qed.

Lemma non_integer_rejected_witness :
  ∃ e, CallTool sample_env "get_street_view"
         (Some {[ "filename" := JString "a.jpg"; "pano_id" := JString "P1";
                  "heading" := JNumber (Fin (181 # 2)) ]}) sample_state
       = (Ok (zod_failure e), sample_state).
Proof.
  apply (non_integer_rejected _ _ _ "heading" (Fin (181 # 2))).
  - left. reflexivity.
  - reflexivity.
  - intros [z Hz]. unfold Qeq in Hz. simpl in Hz. lia.
Defined.

(** ** Empty selectors *)

Lemma optional_string_value path input (x : option string) :
  value (optional z_string path input) = Some x → input = JString <$> x.
Proof.
  unfold optional, z_string, OK, INVALID.
  destruct input as [[]|]; simpl; intros H; inversion H; reflexivity.
Qed.

Lemma GetStreetViewShape_value (o : gmap string json) (v : GetStreetViewArgs) :
  value (GetStreetViewShape (Some o)) = Some v →
  o !! "location" = JString <$> sv_location v
  ∧ o !! "lat_lng" = JString <$> sv_lat_lng v
  ∧ o !! "pano_id" = JString <$> sv_pano_id v.
Proof.
  unfold GetStreetViewShape. simpl. intros Hv.
  bind_value Hv f. bind_value Hv l. bind_value Hv ll. bind_value Hv p.
  bind_value Hv sz. bind_value Hv h. bind_value Hv pi. bind_value Hv fv.
  bind_value Hv r. bind_value Hv src.
  inversion Hv; subst; simpl.
  repeat split; eapply optional_string_value; eassumption.
Qed.

Lemma GetMetadataShape_value (o : gmap string json) (v : GetMetadataArgs) :
  value (GetMetadataShape (Some o)) = Some v →
  o !! "location" = JString <$> md_location v
  ∧ o !! "lat_lng" = JString <$> md_lat_lng v
  ∧ o !! "pano_id" = JString <$> md_pano_id v.
Proof.
  unfold GetMetadataShape. simpl. intros Hv.
  bind_value Hv l. bind_value Hv ll. bind_value Hv p. bind_value Hv r. bind_value Hv src.
  inversion Hv; subst; simpl.
  repeat split; eapply optional_string_value; eassumption.
Qed.

Lemma JString_fmap_inv (x : option string) (j : option json) :
  j = JString <$> x →
  match j with
  | None => x = None
  | Some (JString s) => x = Some s
  | Some _ => False
  end.
Proof. intros ->. destruct x; reflexivity. Qed.

(** The values of the three selectors under the two hypotheses of C8. *)
Lemma selectors_of_empty_location o (l ll p : option string) :
  empty_location_and_lat_lng o →
  o !! "location" = JString <$> l → o !! "lat_lng" = JString <$> ll →
  o !! "pano_id" = JString <$> p →
  locationMethods l ll p = 1%nat.
Proof.
  intros (Hl & (s & Hs & Hne) & Hp) El Ell Ep.
  apply JString_fmap_inv in El, Ell, Ep. rewrite Hl in El. rewrite Hs in Ell. rewrite Hp in Ep.
  subst. unfold locationMethods. simpl.
  destruct (String.eqb_spec s ""); [contradiction | reflexivity].
Qed.

Lemma selectors_of_only_empty o (l ll p : option string) :
  only_empty_selector o →
  o !! "location" = JString <$> l → o !! "lat_lng" = JString <$> ll →
  o !! "pano_id" = JString <$> p →
  locationMethods l ll p = 0%nat.
Proof.
  intros (k & Hk & Hempty & Hothers) El Ell Ep.
  apply JString_fmap_inv in El, Ell, Ep.
  unfold selector_keys in *. simpl in Hk.
  destruct Hk as [<-|[<-|[<-|[]]]]; rewrite Hempty in *; subst.
  - rewrite (Hothers "lat_lng") in Ell by (simpl; auto || discriminate).
    rewrite (Hothers "pano_id") in Ep by (simpl; auto || discriminate).
    subst. reflexivity.
  - rewrite (Hothers "location") in El by (simpl; auto || discriminate).
    rewrite (Hothers "pano_id") in Ep by (simpl; auto || discriminate).
    subst. reflexivity.
  - rewrite (Hothers "location") in El by (simpl; auto || discriminate).
    rewrite (Hothers "lat_lng") in Ell by (simpl; auto || discriminate).
    subst. reflexivity.
Qed.

Lemma refine_passes {A} (r : ParseReturn A) check msg :
  (∀ a, value r = Some a → check a = true) → refine r check msg = r.
Proof.
  intros H. unfold refine. destruct (value r) as [a|] eqn:E; [|reflexivity].
  rewrite (H a eq_refl). reflexivity.
Qed.

Lemma refine_fails {A} (r : ParseReturn A) check msg :
  (∀ a, value r = Some a → check a = false) →
  (∀ a, refine r check msg ≠ OK a)
  ∧ (∀ a, value r = Some a → In (mkIssue custom [] (Some msg)) (issues (refine r check msg))).
Proof.
  intros H. split.
  - intros a Ha. apply refine_OK in Ha as [-> Ha]. rewrite (H a eq_refl) in Ha. discriminate.
  - intros a Ha. unfold refine. rewrite Ha, (H a Ha). simpl.
    apply in_or_app. right. left. reflexivity.
Qed.

(** C8: in the exactly-one-selector check of [get_street_view] and
    [get_metadata] an empty string counts as absent.  A request with
    location "" and a non-empty lat_lng passes the check (the refinement
    adds nothing to what the members' schemas say); a request whose only
    selector is an empty string is refused, counted as having none: the
    schemas never accept it, and whenever the members themselves parse, the
    issue "Exactly one of location, lat_lng, or pano_id must be provided" is
    raised. *)
Theorem empty_selector_is_absent (o : gmap string json) :
  (empty_location_and_lat_lng o →
     GetStreetViewSchema (Some o) = GetStreetViewShape (Some o)
     ∧ GetMetadataSchema (Some o) = GetMetadataShape (Some o))
  ∧ (only_empty_selector o →
     (∀ v, parse (GetStreetViewSchema (Some o)) ≠ Ok v)
     ∧ (∀ v, parse (GetMetadataSchema (Some o)) ≠ Ok v)
     ∧ (∀ d, value (GetStreetViewShape (Some o)) = Some d →
             In exactly_one_issue (issues (GetStreetViewSchema (Some o))))
     ∧ (∀ d, value (GetMetadataShape (Some o)) = Some d →
             In exactly_one_issue (issues (GetMetadataSchema (Some o))))).
Proof.
  split.
  - intros H. split; apply refine_passes; intros d Hd.
    + apply GetStreetViewShape_value in Hd as (El & Ell & Ep).
      rewrite (selectors_of_empty_location o _ _ _ H El Ell Ep). reflexivity.
    + apply GetMetadataShape_value in Hd as (El & Ell & Ep).
      rewrite (selectors_of_empty_location o _ _ _ H El Ell Ep). reflexivity.
  - intros H.
    assert (S : ∀ d, value (GetStreetViewShape (Some o)) = Some d →
                Nat.eqb (locationMethods (sv_location d) (sv_lat_lng d) (sv_pano_id d)) 1 = false).
    { intros d Hd. apply GetStreetViewShape_value in Hd as (El & Ell & Ep).
      rewrite (selectors_of_only_empty o _ _ _ H El Ell Ep). reflexivity. }
    assert (T : ∀ d, value (GetMetadataShape (Some o)) = Some d →
                Nat.eqb (locationMethods (md_location d) (md_lat_lng d) (md_pano_id d)) 1 = false).
    { intros d Hd. apply GetMetadataShape_value in Hd as (El & Ell & Ep).
      rewrite (selectors_of_only_empty o _ _ _ H El Ell Ep). reflexivity. }
    apply (refine_fails _ _ exactly_one_message) in S as [S1 S2].
    apply (refine_fails _ _ exactly_one_message) in T as [T1 T2].
    repeat split.
    + intros v Hv. apply parse_Ok in Hv. exact (S1 v Hv).
    + intros v Hv. apply parse_Ok in Hv. exact (T1 v Hv).
    + exact S2.
    + exact T2.
Qed.

Lemma empty_selector_is_absent_witness :
  (GetMetadataSchema (Some {[ "location" := JString ""; "lat_lng" := JString "40.7,-74.0" ]})
   = GetMetadataShape (Some {[ "location" := JString ""; "lat_lng" := JString "40.7,-74.0" ]}))
  ∧ (∀ v, parse (GetMetadataSchema (Some {[ "location" := JString "" ]})) ≠ Ok v).
Proof.
  split.
  - apply (empty_selector_is_absent {[ "location" := JString ""; "lat_lng" := JString "40.7,-74.0" ]}).
    split; [reflexivity | split; [|reflexivity]].
    exists "40.7,-74.0". split; [reflexivity | discriminate].
  - apply (empty_selector_is_absent {[ "location" := JString "" ]}).
    exists "location". split; [left; reflexivity | split; [reflexivity|]].
    + intros k' Hk' Hne. simpl in Hk'.
      destruct Hk' as [<-|[<-|[<-|[]]]]; [contradiction | reflexivity | reflexivity].
Defined.

(** ** The name of a gallery page *)

Lemma endsWith_has_suffix s suffix : endsWith s suffix = true ↔ has_suffix s suffix.
Proof.
  unfold has_suffix. induction s as [|a s IH]; cbn [endsWith].
  - rewrite orb_false_r. split.
    + intros H. apply String.eqb_eq in H. subst. exists "". reflexivity.
    + intros [stem H]. destruct stem; simpl in H; [|discriminate].
      apply String.eqb_eq. exact H.
  - rewrite orb_true_iff, IH. split.
    + intros [H|[stem H]].
      * apply String.eqb_eq in H. exists "". simpl. exact H.
      * exists (String a stem). simpl. rewrite H. reflexivity.
    + intros [[|b stem] H]; simpl in H.
      * left. apply String.eqb_eq. exact H.
      * right. inversion H. exists stem. reflexivity.
Qed.

(** C10: [create_html_page] keeps a file name that ends in exactly ".html"
    and appends ".html" to every other name; the test compares characters
    as they are, so a name ending in ".HTML" gets the extension too. *)
Theorem html_extension_case_sensitive (f : string) :
  (has_suffix f ".html" → htmlFilename f = f)
  ∧ (¬ has_suffix f ".html" → htmlFilename f = f +:+ ".html").
Proof.
  unfold htmlFilename. split; intros H.
  - apply endsWith_has_suffix in H. rewrite H. reflexivity.
  - destruct (endsWith f ".html") eqn:E; [|reflexivity].
    apply endsWith_has_suffix in E. contradiction.
Qed.

Lemma html_extension_case_sensitive_witness :
  htmlFilename "tour.html" = "tour.html" ∧ htmlFilename "foo.HTML" = "foo.HTML.html".
Proof.
  split.
  - apply (html_extension_case_sensitive "tour.html"). exists "tour". reflexivity.
  - apply (html_extension_case_sensitive "foo.HTML").
    intros H. apply endsWith_has_suffix in H. discriminate H.
Defined.

(** ** Running the monad *)

Lemma bind_Ok {A B} (m : M A) (f : A → M B) st (b : B) st' :
  (m ≫= f) st = (Ok b, st') →
  ∃ a st1, m st = (Ok a, st1) ∧ f a st1 = (Ok b, st').
Proof.
  unfold mbind, M_bind. destruct (m st) as [[a|e] st1]; intros H.
  - eauto.
  - inversion H.
Qed.

Lemma bind_run {A B} (m : M A) (f : A → M B) st r st' :
  (m ≫= f) st = (r, st') →
  (∃ a st1, m st = (Ok a, st1) ∧ f a st1 = (r, st'))
  ∨ (∃ e, m st = (Err e, st') ∧ r = Err e).
Proof.
  unfold mbind, M_bind. destruct (m st) as [[a|e] st1]; intros H.
  - left. eauto.
  - right. inversion H; subst. eauto.
Qed.

Lemma try_catch_run {A} (m : M A) h st (r : result js_error A) st' :
  try_catch m h st = (r, st') →
  (∃ a, m st = (Ok a, st') ∧ r = Ok a)
  ∨ (∃ e st1, m st = (Err e, st1) ∧ h e st1 = (r, st')).
Proof.
  unfold try_catch. destruct (m st) as [[a|e] st1]; intros H.
  - left. inversion H; subst. eauto.
  - right. eauto.
Qed.

(** ** The order of the listing *)

Section Sorting.

Context {A : Type} (cmp : A → A → comparison) (t : A → Z).

Lemma insert_by_Permutation x l : Permutation (insert_by cmp x l) (x :: l).
Proof.
  induction l as [|y l IH]; simpl; [reflexivity|].
  destruct (cmp x y); try reflexivity.
  rewrite IH. apply perm_swap.
Qed.

Lemma sort_Permutation l : Permutation (sort cmp l) l.
Proof.
  induction l as [|x l IH]; simpl; [reflexivity|].
  rewrite insert_by_Permutation, IH. reflexivity.
Qed.



End Sorting.

#[local] Instance latest_first_antisymm : AntiSymm (=) latest_first.
Proof. unfold latest_first. intros t u H1 H2. lia. Qed.


Lemma fs_stat_run p st (s : Stats) st' :
  fs_stat p st = (Ok s, st') →
  files st' = files st ∧ ∃ n, resolve "stat" (files st) p = Ok n ∧ s = stats_of n.
Proof.
  unfold fs_stat, emit, read_fs, mbind, M_bind, mret, M_ret. simpl.
  destruct (resolve "stat" (files st) p) as [n|e]; intros H; inversion H; subst.
  simpl. eauto.
Qed.

Lemma sharp_metadata_files env p st r st' :
  sharp_metadata env p st = (r, st') → files st' = files st.
Proof.
  unfold sharp_metadata, emit, read_fs, mbind, M_bind. simpl.
  intros H. inversion H; subst. reflexivity.
Qed.

Lemma image_info_run env file st i st' :
  image_info env file st = (Ok i, st') →
  files st' = files st
  ∧ filename i = file
  ∧ modified i = toISOString env (modification_time env (files st) i).
Proof.
  unfold image_info. intros H.
  apply bind_Ok in H as (stats & st1 & Hstat & H).
  apply fs_stat_run in Hstat as (Hf1 & n & Hn & ->).
  assert (G : ∀ j : ImageInfo,
            filename j = file → modified j = toISOString env (stat_mtime (stats_of n)) →
            modified j = toISOString env (modification_time env (files st) j)).
  { intros j Hj ->. unfold modification_time. rewrite Hj, Hn. reflexivity. }
  apply try_catch_run in H as [(a & H & E) | (e & st2 & H & Hh)].
  - apply bind_Ok in H as (m & st2 & Hm & H).
    apply sharp_metadata_files in Hm.
    unfold mret, M_ret in H. simplify_eq.
    split; [congruence|]. split; [reflexivity|]. apply G; reflexivity.
  - apply bind_run in H as [(m & st3 & Hm & H) | (e' & Hm & _)].
    + unfold mret, M_ret in H. inversion H.
    + apply sharp_metadata_files in Hm.
      unfold mret, M_ret in Hh. simplify_eq.
      split; [congruence|]. split; [reflexivity|]. apply G; reflexivity.
Qed.

Lemma mapM_image_info env names st infos st' :
  mapM (image_info env) names st = (Ok infos, st') →
  files st' = files st
  ∧ filename <$> infos = names
  ∧ Forall (λ i, modified i = toISOString env (modification_time env (files st) i)) infos.
Proof.
  revert st infos. induction names as [|file names IH]; intros st infos; simpl.
  - unfold mret, M_ret. intros H. inversion H; subst. auto.
  - intros H. apply bind_Ok in H as (i & st1 & Hi & H).
    apply bind_Ok in H as (k & st2 & Hk & H).
    unfold mret, M_ret in H. inversion H; subst.
    apply image_info_run in Hi as (Hf & Hn & Hm).
    apply IH in Hk as (Hf' & Hn' & Hm').
    rewrite Hf in Hf', Hm'. split; [assumption|].
    split; [rewrite fmap_cons; congruence|].
    constructor; assumption.
Qed.

Lemma fs_readdir_run p st names st' :
  fs_readdir p st = (Ok names, st') →
  files st' = files st ∧ read_directory (files st) p = Ok names.
Proof.
  unfold fs_readdir, emit, read_fs, mbind, M_bind. simpl.
  intros H. inversion H; subst. auto.
Qed.

Lemma read_directory_entries fs p names :
  read_directory fs p = Ok names → names = entries fs (segments p).
Proof.
  unfold read_directory. destruct (resolve "scandir" fs p) as [[]|]; intros H; inversion H.
  reflexivity.
Qed.

(** What [saved_images] returns: the entries of the image files of the
    output directory, each carrying the ISO rendering of its file's
    modification time, sorted by the comparator of the handler. *)
Lemma saved_images_run env st images st' :
  saved_images env st = (Ok images, st') →
  ∃ infos,
    images = sort (most_recent_first env) infos
    ∧ filename <$> infos
      = List.filter is_image_file (entries (files st') (segments (OUTPUT_DIR env)))
    ∧ Forall (λ i, modified i = toISOString env (modification_time env (files st') i)) infos.
Proof.
  unfold saved_images. intros H.
  apply bind_Ok in H as ([] & st1 & _ & H).
  apply bind_Ok in H as (names & st2 & Hr & H).
  apply bind_Ok in H as (infos & st3 & Hm & H).
  unfold mret, M_ret in H. inversion H; subst.
  apply fs_readdir_run in Hr as (Hf2 & Hr). apply read_directory_entries in Hr.
  apply mapM_image_info in Hm as (Hf3 & Hn & Hm).
  exists infos. rewrite Hf3. rewrite Hf2 in *. subst names.
  split; [reflexivity|]. split; assumption.
Qed.



(** ** What a computation adds to the trace *)

Section Adds.

Context (P : event → Prop).

Lemma adds_nothing {A} (m : M A) :
  (∀ st r st', m st = (r, st') → trace st' = trace st) → adds P m.
Proof.
  intros H st r st' E. exists []. rewrite app_nil_r. split; [eapply H; exact E | constructor].
Qed.

Lemma adds_ret {A} (a : A) : adds P (mret a).
Proof. apply adds_nothing. intros st r st' E. inversion E. reflexivity. Qed.

Lemma adds_throw {A} e : adds P (@throw A e).
Proof. apply adds_nothing. intros st r st' E. inversion E. reflexivity. Qed.

Lemma adds_from_result {A} (x : result js_error A) : adds P (from_result x).
Proof. apply adds_nothing. intros st r st' E. inversion E. reflexivity. Qed.

Lemma adds_read_fs {A} (f : filesystem → result js_error A) : adds P (read_fs f).
Proof. apply adds_nothing. intros st r st' E. inversion E. reflexivity. Qed.

Lemma adds_update_fs f : adds P (update_fs f).
Proof.
  apply adds_nothing. unfold update_fs. intros st r st' E.
  destruct (f (files st)); inversion E; reflexivity.
Qed.

Lemma adds_emit e : P e → adds P (emit e).
Proof.
  intros H st r st' E. inversion E. exists [e]. split; [reflexivity | repeat constructor; exact H].
Qed.

Lemma adds_bind {A B} (m : M A) (f : A → M B) :
  adds P m → (∀ a st st1, m st = (Ok a, st1) → adds P (f a)) → adds P (m ≫= f).
Proof.
  intros Hm Hf st r st' E.
  apply bind_run in E as [(a & st1 & E1 & E2) | (e & E1 & _)].
  - destruct (Hm _ _ _ E1) as (evs1 & T1 & F1).
    destruct (Hf _ _ _ E1 _ _ _ E2) as (evs2 & T2 & F2).
    exists (evs1 ++ evs2). rewrite T2, T1, <- app_assoc. split; [reflexivity|].
    apply Forall_app. auto.
  - exact (Hm _ _ _ E1).
Qed.

Lemma adds_try_catch {A} (m : M A) h :
  adds P m → (∀ e, adds P (h e)) → adds P (try_catch m h).
Proof.
  intros Hm Hh st r st' E.
  apply try_catch_run in E as [(a & E1 & _) | (e & st1 & E1 & E2)].
  - exact (Hm _ _ _ E1).
  - destruct (Hm _ _ _ E1) as (evs1 & T1 & F1).
    destruct (Hh _ _ _ _ E2) as (evs2 & T2 & F2).
    exists (evs1 ++ evs2). rewrite T2, T1, <- app_assoc. split; [reflexivity|].
    apply Forall_app. auto.
Qed.

End Adds.

Ltac adds_steps :=
  repeat first
    [ apply adds_ret | apply adds_throw | apply adds_from_result | apply adds_read_fs
    | apply adds_update_fs
    | apply adds_emit
    | apply adds_try_catch; [|intros ?]
    | apply adds_bind; [|intros ? ? ? _]
    | match goal with
      | |- adds _ (if ?b then _ else _) => destruct b
      | |- adds _ (match ?x with _ => _ end) => destruct x
      | |- adds _ (let _ := _ in _) => cbv zeta
      end ].

Section AddsOfTheServer.

Context (env : environment) (P : event → Prop).

Lemma adds_ensureDirectoryExists dir :
  P (Access dir) → P (Mkdir dir) → adds P (ensureDirectoryExists env dir).
Proof. intros H1 H2. unfold ensureDirectoryExists. adds_steps; assumption. Qed.

Lemma adds_must_not_exist p msg : P (Access p) → adds P (must_not_exist p msg).
Proof. intros H. unfold must_not_exist. adds_steps; assumption. Qed.

Lemma adds_set_location l ll p params : adds P (set_location env l ll p params).
Proof. unfold set_location. adds_steps. Qed.

Lemma adds_request_failed what during e :
  (∀ l s, P (Log l s)) → adds P (request_failed what during e).
Proof. intros H. unfold request_failed. adds_steps; apply H. Qed.

Lemma adds_makeApiRequest url params :
  (∀ l s, P (Log l s)) →
  P (HttpGet url (with_key params (default "" (GOOGLE_API_KEY env)))) →
  adds P (makeApiRequest env url params).
Proof.
  intros Hl Hr. unfold makeApiRequest, request_failed. adds_steps; first [apply Hl | exact Hr].
Qed.

Lemma adds_makeMetadataRequest url params :
  (∀ l s, P (Log l s)) →
  P (HttpGet url (with_key params (default "" (GOOGLE_API_KEY env)))) →
  adds P (makeMetadataRequest env url params).
Proof.
  intros Hl Hr. unfold makeMetadataRequest, request_failed.
  adds_steps; first [apply Hl | exact Hr].
Qed.

Lemma adds_sharp_jpeg_toFile buffer p : P (SharpToFile p) → adds P (sharp_jpeg_toFile env buffer p).
Proof. intros H. unfold sharp_jpeg_toFile. adds_steps; exact H. Qed.

Lemma adds_sharp_metadata p : P (SharpMetadata p) → adds P (sharp_metadata env p).
Proof. intros H. unfold sharp_metadata. adds_steps. exact H. Qed.

Lemma adds_fs_stat p : P (Stat p) → adds P (fs_stat p).
Proof. intros H. unfold fs_stat. adds_steps. exact H. Qed.

End AddsOfTheServer.

Lemma adds_new {A} P (m : M A) st r st' evs :
  adds P m → m st = (r, st') → trace st' = trace st ++ evs → Forall P evs.
Proof.
  intros H E T. destruct (H _ _ _ E) as (evs' & T' & F).
  rewrite T in T'. apply app_inv_head in T'. subst. exact F.
Qed.

Lemma set_location_Ok env l ll p params st ps st' :
  set_location env l ll p params st = (Ok ps, st') →
  match reference l ll p with
  | Some (Address s) => ps = <["location" := JString s]> params
  | Some (Coordinates s) => ∃ loc, ps = <["location" := JString loc]> params
  | Some (Panorama id) => ps = delete "radius" (<["pano" := JString id]> params)
  | None => ps = params
  end.
Proof.
  unfold set_location, reference.
  destruct (truthy l) as [s|]; [intros H; inversion H; reflexivity|].
  destruct (truthy ll) as [s|].
  - unfold from_result, mbind, M_bind, mret, M_ret.
    destruct (parseLatLng s) as [[lat lng]|e]; intros H; inversion H. eauto.
  - destruct (truthy p) as [s|]; intros H; inversion H; reflexivity.
Qed.


Lemma radius_rule_street_view env v ps :
  match reference (sv_location v) (sv_lat_lng v) (sv_pano_id v) with
  | Some (Address s) => ps = <["location" := JString s]> (street_view_params v)
  | Some (Coordinates s) => ∃ loc, ps = <["location" := JString loc]> (street_view_params v)
  | Some (Panorama id) => ps = delete "radius" (<["pano" := JString id]> (street_view_params v))
  | None => ps = street_view_params v
  end →
  radius_rule (reference (sv_location v) (sv_lat_lng v) (sv_pano_id v)) (sv_radius v)
    (with_key ps (default "" (GOOGLE_API_KEY env))).
Proof.
  unfold radius_rule, with_key, street_view_params.
  destruct (reference _ _ _) as [[s|s|id]|]; [intros -> | intros [loc ->] | intros -> | auto];
    split; simplify_map_eq; reflexivity.
Qed.

Lemma radius_rule_metadata env v ps :
  match reference (md_location v) (md_lat_lng v) (md_pano_id v) with
  | Some (Address s) => ps = <["location" := JString s]> (metadata_params v)
  | Some (Coordinates s) => ∃ loc, ps = <["location" := JString loc]> (metadata_params v)
  | Some (Panorama id) => ps = delete "radius" (<["pano" := JString id]> (metadata_params v))
  | None => ps = metadata_params v
  end →
  radius_rule (reference (md_location v) (md_lat_lng v) (md_pano_id v)) (md_radius v)
    (with_key ps (default "" (GOOGLE_API_KEY env))).
Proof.
  unfold radius_rule, with_key, metadata_params.
  destruct (reference _ _ _) as [[s|s|id]|]; [intros -> | intros [loc ->] | intros -> | auto];
    split; simplify_map_eq; reflexivity.
Qed.

Lemma get_street_view_requests env v :
  adds (obeys (reference (sv_location v) (sv_lat_lng v) (sv_pano_id v)) (sv_radius v))
       (get_street_view env v).
Proof.
  unfold get_street_view, get_street_view_try.
  apply adds_try_catch; [|intros e; apply adds_ret].
  apply adds_bind; [|intros; apply adds_ret].
  apply adds_bind; [apply adds_ensureDirectoryExists; intros ? ? [=] | intros ? ? ? _].
  cbv zeta.
  apply adds_bind; [apply adds_must_not_exist; intros ? ? [=] | intros ? ? ? _].
  apply adds_bind; [apply adds_set_location | intros ps ? ? Hps].
  apply set_location_Ok in Hps.
  apply adds_bind; [apply adds_makeApiRequest | intros ? ? ? _].
  - intros l s ? ? [=].
  - intros url params [= <- <-]. apply radius_rule_street_view. exact Hps.
  - apply adds_bind; [apply adds_sharp_jpeg_toFile; intros ? ? [=] | intros ? ? ? _].
    apply adds_bind; [apply adds_sharp_metadata; intros ? ? [=] | intros ? ? ? _].
    apply adds_bind; [apply adds_fs_stat; intros ? ? [=] | intros ? ? ? _].
    apply adds_ret.
Qed.

Lemma get_metadata_requests env v :
  adds (obeys (reference (md_location v) (md_lat_lng v) (md_pano_id v)) (md_radius v))
       (get_metadata env v).
Proof.
  unfold get_metadata, get_metadata_try.
  apply adds_try_catch; [|intros e; apply adds_ret].
  apply adds_bind; [|intros; apply adds_ret].
  apply adds_bind; [apply adds_set_location | intros ps ? ? Hps].
  apply set_location_Ok in Hps.
  apply adds_bind; [apply adds_makeMetadataRequest | intros; apply adds_from_result].
  - intros l s ? ? [=].
  - intros url params [= <- <-]. apply radius_rule_metadata. exact Hps.
Qed.

Lemma default_radius_used lo hi path (o : gmap string json) n :
  optional_default (z_number_int_min_max lo hi) (JNumber default_radius) path (o !! "radius") = OK n →
  o !! "radius" = None → n = default_radius.
Proof.
  intros H E. rewrite E in H. apply number_OK in H as [H _]. simpl in H. congruence.
Qed.

(** ** Files are written once *)

Lemma reads_only_ret {A} (a : A) : reads_only (mret a).
Proof. intros st r st' E. inversion E. reflexivity. Qed.

Lemma reads_only_throw {A} e : reads_only (@throw A e).
Proof. intros st r st' E. inversion E. reflexivity. Qed.

Lemma reads_only_from_result {A} (x : result js_error A) : reads_only (from_result x).
Proof. intros st r st' E. inversion E. reflexivity. Qed.

Lemma reads_only_read_fs {A} (f : filesystem → result js_error A) : reads_only (read_fs f).
Proof. intros st r st' E. inversion E. reflexivity. Qed.

Lemma reads_only_emit e : reads_only (emit e).
Proof. intros st r st' E. inversion E. reflexivity. Qed.

Lemma reads_only_bind {A B} (m : M A) (f : A → M B) :
  reads_only m → (∀ a, reads_only (f a)) → reads_only (m ≫= f).
Proof.
  intros Hm Hf st r st' E.
  apply bind_run in E as [(a & st1 & E1 & E2) | (e & E1 & _)].
  - rewrite (Hf _ _ _ _ E2). exact (Hm _ _ _ E1).
  - exact (Hm _ _ _ E1).
Qed.

Lemma reads_only_try_catch {A} (m : M A) h :
  reads_only m → (∀ e, reads_only (h e)) → reads_only (try_catch m h).
Proof.
  intros Hm Hh st r st' E.
  apply try_catch_run in E as [(a & E1 & _) | (e & st1 & E1 & E2)].
  - exact (Hm _ _ _ E1).
  - rewrite (Hh _ _ _ _ E2). exact (Hm _ _ _ E1).
Qed.

Ltac reads_only_steps :=
  repeat first
    [ apply reads_only_ret | apply reads_only_throw | apply reads_only_from_result
    | apply reads_only_read_fs | apply reads_only_emit
    | apply reads_only_try_catch; [|intros ?]
    | apply reads_only_bind; [|intros ?]
    | match goal with
      | |- reads_only (if ?b then _ else _) => destruct b
      | |- reads_only (match ?x with _ => _ end) => destruct x
      | |- reads_only (let _ := _ in _) => cbv zeta
      end ].

Lemma reads_only_set_location env l ll p params : reads_only (set_location env l ll p params).
Proof. unfold set_location. reads_only_steps. Qed.

Lemma reads_only_makeApiRequest env url params : reads_only (makeApiRequest env url params).
Proof. unfold makeApiRequest, request_failed, log. reads_only_steps. Qed.

Lemma reads_only_sharp_metadata env p : reads_only (sharp_metadata env p).
Proof. unfold sharp_metadata. reads_only_steps. Qed.

Lemma reads_only_fs_stat p : reads_only (fs_stat p).
Proof. unfold fs_stat. reads_only_steps. Qed.

Lemma mkdir_from_keeps now p fs cur rest fs' :
  mkdir_from now p fs cur rest = Ok fs' → keeps_files fs fs'.
Proof.
  revert fs cur. induction rest as [|s rest IH]; intros fs cur; simpl.
  - intros [= ->] k c b m H. exact H.
  - destruct (fs !! (cur ++ [s])) as [[d|c0 b0 m0]|] eqn:E; [apply IH | discriminate |].
    intros H k c b m Hk. apply (IH _ _ H).
    rewrite lookup_insert_ne; [exact Hk|]. intros <-. rewrite E in Hk. discriminate Hk.
Qed.

Lemma ensureDirectoryExists_keeps env dir st r st' :
  ensureDirectoryExists env dir st = (r, st') → keeps_files (files st) (files st').
Proof.
  unfold ensureDirectoryExists, fs_access, fs_mkdir, try_catch, emit, read_fs, update_fs,
    mbind, M_bind, mret, M_ret. cbn [files trace].
  destruct (resolve "access" (files st) dir) as [n|e].
  - intros [= <- <-] k c b m H. exact H.
  - cbn [files trace]. unfold mkdir_recursive.
    destruct (has_nul dir); [intros [= <- <-] k c b m H; exact H|].
    destruct (mkdir_from _ _ _ _ _) as [fs'|e'] eqn:E; intros [= <- <-]; cbn [files].
    + eapply mkdir_from_keeps. exact E.
    + intros k c b m H. exact H.
Qed.

(** When the existence check lets the handler go on, there is nothing at
    the path. *)
Lemma must_not_exist_Ok p msg st st' :
  must_not_exist p msg st = (Ok tt, st') →
  files st' = files st ∧ has_nul p = false ∧ files st !! segments p = None.
Proof.
  unfold must_not_exist, fs_access, try_catch, emit, read_fs, throw, mbind, M_bind, mret, M_ret.
  cbn [files trace]. unfold resolve.
  destruct (has_nul p); [cbn [code]; intros [=]|].
  destruct (file_on_the_way _ _ _); [cbn [code]; intros [=]|].
  destruct (segments p) as [|s segs]; cbn [node_at].
  - destruct (default _ _); [|destruct (trailingSep p)]; cbn [code]; intros [=].
  - destruct (files st !! (s :: segs)) as [[d|c b m]|]; [| destruct (trailingSep p) |];
      cbn [code]; intros [=]. subst. auto.
Qed.

Lemma must_not_exist_files p msg st r st' :
  must_not_exist p msg st = (r, st') → files st' = files st.
Proof.
  revert st r st'. change (reads_only (must_not_exist p msg)).
  unfold must_not_exist, fs_access. reads_only_steps.
Qed.

Lemma write_file_absent syscall now fs p data fs' :
  fs !! segments p = None → write_file syscall now fs p data = Ok fs' → keeps_files fs fs'.
Proof.
  unfold write_file. intros Hn.
  destruct (has_nul p); [discriminate|]. destruct (trailingSep p); [discriminate|].
  destruct (file_on_the_way _ _ _); [discriminate|].
  destruct (segments p) as [|s segs] eqn:Es; [discriminate|].
  destruct (node_at fs (removelast (s :: segs))) as [[d|c b m]|]; try discriminate.
  rewrite Hn. intros [= <-] k c b m Hk.
  rewrite lookup_insert_ne; [exact Hk|]. intros <-. rewrite Hn in Hk. discriminate Hk.
Qed.

Lemma sharp_jpeg_toFile_absent env buffer p st r st' :
  files st !! segments p = None →
  sharp_jpeg_toFile env buffer p st = (r, st') → keeps_files (files st) (files st').
Proof.
  intros Hn. unfold sharp_jpeg_toFile, emit, update_fs, throw, mbind, M_bind. cbn [files trace].
  destruct (jpeg env buffer) as [encoded|msg].
  - destruct (write_file _ _ _ _ _) as [fs'|e] eqn:E; intros [= <- <-]; cbn [files].
    + eapply write_file_absent; eassumption.
    + intros k c b m H. exact H.
  - intros [= <- <-] k c b m H. exact H.
Qed.

Lemma get_street_view_keeps env v st r st' :
  get_street_view env v st = (r, st') → keeps_files (files st) (files st').
Proof.
  unfold get_street_view. intros E.
  assert (G : ∀ r st', get_street_view_try env v st = (r, st') →
              keeps_files (files st) (files st')).
  { clear. intros r st' E. unfold get_street_view_try in E.
    apply bind_run in E as [([] & st1 & E1 & E) | (e & E1 & _)];
      [|eapply ensureDirectoryExists_keeps; exact E1].
    apply ensureDirectoryExists_keeps in E1. cbv zeta in E.
    apply bind_run in E as [([] & st2 & E2 & E) | (e & E2 & _)];
      [|apply must_not_exist_files in E2; rewrite E2; exact E1].
    apply must_not_exist_Ok in E2 as (F2 & _ & Habsent). rewrite <- F2 in *.
    apply bind_run in E as [(ps & st3 & E3 & E) | (e & E3 & _)];
      [|apply reads_only_set_location in E3; rewrite E3; exact E1].
    apply reads_only_set_location in E3. rewrite <- E3 in *.
    apply bind_run in E as [(buffer & st4 & E4 & E) | (e & E4 & _)];
      [|apply reads_only_makeApiRequest in E4; rewrite E4; exact E1].
    apply reads_only_makeApiRequest in E4. rewrite <- E4 in *.
    assert (K : ∀ r5 st5, sharp_jpeg_toFile env buffer
                  (join_dir (OUTPUT_DIR env) (sv_filename v)) st4 = (r5, st5) →
                keeps_files (files st) (files st5)).
    { intros r5 st5 E5. apply (sharp_jpeg_toFile_absent _ _ _ _ _ _ Habsent) in E5.
      intros k c b m Hk. apply E5, E1, Hk. }
    apply bind_run in E as [([] & st5 & E5 & E) | (e & E5 & _)]; [|eapply K; exact E5].
    apply K in E5.
    apply bind_run in E as [(md & st6 & E6 & E) | (e & E6 & _)];
      [|apply reads_only_sharp_metadata in E6; rewrite E6; exact E5].
    apply reads_only_sharp_metadata in E6. rewrite <- E6 in *.
    apply bind_run in E as [(stats & st7 & E7 & E) | (e & E7 & _)];
      [|apply reads_only_fs_stat in E7; rewrite E7; exact E5].
    apply reads_only_fs_stat in E7. rewrite <- E7 in *.
    inversion E; subst. exact E5. }
  apply try_catch_run in E as [(a & E & _) | (e & st1 & E1 & E)].
  - apply bind_run in E as [(j & st1 & E1 & E) | (e & E1 & _)].
    + inversion E; subst. eapply G. exact E1.
    + eapply G. exact E1.
  - inversion E; subst.
    apply bind_run in E1 as [(j & st2 & E1 & E2) | (e' & E1 & _)].
    + inversion E2.
    + eapply G. exact E1.
Qed.

(** C2: [get_street_view] never overwrites.  When the file that a request
    names is there already (and so is the output directory), the call
    answers with the conflict error "File ... already exists in output
    directory"; up to the answer the handler has made two existence checks
    and nothing else, so no request went to the network, and the file
    system is what it was.  And whatever the arguments and the outcome of a
    call, every regular file that was there before is there afterwards with
    the same bytes. *)
Theorem existing_file_never_overwritten env args st :
  (∀ v, parse (GetStreetViewSchema args) = Ok v →
        accessible (files st) (OUTPUT_DIR env) →
        accessible (files st) (join_dir (OUTPUT_DIR env) (sv_filename v)) →
        CallTool env "get_street_view" args st
        = (Ok (conflict (sv_filename v)),
           mkState (files st)
             (trace st ++ [Access (OUTPUT_DIR env);
                           Access (join_dir (OUTPUT_DIR env) (sv_filename v))])))
  ∧ (∀ r st', CallTool env "get_street_view" args st = (r, st') →
              keeps_files (files st) (files st')).
Proof.
  split.
  - intros v Hv [d Hd] [n Hn]. unfold CallTool. cbn [String.eqb Ascii.eqb Bool.eqb]. rewrite Hv.
    unfold get_street_view, get_street_view_try, ensureDirectoryExists, must_not_exist,
      fs_access, try_catch, emit, read_fs, throw, mbind, M_bind, mret, M_ret.
    cbn [files trace]. rewrite Hd. cbn [files trace]. rewrite Hn.
    cbn [files trace code].
    rewrite <- app_assoc. reflexivity.
  - intros r st'. unfold CallTool. cbn [String.eqb Ascii.eqb Bool.eqb].
    destruct (parse (GetStreetViewSchema args)) as [v|e].
    + apply get_street_view_keeps.
    + intros [= <- <-] k c b m H. exact H.
Qed.

Lemma existing_file_never_overwritten_witness :
  CallTool sample_env "get_street_view" (Some taken_name) (mkState sample_gallery [])
  = (Ok (conflict "a.jpg"),
     mkState sample_gallery
       [Access (OUTPUT_DIR sample_env); Access (join_dir (OUTPUT_DIR sample_env) "a.jpg")]).
Proof.
  apply (proj1 (existing_file_never_overwritten sample_env (Some taken_name)
                  (mkState sample_gallery [])) taken_name_parsed).
  - vm_compute. reflexivity.
  - eexists. vm_compute. reflexivity.
  - eexists. vm_compute. reflexivity.
Defined.

(** ** Gallery pages *)

Lemma split_plain s : plain_name s = true → split "/" s = [s].
Proof.
  induction s as [|c s IH]; simpl; [reflexivity|].
  intros H. apply andb_prop in H as [H Hs]. apply andb_prop in H as [Hc _].
  apply negb_true_iff in Hc. rewrite Hc, (IH Hs). reflexivity.
Qed.

Lemma endsWith_sep_plain s : plain_name s = true → endsWith s "/" = false.
Proof.
  induction s as [|c s IH]; [reflexivity|].
  intros H. simpl in H. apply andb_prop in H as [H Hs]. apply andb_prop in H as [Hc _].
  apply negb_true_iff in Hc.
  cbn [endsWith]. rewrite (IH Hs), orb_false_r.
  simpl. rewrite Hc. reflexivity.
Qed.

Lemma nul_free_plain s :
  plain_name s = true → existsb (Ascii.eqb "000") (list_ascii_of_string s) = false.
Proof.
  induction s as [|c s IH]; [reflexivity|].
  intros H. simpl in H. apply andb_prop in H as [H Hs]. apply andb_prop in H as [_ Hc].
  apply negb_true_iff in Hc. cbn [list_ascii_of_string existsb].
  rewrite (IH Hs), orb_false_r. rewrite Ascii.eqb_sym. exact Hc.
Qed.

Lemma plain_name_app s1 s2 :
  plain_name s1 = true → plain_name s2 = true → plain_name (s1 +:+ s2) = true.
Proof.
  induction s1 as [|c s1 IH]; simpl; [auto|].
  intros H H2. apply andb_prop in H as [H Hs]. rewrite H, (IH Hs H2). reflexivity.
Qed.

Lemma endsWith_app s suffix : endsWith (s +:+ suffix) suffix = true.
Proof. apply endsWith_has_suffix. exists s. reflexivity. Qed.

Lemma htmlFilename_html f : endsWith (htmlFilename f) ".html" = true.
Proof.
  unfold htmlFilename. destruct (endsWith f ".html") eqn:E; [exact E | apply endsWith_app].
Qed.

Lemma htmlFilename_plain f : plain_name f = true → plain_name (htmlFilename f) = true.
Proof.
  intros H. unfold htmlFilename. destruct (endsWith f ".html"); [exact H|].
  apply plain_name_app; [exact H | reflexivity].
Qed.

(** The path of a page below the directory. *)
Lemma join_html dir f :
  plain_name f = true →
  join dir (htmlFilename f) = mkPath (dir ++ [htmlFilename f]) false.
Proof.
  intros H. pose proof (htmlFilename_html f) as Hh.
  pose proof (htmlFilename_plain f H) as Hp.
  unfold join.
  destruct (String.eqb_spec (htmlFilename f) "") as [E|_]; [rewrite E in Hh; discriminate|].
  rewrite (split_plain _ Hp), (endsWith_sep_plain _ Hp). simpl. unfold normalize_segment.
  destruct (String.eqb_spec (htmlFilename f) "") as [E|_]; [rewrite E in Hh; discriminate|].
  destruct (String.eqb_spec (htmlFilename f) ".") as [E|_]; [rewrite E in Hh; discriminate|].
  destruct (String.eqb_spec (htmlFilename f) "..") as [E|_]; [rewrite E in Hh; discriminate|].
  reflexivity.
Qed.

Lemma has_nul_app segs name b b' :
  has_nul (mkPath segs b) = false → plain_name name = true →
  has_nul (mkPath (segs ++ [name]) b') = false.
Proof.
  unfold has_nul. simpl. intros H Hn. rewrite existsb_app, H. simpl.
  rewrite (nul_free_plain _ Hn). reflexivity.
Qed.

Lemma clear_way_insert_dir fs k st cur rest :
  clear_way fs cur rest = true → clear_way (<[k := Dir st]> fs) cur rest = true.
Proof.
  revert cur. induction rest as [|s rest IH]; intros cur; simpl; [auto|].
  destruct (decide (k = cur ++ [s])) as [->|Hne].
  - rewrite lookup_insert_eq. destruct (fs !! (cur ++ [s])) as [[]|]; auto; discriminate.
  - rewrite lookup_insert_ne by exact Hne.
    destruct (fs !! (cur ++ [s])) as [[]|]; auto.
Qed.

(** [mkdir -p] below [cur]: it succeeds when no regular file is in the way,
    it makes the whole path a directory, and it touches nothing that is not
    on the path. *)
Lemma mkdir_from_clear now p fs cur rest :
  clear_way fs cur rest = true →
  ∃ fs', mkdir_from now p fs cur rest = Ok fs'
         ∧ (∀ k, ¬ k `prefix_of` cur ++ rest → fs' !! k = fs !! k)
         ∧ (rest ≠ [] → ∃ st, fs' !! (cur ++ rest) = Some (Dir st))
         ∧ (∀ k c b m, fs' !! k = Some (File c b m) → fs !! k = Some (File c b m)).
Proof.
  revert fs cur. induction rest as [|s rest IH]; intros fs cur; simpl.
  - intros _. exists fs. split; [reflexivity|]. split; [auto|].
    split; [intros []; reflexivity | auto].
  - intros H.
    assert (Hp : cur ++ [s] `prefix_of` cur ++ s :: rest).
    { exists rest. rewrite <- app_assoc. reflexivity. }
    assert (Hlast : rest = [] → cur ++ s :: rest = cur ++ [s]) by (intros ->; reflexivity).
    destruct (fs !! (cur ++ [s])) as [[st|c b m]|] eqn:E; [| discriminate |].
    + destruct (IH fs (cur ++ [s]) H) as (fs' & Hm & Hu & Hd & Hf).
      rewrite <- app_assoc in Hu, Hd. simpl in Hu, Hd.
      exists fs'. split; [exact Hm|]. split; [exact Hu|]. split; [|exact Hf]. intros _.
      destruct rest as [|s' rest]; [|apply Hd; discriminate].
      simpl in Hm. inversion Hm; subst. eauto.
    + destruct (IH (<[cur ++ [s] := new_directory now]> fs) (cur ++ [s]))
        as (fs' & Hm & Hu & Hd & Hf).
      { apply clear_way_insert_dir. exact H. }
      rewrite <- app_assoc in Hu, Hd. simpl in Hu, Hd.
      exists fs'. split; [exact Hm|]. split; [|split].
      * intros k Hk. rewrite (Hu k Hk). apply lookup_insert_ne.
        intros <-. apply Hk. exact Hp.
      * intros _. destruct rest as [|s' rest]; [|apply Hd; discriminate].
        simpl in Hm. inversion Hm; subst. rewrite lookup_insert_eq. unfold new_directory. eauto.
      * intros k c b m Hk. apply Hf in Hk.
        destruct (decide (cur ++ [s] = k)) as [<-|Hne].
        -- rewrite lookup_insert_eq in Hk. discriminate Hk.
        -- rewrite lookup_insert_ne in Hk by exact Hne. exact Hk.
Qed.

Lemma clear_way_last fs cur rest c b m :
  clear_way fs cur rest = true → rest ≠ [] → fs !! (cur ++ rest) ≠ Some (File c b m).
Proof.
  revert cur. induction rest as [|s rest IH]; intros cur; simpl; [intros _ []; reflexivity|].
  intros H _ E. destruct rest as [|s' rest].
  - rewrite E in H. discriminate.
  - destruct (fs !! (cur ++ [s])) as [[]|]; try discriminate;
      (eapply (IH (cur ++ [s])); [exact H | discriminate |];
       rewrite <- app_assoc; exact E).
Qed.

(** Where the way is clear, no regular file is on the way. *)
Lemma clear_way_file_on_the_way fs cur rest :
  clear_way fs cur rest = true → file_on_the_way fs cur rest = false.
Proof.
  revert cur. induction rest as [|s rest IH]; intros cur; simpl; [reflexivity|].
  destruct (fs !! (cur ++ [s])) as [[d|c b m]|]; [| discriminate |];
    intros H; destruct rest; auto.
Qed.

Lemma clear_way_below fs cur rest x :
  clear_way fs cur rest = true → file_on_the_way fs cur (rest ++ [x]) = false.
Proof.
  revert cur. induction rest as [|s rest IH]; intros cur; simpl; [reflexivity|].
  destruct (fs !! (cur ++ [s])) as [[d|c b m]|]; [| discriminate |];
    intros H; rewrite (IH _ H); destruct rest; reflexivity.
Qed.

Lemma clear_way_app fs cur l1 l2 :
  clear_way fs cur (l1 ++ l2) = true → clear_way fs cur l1 = true.
Proof.
  revert cur. induction l1 as [|s l1 IH]; intros cur; simpl; [reflexivity|].
  destruct (fs !! (cur ++ [s])) as [[d|c b m]|]; [| discriminate |]; apply IH.
Qed.

Lemma clear_way_fewer_files fs fs' cur rest :
  (∀ k c b m, fs' !! k = Some (File c b m) → fs !! k = Some (File c b m)) →
  clear_way fs cur rest = true → clear_way fs' cur rest = true.
Proof.
  intros Hf. revert cur. induction rest as [|s rest IH]; intros cur; simpl; [reflexivity|].
  destruct (fs' !! (cur ++ [s])) as [[d|c b m]|] eqn:E.
  - destruct (fs !! (cur ++ [s])) as [[]|]; [| discriminate |]; apply IH.
  - rewrite (Hf _ _ _ _ E). discriminate.
  - destruct (fs !! (cur ++ [s])) as [[]|]; [| discriminate |]; apply IH.
Qed.

Lemma clear_way_insert_below fs cur rest x n :
  clear_way fs cur rest = true → clear_way (<[cur ++ rest ++ [x] := n]> fs) cur rest = true.
Proof.
  revert cur. induction rest as [|s rest IH]; intros cur; simpl; [reflexivity|].
  rewrite lookup_insert_ne.
  - destruct (fs !! (cur ++ [s])) as [[d|c b m]|]; [| discriminate |]; intros H;
      (replace (cur ++ s :: rest ++ [x]) with ((cur ++ [s]) ++ rest ++ [x])
         by (rewrite <- app_assoc; reflexivity)); apply IH; exact H.
  - intros E. apply (f_equal length) in E. rewrite !length_app in E. simpl in E.
    rewrite length_app in E. simpl in E. lia.
Qed.

(** The steps of the handlers. *)
Lemma must_not_exist_absent p msg st :
  resolve "access" (files st) p = Err (ErrnoException "ENOENT" "access" p) →
  must_not_exist p msg st = (Ok tt, mkState (files st) (trace st ++ [Access p])).
Proof.
  intros H. unfold must_not_exist, fs_access, try_catch, emit, read_fs, throw,
    mbind, M_bind, mret, M_ret.
  cbn [files trace]. rewrite H. reflexivity.
Qed.

Lemma must_not_exist_present p msg st n :
  resolve "access" (files st) p = Ok n →
  must_not_exist p msg st = (Err (Error msg), mkState (files st) (trace st ++ [Access p])).
Proof.
  intros H. unfold must_not_exist, fs_access, try_catch, emit, read_fs, throw,
    mbind, M_bind, mret, M_ret.
  cbn [files trace]. rewrite H. reflexivity.
Qed.

Lemma ensureDirectoryExists_present env dir st n :
  resolve "access" (files st) dir = Ok n →
  ensureDirectoryExists env dir st = (Ok tt, mkState (files st) (trace st ++ [Access dir])).
Proof.
  intros H. unfold ensureDirectoryExists, fs_access, try_catch, emit, read_fs,
    mbind, M_bind, mret, M_ret.
  cbn [files trace]. rewrite H. reflexivity.
Qed.

(** A directory that is available is there after [ensureDirectoryExists],
    a directory indeed; nothing off its path has changed and no regular file
    has appeared. *)
Lemma ensureDirectoryExists_available env dir st :
  available (files st) dir → segments dir ≠ [] →
  ∃ fs' evs,
    ensureDirectoryExists env dir st = (Ok tt, mkState fs' (trace st ++ evs))
    ∧ (∃ d, fs' !! segments dir = Some (Dir d))
    ∧ (∀ k, ¬ k `prefix_of` segments dir → fs' !! k = files st !! k)
    ∧ (∀ k c b m, fs' !! k = Some (File c b m) → files st !! k = Some (File c b m)).
Proof.
  intros [Hnul Hclear] Hne.
  destruct (resolve "access" (files st) dir) as [n|e] eqn:E.
  - exists (files st), [Access dir].
    split; [eapply ensureDirectoryExists_present; exact E|].
    split; [|auto].
    unfold resolve in E. rewrite Hnul in E.
    destruct (file_on_the_way _ _ _); [discriminate|].
    destruct (segments dir) as [|s segs] eqn:Es; [destruct Hne; reflexivity|].
    cbn [node_at] in E.
    destruct (files st !! (s :: segs)) as [[d|c b m]|] eqn:El; [eauto | | discriminate].
    exfalso. eapply (clear_way_last _ [] (s :: segs)); [exact Hclear | discriminate | exact El].
  - destruct (mkdir_from_clear (now env) dir (files st) [] (segments dir) Hclear)
      as (fs' & Hm & Hu & Hd & Hf).
    exists fs', [Access dir; Mkdir dir]. split; [|auto].
    unfold ensureDirectoryExists, fs_access, fs_mkdir, try_catch, emit, read_fs, update_fs,
      mbind, M_bind, mret, M_ret.
    cbn [files trace]. rewrite E. cbn [files trace].
    unfold mkdir_recursive. rewrite Hnul, Hm. rewrite <- app_assoc. reflexivity.
Qed.

Lemma HTML_DIR_path env : HTML_DIR env = mkPath (cwd env ++ ["html"]) false.
Proof. reflexivity. Qed.

Lemma OUTPUT_DIR_path env : OUTPUT_DIR env = mkPath (cwd env ++ ["output"]) false.
Proof. reflexivity. Qed.

Lemma not_prefix_longer (l : list string) x : ¬ (l ++ [x]) `prefix_of` l.
Proof.
  intros [k Hk]. apply (f_equal length) in Hk.
  rewrite !length_app in Hk. simpl in Hk. lia.
Qed.

Lemma node_at_app fs (l : list string) x : node_at fs (l ++ [x]) = fs !! (l ++ [x]).
Proof. destruct l; reflexivity. Qed.

Lemma resolve_below syscall fs (l : list string) x :
  has_nul (mkPath (l ++ [x]) false) = false →
  clear_way fs [] l = true →
  resolve syscall fs (mkPath (l ++ [x]) false)
  = match fs !! (l ++ [x]) with
    | Some n => Ok n
    | None => Err (ErrnoException "ENOENT" syscall (mkPath (l ++ [x]) false))
    end.
Proof.
  intros H Hc. unfold resolve. rewrite H. cbn [segments trailingSep].
  rewrite (clear_way_below _ _ _ _ Hc).
  rewrite node_at_app. destruct (fs !! (l ++ [x])) as [[]|]; reflexivity.
Qed.

Lemma write_file_new syscall now fs (l : list string) x d data :
  has_nul (mkPath (l ++ [x]) false) = false →
  clear_way fs [] l = true →
  node_at fs l = Some (Dir d) →
  fs !! (l ++ [x]) = None →
  write_file syscall now fs (mkPath (l ++ [x]) false) data
  = Ok (<[l ++ [x] := File data now now]> fs).
Proof.
  intros H Hc Hd Hn. unfold write_file. rewrite H. cbn [segments trailingSep].
  rewrite (clear_way_below _ _ _ _ Hc).
  rewrite removelast_last, Hd, Hn. destruct l; reflexivity.
Qed.

(** C5, as the spec has it, fails for a file name with a directory part:
    the handler creates the html directory, not the directories below it.
    In the sample world the schema accepts the page "pages/tour" and the
    target /srv/html/pages/tour.html does not exist, yet the first call
    already fails, with ENOENT from [writeFile], and leaves no file. *)
Lemma page_in_missing_directory :
  parse (CreateHtmlPageSchema (Some nested_tour)) = Ok nested_tour_parsed
  ∧ page_path sample_env "pages/tour" = mkPath ["srv"; "html"; "pages"; "tour.html"] false
  ∧ sample_fs !! ["srv"; "html"; "pages"; "tour.html"] = None
  ∧ nested_tour_run.1
    = Ok (failure "HTML page creation failed: "
            (ErrnoException "ENOENT" "open" (mkPath ["srv"; "html"; "pages"; "tour.html"] false)))
  ∧ files nested_tour_run.2 !! ["srv"; "html"; "pages"; "tour.html"] = None.
Proof. repeat split; vm_compute; reflexivity. Qed.

(** C5, amended: two calls of [create_html_page] with the same arguments,
    the first in a state where the page does not exist.  For arguments that
    the schema accepts, a file name without a directory part and an html
    directory that exists or can be created, the first call succeeds and
    writes the page;
    the second answers with the conflict error "File ... already exists" and
    changes nothing.  Afterwards the page is there with the text of the
    first call, and it is the only regular file that was not there before. *)
Theorem second_page_conflicts env args v st :
  parse (CreateHtmlPageSchema args) = Ok v →
  plain_name (hp_filename v) = true →
  available (files st) (HTML_DIR env) →
  files st !! segments (page_path env (hp_filename v)) = None →
  ∃ r1 st1 st2,
    CallTool env "create_html_page" args st = (Ok r1, st1)
    ∧ isError r1 = false
    ∧ CallTool env "create_html_page" args st1
      = (Ok (page_exists (htmlFilename (hp_filename v))), st2)
    ∧ files st2 = files st1
    ∧ files st2 !! segments (page_path env (hp_filename v))
      = Some (File (page_of v) (now env) (now env))
    ∧ ∀ k c b m, files st2 !! k = Some (File c b m) →
        k = segments (page_path env (hp_filename v)) ∨ files st !! k = Some (File c b m).
Proof.
  intros Hv Hplain Havail Habsent.
  pose proof Havail as [Hnul _].
  set (name := htmlFilename (hp_filename v)) in *.
  set (html := cwd env ++ ["html"]) in *.
  assert (Hpath : page_path env (hp_filename v) = mkPath (html ++ [name]) false).
  { unfold page_path, join_dir. rewrite HTML_DIR_path. apply join_html. exact Hplain. }
  rewrite Hpath in *. cbn [segments] in *.
  rewrite HTML_DIR_path in Hnul. fold html in Hnul.
  assert (Htnul : has_nul (mkPath (html ++ [name]) false) = false).
  { eapply has_nul_app; [exact Hnul | apply htmlFilename_plain; exact Hplain]. }
  destruct (ensureDirectoryExists_available env (HTML_DIR env) st Havail)
    as (fs1 & evs & Hensure & [d Hd] & Hu & Hf).
  { rewrite HTML_DIR_path. simpl. destruct (cwd env); discriminate. }
  rewrite HTML_DIR_path in Hd, Hu. cbn [segments] in Hd, Hu. fold html in Hd, Hu.
  assert (Ht1 : fs1 !! (html ++ [name]) = None).
  { rewrite Hu; [exact Habsent | apply not_prefix_longer]. }
  assert (Hway1 : clear_way fs1 [] html = true).
  { apply (clear_way_fewer_files (files st)); [exact Hf|].
    destruct Havail as [_ Hc]. rewrite HTML_DIR_path in Hc. exact Hc. }
  set (st1 := mkState fs1 (trace st ++ evs)) in *.
  set (target := mkPath (html ++ [name]) false) in *.
  set (fs2 := <[html ++ [name] := File (page_of v) (now env) (now env)]> fs1).
  set (st2 := mkState fs2 (trace st1 ++ [Access target; WriteFile target (page_of v)])).
  assert (Hfirst : ∃ r1, create_html_page env v st = (Ok r1, st2) ∧ isError r1 = false).
  { eexists. split; [|shelve].
    unfold create_html_page, create_html_page_try, try_catch.
    unfold mbind at 1 2 3 4. unfold M_bind at 1 2 3 4.
    rewrite Hensure. cbv zeta. fold name. 
    change (join_dir (HTML_DIR env) name) with (page_path env (hp_filename v)).
    rewrite Hpath.
    rewrite (must_not_exist_absent target _ st1)
      by (unfold target; rewrite resolve_below by (first [exact Htnul | exact Hway1]);
          cbn [files st1]; rewrite Ht1; reflexivity).
    unfold fs_writeFile, emit, update_fs, mbind, M_bind, mret, M_ret.
    cbn [files trace st1]. fold (page_of v). unfold target at 3.
    rewrite (write_file_new "open" (now env) fs1 html name d) by
      (first [exact Htnul | exact Hway1 | exact Ht1
             | unfold html at 1; rewrite node_at_app; exact Hd]).
    unfold st2, st1, success. cbn [files trace]. rewrite <- !app_assoc. reflexivity.
    Unshelve. reflexivity. }
  destruct Hfirst as (r1 & Hfirst & Hr1).
  assert (Hway2 : clear_way fs2 [] html = true).
  { apply (clear_way_insert_below fs1 [] html name). exact Hway1. }
  assert (Hdir2 : resolve "access" (files st2) (HTML_DIR env) = Ok (Dir d)).
  { rewrite HTML_DIR_path. fold html. unfold html at 1.
    rewrite resolve_below
      by (first [exact Hnul | apply (clear_way_app _ _ _ ["html"]); exact Hway2]).
    fold html. cbn [files st2]. unfold fs2. rewrite lookup_insert_ne.
    - rewrite Hd. reflexivity.
    - intros E. apply (f_equal length) in E. rewrite length_app in E. simpl in E. lia. }
  assert (Htarget2 : resolve "access" (files st2) target
                     = Ok (File (page_of v) (now env) (now env))).
  { unfold target. rewrite resolve_below by (first [exact Htnul | exact Hway2]).
    cbn [files st2]. unfold fs2. rewrite lookup_insert_eq. reflexivity. }
  exists r1, st2, (mkState fs2 (trace st2 ++ [Access (HTML_DIR env); Access target])).
  split; [|split; [|split; [|split; [|split]]]].
  - unfold CallTool. cbn [String.eqb Ascii.eqb Bool.eqb]. rewrite Hv. exact Hfirst.
  - exact Hr1.
  - unfold CallTool. cbn [String.eqb Ascii.eqb Bool.eqb]. rewrite Hv.
    unfold create_html_page, create_html_page_try, try_catch.
    unfold mbind at 1 2 3 4. unfold M_bind at 1 2 3 4.
    rewrite (ensureDirectoryExists_present env _ st2 _ Hdir2).
    cbv zeta. fold name.
    change (join_dir (HTML_DIR env) name) with (page_path env (hp_filename v)).
    rewrite Hpath.
    erewrite must_not_exist_present; [|cbn [files]; exact Htarget2].
    cbn [files trace]. rewrite <- !app_assoc. reflexivity.
  - reflexivity.
  - cbn [files]. unfold fs2. apply lookup_insert_eq.
  - cbn [files]. intros k c b m Hk. unfold fs2 in Hk.
    destruct (decide (html ++ [name] = k)) as [<-|Hne]; [left; reflexivity|].
    right. rewrite lookup_insert_ne in Hk by exact Hne. eapply Hf. exact Hk.
Qed.

Lemma second_page_conflicts_witness :
  ∃ r1 st1 st2,
    CallTool sample_env "create_html_page" (Some tour) sample_state = (Ok r1, st1)
    ∧ isError r1 = false
    ∧ CallTool sample_env "create_html_page" (Some tour) st1
      = (Ok (page_exists "tour.html"), st2)
    ∧ files st2 = files st1
    ∧ files st2 !! ["srv"; "html"; "tour.html"] = Some (File (page_of tour_parsed) 1000 1000)
    ∧ ∀ k c b m, files st2 !! k = Some (File c b m) →
        k = ["srv"; "html"; "tour.html"] ∨ sample_fs !! k = Some (File c b m).
Proof.
  apply (second_page_conflicts sample_env (Some tour) tour_parsed sample_state).
  - vm_compute. reflexivity.
  - reflexivity.
  - split; reflexivity.
  - reflexivity.
Defined.

(** ** The parameters sent upstream *)

(** C4: every request that [get_street_view] or [get_metadata] sends
    upstream obeys the radius rule.  When the panorama id is the location
    reference, the parameters have no radius (and carry the id as pano),
    although the validated arguments hold a radius, 50 when the request gave
    none; when an address or coordinates are the reference, the parameters
    carry that radius. *)
Theorem radius_left_out_for_panorama env args st r st' evs url params :
  trace st' = trace st ++ evs →
  In (HttpGet url params) evs →
  (∀ v, parse (GetStreetViewSchema args) = Ok v →
        CallTool env "get_street_view" args st = (r, st') →
        radius_rule (reference (sv_location v) (sv_lat_lng v) (sv_pano_id v)) (sv_radius v) params
        ∧ (∀ o, args = Some o → o !! "radius" = None → sv_radius v = default_radius))
  ∧ (∀ v, parse (GetMetadataSchema args) = Ok v →
          CallTool env "get_metadata" args st = (r, st') →
          radius_rule (reference (md_location v) (md_lat_lng v) (md_pano_id v)) (md_radius v) params
          ∧ (∀ o, args = Some o → o !! "radius" = None → md_radius v = default_radius)).
Proof.
  intros T Hin. split; intros v Hv; unfold CallTool; cbn [String.eqb Ascii.eqb Bool.eqb];
    rewrite Hv; intros Hrun; split.
  - pose proof (adds_new _ _ _ _ _ _ (get_street_view_requests env v) Hrun T) as F.
    rewrite List.Forall_forall in F. exact (F _ Hin _ _ eq_refl).
  - intros o -> Ho. apply parse_Ok in Hv. apply refine_OK in Hv as [Hv _].
    apply GetStreetViewShape_OK in Hv as (_ & _ & _ & _ & _ & _ & _ & Hr).
    eapply default_radius_used; eassumption.
  - pose proof (adds_new _ _ _ _ _ _ (get_metadata_requests env v) Hrun T) as F.
    rewrite List.Forall_forall in F. exact (F _ Hin _ _ eq_refl).
  - intros o -> Ho. apply parse_Ok in Hv. apply refine_OK in Hv as [Hv _].
    apply GetMetadataShape_OK in Hv as (_ & _ & _ & Hr).
    eapply default_radius_used; eassumption.
Qed.

Lemma radius_left_out_for_panorama_witness :
  In (HttpGet METADATA_URL lookup_panorama_sent) (trace lookup_panorama_run.2)
  ∧ radius_rule (Some (Panorama "P1")) default_radius lookup_panorama_sent.
Proof.
  assert (Hin : In (HttpGet METADATA_URL lookup_panorama_sent) (trace lookup_panorama_run.2)).
  { vm_compute. right. left. reflexivity. }
  split; [exact Hin|].
  refine (proj1 (proj2 (radius_left_out_for_panorama sample_env (Some lookup_panorama)
                          sample_state lookup_panorama_run.1 lookup_panorama_run.2
                          (trace lookup_panorama_run.2) METADATA_URL lookup_panorama_sent
                          eq_refl Hin)
                   lookup_panorama_parsed _ _)).
  - vm_compute. reflexivity.
  - vm_compute. reflexivity.
Defined.

(** ** Validation and I/O *)






(** * Further properties of the handlers *)

(** ** The dispatcher *)

Lemma try_catch_answers {A} (m : M A) (h : js_error → A) st :
  ∃ a st', try_catch m (λ e, mret (h e)) st = (Ok a, st').
Proof.
  unfold try_catch. destruct (m st) as [[a|e] st']; [eauto|].
  unfold mret, M_ret. eauto.
Qed.

(** X1: the handler of a tool call never rejects.  Whatever the tool name,
    the arguments and the state of the world, [CallTool] returns an answer:
    every error that is raised inside is caught and turned into one. *)
Theorem dispatcher_always_answers env name args st :
  ∃ res st', CallTool env name args st = (Ok res, st').
Proof.
  unfold CallTool.
  repeat match goal with
         | |- context [if ?b then _ else _] => destruct b
         | |- context [match parse ?r with _ => _ end] => destruct (parse r)
         end;
    try (unfold mret, M_ret; eauto; fail);
    apply try_catch_answers.
Qed.

Lemma handler_answer_not_a_line {A} (m : M A) (ok : A → CallToolResult) what st res st' :
  try_catch (v ← m; mret (ok v)) (λ e, mret (failure what e)) st = (Ok res, st') →
  (∀ a, ∀ s, content (ok a) ≠ ErrorLine s) →
  ∀ s, content res ≠ ErrorLine s.
Proof.
  intros E Hok s. apply try_catch_run in E as [(a & E & [= <-]) | (e & st1 & _ & E)].
  - apply bind_Ok in E as (v & st1 & _ & E). inversion E; subst. apply Hok.
  - inversion E; subst. discriminate.
Qed.

(** X2: the answer is the line "Unknown tool: <name>" exactly for the names
    that the list of tools does not advertise: every advertised tool has its
    case in the dispatcher, and no case answers with that line. *)
Theorem advertised_tools_are_dispatched env name args st res st' :
  CallTool env name args st = (Ok res, st') →
  content res = ErrorLine ("Unknown tool: " +:+ name) ↔ ¬ In name tool_names.
Proof.
  unfold tool_names. cbn [ListTools fmap list_fmap tool_name In].
  unfold CallTool.
  destruct (String.eqb_spec name "get_street_view") as [->|H1];
    [|destruct (String.eqb_spec name "get_metadata") as [->|H2];
      [|destruct (String.eqb_spec name "create_html_page") as [->|H3];
        [|destruct (String.eqb_spec name "list_saved_images") as [->|H4]]]].
  5: { intros [= <- <-]. split; [|reflexivity]. intros _ [E|[E|[E|[E|[]]]]]; congruence. }
  all: try match goal with
           | |- context [match parse ?r with _ => _ end] =>
               destruct (parse r); [|intros [= <- <-]; split; [discriminate|]]
           end.
  all: try (intros E; split;
            [intros C; exfalso; revert C; eapply handler_answer_not_a_line;
               [exact E | discriminate]|]).
  all: intros H; exfalso; apply H; auto 6.
Qed.

Lemma advertised_tools_are_dispatched_witness :
  content (mkResult (ErrorLine "Unknown tool: zoom") true) = ErrorLine ("Unknown tool: " +:+ "zoom")
  ↔ ¬ In "zoom" tool_names.
Proof.
  apply (advertised_tools_are_dispatched sample_env "zoom" None sample_state _ sample_state).
  reflexivity.
Defined.

(** ** What the schemas accept, and what the list of tools advertises *)

Lemma GetStreetViewShape_members (o : gmap string json) (v : GetStreetViewArgs) :
  GetStreetViewShape (Some o) = OK v →
  z_string_min 1 "Filename cannot be empty" [Key "filename"] (o !! "filename") = OK (sv_filename v)
  ∧ optional z_string [Key "location"] (o !! "location") = OK (sv_location v)
  ∧ optional z_string [Key "lat_lng"] (o !! "lat_lng") = OK (sv_lat_lng v)
  ∧ optional z_string [Key "pano_id"] (o !! "pano_id") = OK (sv_pano_id v)
  ∧ optional_default z_string (JString "600x400") [Key "size"] (o !! "size") = OK (sv_size v)
  ∧ optional_default (z_number_int_min_max 0 (Some 360)) (JNumber (num 0))
      [Key "heading"] (o !! "heading") = OK (sv_heading v)
  ∧ optional_default (z_number_int_min_max (-90) (Some 90)) (JNumber (num 0))
      [Key "pitch"] (o !! "pitch") = OK (sv_pitch v)
  ∧ optional_default (z_number_int_min_max 10 (Some 120)) (JNumber (num 90))
      [Key "fov"] (o !! "fov") = OK (sv_fov v)
  ∧ optional_default (z_number_int_min_max 1 None) (JNumber (num 50))
      [Key "radius"] (o !! "radius") = OK (sv_radius v)
  ∧ optional_default (z_enum ["default"; "outdoor"]) (JString "default")
      [Key "source"] (o !! "source") = OK (sv_source v).
Proof.
  unfold GetStreetViewShape. intros H. apply mkParse_OK in H as [Hv Hi].
  split_issues.
  bind_value Hv f. bind_value Hv l. bind_value Hv ll. bind_value Hv p.
  bind_value Hv sz. bind_value Hv h. bind_value Hv pi. bind_value Hv fv.
  bind_value Hv r. bind_value Hv src.
  inversion Hv; subst; simpl.
  repeat split; apply as_OK; assumption.
Qed.

Lemma GetMetadataShape_members (o : gmap string json) (v : GetMetadataArgs) :
  GetMetadataShape (Some o) = OK v →
  optional z_string [Key "location"] (o !! "location") = OK (md_location v)
  ∧ optional z_string [Key "lat_lng"] (o !! "lat_lng") = OK (md_lat_lng v)
  ∧ optional z_string [Key "pano_id"] (o !! "pano_id") = OK (md_pano_id v)
  ∧ optional_default (z_number_int_min_max 1 None) (JNumber (num 50))
      [Key "radius"] (o !! "radius") = OK (md_radius v)
  ∧ optional_default (z_enum ["default"; "outdoor"]) (JString "default")
      [Key "source"] (o !! "source") = OK (md_source v).
Proof.
  unfold GetMetadataShape. intros H. apply mkParse_OK in H as [Hv Hi].
  split_issues.
  bind_value Hv l. bind_value Hv ll. bind_value Hv p. bind_value Hv r. bind_value Hv src.
  inversion Hv; subst; simpl.
  repeat split; apply as_OK; assumption.
Qed.

Lemma CreateHtmlPageSchema_members (o : gmap string json) (v : CreateHtmlPageArgs) :
  CreateHtmlPageSchema (Some o) = OK v →
  z_string_min 1 "Filename cannot be empty" [Key "filename"] (o !! "filename") = OK (hp_filename v)
  ∧ optional_default z_string (JString "Street View Tour") [Key "title"] (o !! "title")
    = OK (hp_title v)
  ∧ z_array_string_min 1 "HTML elements cannot be empty" [Key "html_elements"]
      (o !! "html_elements") = OK (hp_html_elements v).
Proof.
  unfold CreateHtmlPageSchema. intros H. apply mkParse_OK in H as [Hv Hi].
  split_issues.
  bind_value Hv f. bind_value Hv t. bind_value Hv es.
  inversion Hv; subst; simpl.
  repeat split; apply as_OK; assumption.
Qed.

(** What each kind of member schema accepts. *)
Lemma string_min_OK n msg path input s :
  z_string_min n msg path input = OK s →
  input = Some (JString s) ∧ (n ≤ String.length s)%nat.
Proof.
  unfold z_string_min, DIRTY, INVALID, OK, issue_if.
  destruct input as [[]|]; try (intros [=]; fail).
  destruct (Nat.ltb_spec (String.length s0) n); intros [= -> ]. split; [reflexivity | lia].
Qed.

Lemma string_default_OK d path input s :
  optional_default z_string d path input = OK s → default d input = JString s.
Proof.
  unfold optional_default, z_string, INVALID, OK.
  destruct input as [j|]; simpl.
  - destruct j; intros [=]. subst. reflexivity.
  - destruct d; intros [=]. subst. reflexivity.
Qed.

Lemma enum_default_OK values d path input s :
  optional_default (z_enum values) d path input = OK s →
  default d input = JString s ∧ In s values.
Proof.
  assert (G : ∀ j, z_enum values path (Some j) = OK s → j = JString s ∧ In s values).
  { intros j. unfold z_enum, INVALID, OK. destruct j; try (intros [=]; fail).
    destruct (existsb (String.eqb s0) values) eqn:E; intros [=]. subst.
    split; [reflexivity|]. apply existsb_exists in E as (x & Hx & E).
    apply String.eqb_eq in E. subst. exact Hx. }
  unfold optional_default. destruct input as [j|]; simpl; apply G.
Qed.

Lemma strings_of_elements (f : nat → json → ParseReturn string) (xs : list json)
    (es : list string) :
  (∀ j x e, value (f j x) = Some e → x = JString e) →
  Forall2 (λ r e, value r = Some e) (imap f xs) es →
  xs = JString <$> es.
Proof.
  revert f es. induction xs as [|x xs IH]; intros f es Hf Hv.
  - inversion Hv. reflexivity.
  - cbn [imap] in Hv. inversion Hv as [|? e ? es' Hx Hrest]; subst.
    rewrite fmap_cons. f_equal.
    + eapply Hf. exact Hx.
    + apply (IH (f ∘ S)); [|exact Hrest].
      intros j y e' H. eapply Hf. exact H.
Qed.

Lemma array_string_OK n msg path input es :
  z_array_string_min n msg path input = OK es →
  input = Some (JArray (JString <$> es)) ∧ (n ≤ length es)%nat.
Proof.
  unfold z_array_string_min, INVALID, OK.
  destruct input as [[]|]; try (intros [=]; fail).
  intros H. injection H as Hv Hi. apply app_eq_nil in Hi as [Hn _].
  apply mapM_Some in Hv.
  assert (Hxs : xs = JString <$> es).
  { eapply strings_of_elements; [|exact Hv].
    intros j x e. unfold z_string, OK, INVALID. destruct x; intros [=]. subst. reflexivity. }
  subst. split; [reflexivity|]. rewrite length_fmap in Hn.
  unfold issue_if in Hn. destruct (Nat.ltb_spec (length es) n); [discriminate | lia].
Qed.

Lemma accepted_or_refused env name args st :
  In name ["get_street_view"; "get_metadata"; "create_html_page"] →
  accepts name args = false →
  ∃ e, CallTool env name args st = (Ok (zod_failure e), st).
Proof.
  unfold accepts, CallTool. cbn [In].
  intros [<-|[<-|[<-|[]]]]; cbn [String.eqb Ascii.eqb Bool.eqb];
    match goal with |- context [parse ?r] => destruct (parse r) end;
    first [discriminate | intros _; eexists; reflexivity].
Qed.

Ltac accepted H v :=
  unfold accepts in H; cbn [String.eqb Ascii.eqb Bool.eqb] in H;
  match type of H with
  | context [parse ?r] => destruct (parse r) as [v|] eqn:?; [clear H | discriminate H]
  end.

Ltac members :=
  match goal with
  | H : parse (GetStreetViewSchema _) = Ok _ |- _ =>
      apply parse_Ok in H; apply refine_OK in H as [H _];
      apply GetStreetViewShape_members in H
        as (?Hf & ?Hl & ?Hll & ?Hp & ?Hsz & ?Hh & ?Hpi & ?Hfov & ?Hr & ?Hsrc)
  | H : parse (GetMetadataSchema _) = Ok _ |- _ =>
      apply parse_Ok in H; apply refine_OK in H as [H _];
      apply GetMetadataShape_members in H as (?Hl & ?Hll & ?Hp & ?Hr & ?Hsrc)
  | H : parse (CreateHtmlPageSchema _) = Ok _ |- _ =>
      apply parse_Ok in H;
      apply CreateHtmlPageSchema_members in H as (?Hf & ?Ht & ?Hes)
  end.

(** X3: a member that the advertised schema of a tool lists under
    [required] is required by the Zod schema of the tool as well: a call
    without it is answered with the error of the schema, and the world is
    left as it was. *)
Theorem required_members_enforced env tool k (o : gmap string json) st :
  In tool ListTools → In k (tool_required tool) → o !! k = None →
  ∃ e, CallTool env (tool_name tool) (Some o) st = (Ok (zod_failure e), st).
Proof.
  intros Ht Hk Ho. cbn [ListTools In] in Ht.
  destruct Ht as [<-|[<-|[<-|[<-|[]]]]]; cbn [tool_required tool_name In] in *;
    try contradiction.
  - destruct Hk as [<-|[]]. apply accepted_or_refused; [cbn; auto|].
    destruct (accepts _ _) eqn:A; [|reflexivity]. accepted A v. members.
    apply string_min_OK in Hf as [Hf _]. congruence.
  - apply accepted_or_refused; [cbn; auto|].
    destruct (accepts _ _) eqn:A; [|reflexivity]. accepted A v. members.
    destruct Hk as [<-|[<-|[]]].
    + apply string_min_OK in Hf as [Hf _]. congruence.
    + apply array_string_OK in Hes as [Hes _]. congruence.
Qed.

Lemma required_members_enforced_witness :
  ∃ e, CallTool sample_env "create_html_page" (Some {[ "filename" := JString "tour" ]})
         sample_state
       = (Ok (zod_failure e), sample_state).
Proof.
  apply (required_members_enforced sample_env create_html_page_tool "html_elements").
  - right. right. left. reflexivity.
  - right. left. reflexivity.
  - reflexivity.
Defined.

(** X4: the defaults that the list of tools advertises are the defaults
    that the Zod schemas apply: sending a member with its advertised default
    has the same outcome, answer and state, as leaving the member out. *)
Theorem advertised_defaults_applied env tool k p d (o : gmap string json) st :
  In tool ListTools → In (k, p) (tool_properties tool) → prop_default p = Some d →
  o !! k = None →
  CallTool env (tool_name tool) (Some (<[k := d]> o)) st
  = CallTool env (tool_name tool) (Some o) st.
Proof.
  intros Ht Hk Hd Ho. cbn [ListTools In] in Ht.
  destruct Ht as [<-|[<-|[<-|[<-|[]]]]]; cbn [tool_properties tool_name In] in *;
    repeat match goal with
           | H : _ ∨ _ |- _ => destruct H as [H|H]
           | H : False |- _ => destruct H
           | H : (_, _) = (_, _) |- _ => injection H as <- <-
           end;
    try discriminate Hd; injection Hd as <-;
    unfold CallTool; cbn [String.eqb Ascii.eqb Bool.eqb];
    match goal with
    | |- match parse ?a with _ => _ end _ = match parse ?b with _ => _ end _ =>
        replace a with b; [reflexivity|]
    end;
    unfold GetStreetViewSchema, GetStreetViewShape, GetMetadataSchema, GetMetadataShape,
      CreateHtmlPageSchema;
    rewrite lookup_insert_eq, ?Ho;
    rewrite !lookup_insert_ne by discriminate;
    reflexivity.
Qed.

Lemma advertised_defaults_applied_witness :
  CallTool sample_env "get_street_view" (Some (<["radius" := JNumber (num 50)]> taken_name))
    sample_state
  = CallTool sample_env "get_street_view" (Some taken_name) sample_state.
Proof.
  apply (advertised_defaults_applied sample_env get_street_view_tool "radius"
           (property_with_default "number"
              "Search radius in meters when using location or coordinates" (JNumber (num 50)))).
  - left. reflexivity.
  - do 8 right. left. reflexivity.
  - reflexivity.
  - reflexivity.
Defined.

(** X5: a member whose value does not fit its advertised schema (the JSON
    type, the [enum], the type of the [items]) is refused by the Zod schema
    of the tool: the call is answered with the error of the schema, and the
    world is left as it was. *)
Theorem advertised_schema_enforced env tool k p j (o : gmap string json) st :
  In tool ListTools → In (k, p) (tool_properties tool) → o !! k = Some j →
  ¬ fits p j →
  ∃ e, CallTool env (tool_name tool) (Some o) st = (Ok (zod_failure e), st).
Proof.
  intros Ht Hk Ho Hfit. cbn [ListTools In] in Ht.
  destruct Ht as [<-|[<-|[<-|[<-|[]]]]]; cbn [tool_properties tool_name In] in *;
    try contradiction;
    (apply accepted_or_refused; [cbn; auto 6|]);
    destruct (accepts _ _) eqn:A; try reflexivity; exfalso; apply Hfit; clear Hfit;
    accepted A v; members;
    repeat match goal with
           | H : _ ∨ _ |- _ => destruct H as [H|H]
           | H : False |- _ => destruct H
           | H : (_, _) = (_, _) |- _ => injection H as <- <-
           end;
    rewrite Ho in *;
    unfold fits, plain_property, property_with_default;
    cbn [prop_type prop_enum prop_items];
    repeat match goal with
           | H : z_string_min _ _ _ (Some _) = OK _ |- _ => apply string_min_OK in H as [H _]
           | H : optional z_string _ (Some _) = OK _ |- _ => apply optional_string_OK in H
           | H : optional_default z_string _ _ (Some _) = OK _ |- _ =>
               apply string_default_OK in H
           | H : optional_default (z_number_int_min_max _ _) _ _ (Some _) = OK _ |- _ =>
               apply number_OK in H as [H _]
           | H : optional_default (z_enum _) _ _ (Some _) = OK _ |- _ =>
               apply enum_default_OK in H as [H ?]
           | H : z_array_string_min _ _ _ (Some _) = OK _ |- _ =>
               apply array_string_OK in H as [H _]
           end.
  all: try match goal with
           | H : Some _ = _ <$> ?x |- _ => destruct x; simpl in H; [|discriminate H]
           end.
  all: simpl in *; simplify_eq.
  all: split; [reflexivity|]; split; intros ? [=]; subst; eauto.
  eexists. split; [reflexivity|]. apply Forall_fmap. apply Forall_true. reflexivity.
Qed.

Lemma advertised_schema_enforced_witness :
  ∃ e, CallTool sample_env "get_street_view"
         (Some (<["heading" := JString "90"]> taken_name)) sample_state
       = (Ok (zod_failure e), sample_state).
Proof.
  apply (advertised_schema_enforced sample_env get_street_view_tool "heading"
           (property_with_default "number" "Camera heading in degrees (0-360)" (JNumber (num 0)))
           (JString "90")).
  - left. reflexivity.
  - do 5 right. left. reflexivity.
  - reflexivity.
  - intros [H _]. discriminate H.
Defined.

Lemma not_below n z : lt_lit n z = false → ¬ below n z.
Proof. intros H B. apply lt_lit_below in B. congruence. Qed.

Lemma not_above n z : gt_lit n z = false → ¬ above n z.
Proof. intros H B. apply gt_lit_above in B. congruence. Qed.

Lemma number_between lo hi d path input n :
  optional_default (z_number_int_min_max lo (Some hi)) d path input = OK n →
  integer_between lo hi n.
Proof.
  intros H. apply number_OK in H as (_ & Hi & Hlo & Hhi).
  split; [apply isInteger_integral; exact Hi|].
  split; [apply not_below; exact Hlo | apply not_above; exact Hhi].
Qed.

(** X6: what [get_street_view] works with once [GetStreetViewSchema] has
    accepted the arguments: the file name is not empty, exactly one of
    location, lat_lng and pano_id is a non-empty string, heading, pitch and
    fov are integers in 0..360, -90..90 and 10..120, the radius is an integer
    of at least 1, and the source is "default" or "outdoor". *)
Theorem validated_arguments_in_range args v :
  parse (GetStreetViewSchema args) = Ok v →
  sv_filename v ≠ ""
  ∧ locationMethods (sv_location v) (sv_lat_lng v) (sv_pano_id v) = 1%nat
  ∧ integer_between 0 360 (sv_heading v)
  ∧ integer_between (-90) 90 (sv_pitch v)
  ∧ integer_between 10 120 (sv_fov v)
  ∧ integral (sv_radius v) ∧ ¬ below (sv_radius v) 1
  ∧ In (sv_source v) ["default"; "outdoor"].
Proof.
  intros H. apply parse_Ok in H. apply refine_OK in H as [H Hone].
  destruct args as [o|]; [|inversion H].
  apply GetStreetViewShape_members in H
    as (Hf & Hl & Hll & Hp & Hsz & Hh & Hpi & Hfov & Hr & Hsrc).
  split.
  { apply string_min_OK in Hf as [_ Hf]. intros E. rewrite E in Hf. simpl in Hf. lia. }
  split; [apply Nat.eqb_eq; exact Hone|].
  split; [eapply number_between; exact Hh|].
  split; [eapply number_between; exact Hpi|].
  split; [eapply number_between; exact Hfov|].
  apply number_OK in Hr as (_ & Hi & Hlo & _).
  split; [apply isInteger_integral; exact Hi|].
  split; [apply not_below; exact Hlo|].
  apply enum_default_OK in Hsrc as [_ Hsrc]. exact Hsrc.
Qed.

Lemma validated_arguments_in_range_witness :
  sv_filename taken_name_parsed ≠ ""
  ∧ locationMethods (sv_location taken_name_parsed) (sv_lat_lng taken_name_parsed)
      (sv_pano_id taken_name_parsed) = 1%nat
  ∧ integer_between 0 360 (sv_heading taken_name_parsed)
  ∧ integer_between (-90) 90 (sv_pitch taken_name_parsed)
  ∧ integer_between 10 120 (sv_fov taken_name_parsed)
  ∧ integral (sv_radius taken_name_parsed) ∧ ¬ below (sv_radius taken_name_parsed) 1
  ∧ In (sv_source taken_name_parsed) ["default"; "outdoor"].
Proof.
  apply (validated_arguments_in_range (Some taken_name)). vm_compute. reflexivity.
Defined.

Lemma elements_OK (f : nat → json → ParseReturn string) (es : list string) :
  (∀ i s, f i (JString s) = OK s) → imap f (JString <$> es) = OK <$> es.
Proof.
  revert f. induction es as [|e es IH]; intros f Hf; [reflexivity|].
  rewrite !fmap_cons. cbn [imap]. rewrite Hf. f_equal. apply IH. intros i s. apply Hf.
Qed.

Lemma values_of_OK (es : list string) : mapM value (OK <$> es) = Some es.
Proof.
  apply mapM_Some. induction es as [|e es IH]; [constructor|].
  rewrite fmap_cons. constructor; [reflexivity | exact IH].
Qed.

Lemma issues_of_OK (es : list string) :
  concat (issues <$> (OK <$> es : list (ParseReturn string))) = [].
Proof. induction es as [|e es IH]; [reflexivity|]. rewrite !fmap_cons. simpl. exact IH. Qed.

(** X7: the arguments that [CreateHtmlPageSchema] accepts, and what it
    makes of them: [filename] is a non-empty string, [title] is a string or
    absent (then the title is "Street View Tour"), [html_elements] is a
    non-empty array of strings.  Nothing else is accepted, and no other
    member of the arguments matters. *)
Theorem page_arguments_accepted (o : gmap string json) v :
  parse (CreateHtmlPageSchema (Some o)) = Ok v
  ↔ o !! "filename" = Some (JString (hp_filename v)) ∧ hp_filename v ≠ ""
    ∧ default (JString "Street View Tour") (o !! "title") = JString (hp_title v)
    ∧ o !! "html_elements" = Some (JArray (JString <$> hp_html_elements v))
    ∧ hp_html_elements v ≠ [].
Proof.
  split.
  - intros H. apply parse_Ok in H. apply CreateHtmlPageSchema_members in H as (Hf & Ht & Hes).
    apply string_min_OK in Hf as [Hf Hlen]. apply string_default_OK in Ht.
    apply array_string_OK in Hes as [Hes Hn].
    split; [exact Hf|]. split; [intros E; rewrite E in Hlen; simpl in Hlen; lia|].
    split; [exact Ht|]. split; [exact Hes|]. intros E. rewrite E in Hn. simpl in Hn. lia.
  - intros (Hf & Hne & Ht & Hes & Hn). apply parse_Ok.
    destruct v as [f t es]. simpl in *.
    unfold CreateHtmlPageSchema. rewrite Hf, Hes.
    assert (Ef : z_string_min 1 "Filename cannot be empty" [Key "filename"] (Some (JString f))
                 = OK f).
    { unfold z_string_min, DIRTY, OK, issue_if. destruct f; [contradiction | reflexivity]. }
    assert (Et : optional_default z_string (JString "Street View Tour") [Key "title"]
                   (o !! "title") = OK t).
    { unfold optional_default. destruct (o !! "title") as [j|]; simpl in Ht; simplify_eq;
        reflexivity. }
    assert (Ee : z_array_string_min 1 "HTML elements cannot be empty" [Key "html_elements"]
                   (Some (JArray (JString <$> es))) = OK es).
    { unfold z_array_string_min. rewrite elements_OK by reflexivity.
      rewrite values_of_OK, issues_of_OK, length_fmap.
      destruct es; [contradiction | reflexivity]. }
    rewrite Ef, Et, Ee. reflexivity.
Qed.

Lemma page_arguments_accepted_witness :
  parse (CreateHtmlPageSchema (Some tour)) = Ok tour_parsed.
Proof.
  apply (page_arguments_accepted tour tour_parsed).
  repeat split; discriminate.
Defined.

(** ** What the tools do to the world *)

Lemma adds_mapM {A B} P (f : A → M B) (l : list A) :
  (∀ x, adds P (f x)) → adds P (mapM f l).
Proof.
  intros Hf. induction l as [|x l IH]; simpl.
  - apply adds_ret.
  - apply adds_bind; [apply Hf | intros ? ? ? _].
    apply adds_bind; [exact IH | intros ? ? ? _]. apply adds_ret.
Qed.

Lemma reads_only_mapM {A B} (f : A → M B) (l : list A) :
  (∀ x, reads_only (f x)) → reads_only (mapM f l).
Proof.
  intros Hf. induction l as [|x l IH]; simpl.
  - apply reads_only_ret.
  - apply reads_only_bind; [apply Hf | intros ?].
    apply reads_only_bind; [exact IH | intros ?]. apply reads_only_ret.
Qed.

Lemma reads_only_makeMetadataRequest env url params :
  reads_only (makeMetadataRequest env url params).
Proof. unfold makeMetadataRequest, request_failed, log. reads_only_steps. Qed.

Lemma reads_only_get_metadata env v : reads_only (get_metadata env v).
Proof.
  unfold get_metadata, get_metadata_try.
  apply reads_only_try_catch; [|intros; apply reads_only_ret].
  apply reads_only_bind; [|intros; apply reads_only_ret].
  apply reads_only_bind; [apply reads_only_set_location | intros ?].
  apply reads_only_bind; [apply reads_only_makeMetadataRequest | intros ?].
  apply reads_only_from_result.
Qed.

Lemma adds_get_metadata env v : adds metadata_traffic (get_metadata env v).
Proof.
  unfold get_metadata, get_metadata_try.
  apply adds_try_catch; [|intros e; apply adds_ret].
  apply adds_bind; [|intros; apply adds_ret].
  apply adds_bind; [apply adds_set_location | intros ? ? ? _].
  apply adds_bind; [apply adds_makeMetadataRequest | intros; apply adds_from_result].
  - intros l s. exact I.
  - reflexivity.
Qed.

(** X8: [get_metadata] does not touch the file system.  Whatever the
    arguments, the files are what they were, and all that the call does is
    write log lines and send requests to the metadata endpoint. *)
Theorem get_metadata_leaves_the_disk_alone env args st :
  files (CallTool env "get_metadata" args st).2 = files st
  ∧ ∃ evs, trace (CallTool env "get_metadata" args st).2 = trace st ++ evs
           ∧ Forall metadata_traffic evs.
Proof.
  unfold CallTool. cbn [String.eqb Ascii.eqb Bool.eqb].
  destruct (parse (GetMetadataSchema args)) as [v|e].
  - destruct (get_metadata env v st) as [r st'] eqn:E. cbn [snd]. split.
    + eapply reads_only_get_metadata. exact E.
    + eapply adds_get_metadata. exact E.
  - cbn. split; [reflexivity|]. exists []. rewrite app_nil_r. split; [reflexivity | constructor].
Qed.

Lemma adds_fs_writeFile env P p data : P (WriteFile p data) → adds P (fs_writeFile env p data).
Proof. intros H. unfold fs_writeFile. adds_steps. exact H. Qed.

Lemma adds_create_html_page env v :
  adds (page_action env (page_path env (hp_filename v))) (create_html_page env v).
Proof.
  unfold create_html_page, create_html_page_try.
  apply adds_try_catch; [|intros e; apply adds_ret].
  apply adds_bind; [|intros; apply adds_ret].
  apply adds_bind; [apply adds_ensureDirectoryExists; cbn; auto | intros ? ? ? _].
  cbv zeta.
  apply adds_bind; [apply adds_must_not_exist; right; reflexivity | intros ? ? ? _].
  apply adds_bind; [apply adds_fs_writeFile; reflexivity | intros; apply adds_ret].
Qed.

Lemma adds_image_info env file : adds (listing_action env) (image_info env file).
Proof.
  unfold image_info. cbv zeta.
  apply adds_bind; [apply adds_fs_stat; cbn; eauto | intros ? ? ? _].
  apply adds_try_catch; [|intros; apply adds_ret].
  apply adds_bind; [apply adds_sharp_metadata; cbn; eauto | intros; apply adds_ret].
Qed.

Lemma adds_fs_readdir P p : P (Readdir p) → adds P (fs_readdir p).
Proof. intros H. unfold fs_readdir. adds_steps. exact H. Qed.

Lemma adds_list_saved_images env : adds (listing_action env) (list_saved_images env).
Proof.
  unfold list_saved_images, list_saved_images_try, saved_images.
  apply adds_try_catch; [|intros e; apply adds_ret].
  apply adds_bind; [|intros; apply adds_ret].
  apply adds_bind; [|intros; apply adds_ret].
  apply adds_bind; [apply adds_ensureDirectoryExists; reflexivity | intros ? ? ? _].
  apply adds_bind; [apply adds_fs_readdir; reflexivity | intros ? ? ? _].
  cbv zeta.
  apply adds_bind; [apply adds_mapM; intros; apply adds_image_info | intros; apply adds_ret].
Qed.



(** ** What the tools leave on the disk *)

Lemma mkdir_from_no_new_file now p fs cur rest fs' :
  mkdir_from now p fs cur rest = Ok fs' →
  ∀ k c b m, fs' !! k = Some (File c b m) → fs !! k = Some (File c b m).
Proof.
  revert fs cur. induction rest as [|s rest IH]; intros fs cur; simpl.
  - intros [= ->] k c b m H. exact H.
  - destruct (fs !! (cur ++ [s])) as [[d|c0 b0 m0]|] eqn:E; [apply IH | discriminate |].
    intros H k c b m Hk. apply (IH _ _ H) in Hk.
    destruct (decide (cur ++ [s] = k)) as [<-|Hne].
    + rewrite lookup_insert_eq in Hk. discriminate Hk.
    + rewrite lookup_insert_ne in Hk by exact Hne. exact Hk.
Qed.

Lemma ensureDirectoryExists_same_files env dir st r st' :
  ensureDirectoryExists env dir st = (r, st') → same_files (files st) (files st').
Proof.
  intros E k c b m. split; [|eapply ensureDirectoryExists_keeps; exact E].
  revert E.
  unfold ensureDirectoryExists, fs_access, fs_mkdir, try_catch, emit, read_fs, update_fs,
    mbind, M_bind, mret, M_ret. cbn [files trace].
  destruct (resolve "access" (files st) dir) as [n|e].
  - intros [= <- <-] H. exact H.
  - cbn [files trace]. unfold mkdir_recursive.
    destruct (has_nul dir); [intros [= <- <-] H; exact H|].
    destruct (mkdir_from _ _ _ _ _) as [fs'|e'] eqn:E; intros [= <- <-]; cbn [files].
    + eapply mkdir_from_no_new_file. exact E.
    + intros H. exact H.
Qed.

Lemma reads_only_image_info env file : reads_only (image_info env file).
Proof.
  unfold image_info. cbv zeta.
  apply reads_only_bind; [apply reads_only_fs_stat | intros ?].
  apply reads_only_try_catch; [|intros; apply reads_only_ret].
  apply reads_only_bind; [apply reads_only_sharp_metadata | intros; apply reads_only_ret].
Qed.

Lemma list_saved_images_same_files env st r st' :
  list_saved_images env st = (r, st') → same_files (files st) (files st').
Proof.
  unfold list_saved_images. intros E.
  assert (G : ∀ r st', saved_images env st = (r, st') → same_files (files st) (files st')).
  { clear. intros r st' E. unfold saved_images in E.
    apply bind_run in E as [([] & st1 & E1 & E) | (e & E1 & _)];
      [|eapply ensureDirectoryExists_same_files; exact E1].
    apply ensureDirectoryExists_same_files in E1.
    assert (F : files st' = files st1); [|rewrite F; exact E1].
    revert E. generalize st1 r st'. 
    change (reads_only (files ← fs_readdir (OUTPUT_DIR env);
                        imageInfo ← mapM (image_info env) (List.filter is_image_file files);
                        mret (sort (most_recent_first env) imageInfo))).
    apply reads_only_bind; [unfold fs_readdir; reads_only_steps | intros ?].
    apply reads_only_bind; [apply reads_only_mapM; intros; apply reads_only_image_info|].
    intros ?. apply reads_only_ret. }
  assert (G' : ∀ r st', list_saved_images_try env st = (r, st') →
               same_files (files st) (files st')).
  { intros r0 st0 E0. unfold list_saved_images_try in E0.
    apply bind_run in E0 as [(a & st1 & E1 & E0) | (e & E1 & _)].
    - inversion E0; subst. eapply G. exact E1.
    - eapply G. exact E1. }
  apply try_catch_run in E as [(a & E & _) | (e & st1 & E1 & E)].
  - apply bind_run in E as [(j & st1 & E1 & E) | (e & E1 & _)].
    + inversion E; subst. eapply G'. exact E1.
    + eapply G'. exact E1.
  - inversion E; subst.
    apply bind_run in E1 as [(j & st2 & E1 & E2) | (e' & E1 & _)].
    + inversion E2.
    + eapply G'. exact E1.
Qed.

(** X10: [list_saved_images] creates, changes and removes no regular file:
    after the call the regular files are those from before, with their bytes
    and their times (the output directory may have been created). *)
Theorem listing_changes_no_file env args st :
  same_files (files st) (files (CallTool env "list_saved_images" args st).2).
Proof.
  unfold CallTool. cbn [String.eqb Ascii.eqb Bool.eqb].
  destruct (list_saved_images env st) as [r st'] eqn:E. cbn [snd].
  eapply list_saved_images_same_files. exact E.
Qed.

Lemma mkdir_from_keeps_nodes now p fs cur rest fs' :
  mkdir_from now p fs cur rest = Ok fs' → ∀ k n, fs !! k = Some n → fs' !! k = Some n.
Proof.
  revert fs cur. induction rest as [|s rest IH]; intros fs cur; simpl.
  - intros [= ->] k n H. exact H.
  - destruct (fs !! (cur ++ [s])) as [[d|c0 b0 m0]|] eqn:E; [apply IH | discriminate |].
    intros H k n Hk. apply (IH _ _ H).
    rewrite lookup_insert_ne; [exact Hk|]. intros <-. rewrite E in Hk. discriminate Hk.
Qed.

Lemma ensureDirectoryExists_keeps_nodes env dir st r st' :
  ensureDirectoryExists env dir st = (r, st') →
  ∀ k n, files st !! k = Some n → files st' !! k = Some n.
Proof.
  unfold ensureDirectoryExists, fs_access, fs_mkdir, try_catch, emit, read_fs, update_fs,
    mbind, M_bind, mret, M_ret. cbn [files trace].
  destruct (resolve "access" (files st) dir) as [n|e].
  - intros [= <- <-] k n' H. exact H.
  - cbn [files trace]. unfold mkdir_recursive.
    destruct (has_nul dir); [intros [= <- <-] k n' H; exact H|].
    destruct (mkdir_from _ _ _ _ _) as [fs'|e'] eqn:E; intros [= <- <-]; cbn [files].
    + eapply mkdir_from_keeps_nodes. exact E.
    + intros k n' H. exact H.
Qed.

Lemma write_file_absent_eq syscall now fs p data fs' :
  fs !! segments p = None → write_file syscall now fs p data = Ok fs' →
  fs' = <[segments p := File data now now]> fs.
Proof.
  unfold write_file. intros Hn.
  destruct (has_nul p); [discriminate|]. destruct (trailingSep p); [discriminate|].
  destruct (file_on_the_way _ _ _); [discriminate|].
  destruct (segments p) as [|s segs] eqn:Es; [discriminate|].
  destruct (node_at fs (removelast (s :: segs))) as [[d|c b m]|]; try discriminate.
  rewrite Hn. intros [= <-]. reflexivity.
Qed.

Lemma makeApiRequest_Ok env url ps st data st' :
  makeApiRequest env url ps st = (Ok data, st') →
  files st' = files st
  ∧ Boolean (GOOGLE_API_KEY env) = true
  ∧ ∃ status, http_get env url (with_key ps (default "" (GOOGLE_API_KEY env))) = Ok (status, data).
Proof.
  intros E. split; [eapply reads_only_makeApiRequest; exact E|].
  revert E. unfold makeApiRequest.
  destruct (Boolean (GOOGLE_API_KEY env)).
  - intros E. split; [reflexivity|].
    apply bind_Ok in E as ([] & st1 & _ & E). cbv zeta in E.
    apply bind_Ok in E as ([] & st2 & _ & E).
    destruct (http_get env url _) as [[status d]|e].
    + apply bind_Ok in E as ([] & st3 & _ & E). inversion E; subst. eauto.
    + apply bind_Ok in E as (e' & st3 & _ & E). inversion E.
  - intros E. apply bind_Ok in E as (e' & st3 & _ & E). inversion E.
Qed.

Lemma same_files_refl fs : same_files fs fs.
Proof. intros k c b m. reflexivity. Qed.

(** What a run of the body of [get_street_view] leaves: the regular files
    it found, and the download if it got that far. *)
Lemma get_street_view_try_files env v st r st' :
  get_street_view_try env v st = (r, st') →
  (same_files (files st) (files st') ∧ ∀ j, r ≠ Ok j)
  ∨ ∃ c, downloaded env c
         ∧ one_new_file (files st) (files st')
             (segments (join_dir (OUTPUT_DIR env) (sv_filename v))) c.
Proof.
  intros E. unfold get_street_view_try in E.
  apply bind_run in E as [([] & st1 & E1 & E) | (e & E1 & ->)];
    [|left; split; [eapply ensureDirectoryExists_same_files; exact E1 | discriminate]].
  pose proof (ensureDirectoryExists_keeps_nodes _ _ _ _ _ E1) as Hnodes.
  apply ensureDirectoryExists_same_files in E1. cbv zeta in E.
  set (target := join_dir (OUTPUT_DIR env) (sv_filename v)) in *.
  apply bind_run in E as [([] & st2 & E2 & E) | (e & E2 & ->)];
    [|apply must_not_exist_files in E2; rewrite E2; left; split; [exact E1 | discriminate]].
  apply must_not_exist_Ok in E2 as (F2 & _ & Habsent). rewrite <- F2 in *.
  apply bind_run in E as [(ps & st3 & E3 & E) | (e & E3 & ->)];
    [|apply reads_only_set_location in E3; rewrite E3; left; split; [exact E1 | discriminate]].
  apply reads_only_set_location in E3. rewrite <- E3 in *.
  apply bind_run in E as [(data & st4 & E4 & E) | (e & E4 & ->)];
    [|apply reads_only_makeApiRequest in E4; rewrite E4; left; split; [exact E1 | discriminate]].
  apply makeApiRequest_Ok in E4 as (F4 & Hkey & status & Hget). rewrite <- F4 in *.
  assert (Hold : files st !! segments target = None).
  { destruct (files st !! segments target) as [n|] eqn:En; [|reflexivity].
    apply Hnodes in En. congruence. }
  assert (K : ∀ r5 st5, sharp_jpeg_toFile env data target st4 = (r5, st5) →
              (same_files (files st) (files st5) ∧ ∀ j, r5 ≠ Ok j)
              ∨ ∃ c, jpeg env data = Ok c
                     ∧ one_new_file (files st) (files st5) (segments target) c).
  { intros r5 st5. unfold sharp_jpeg_toFile, emit, update_fs, throw, mbind, M_bind.
    cbn [files trace].
    destruct (jpeg env data) as [c|msg];
      [|intros [= <- <-]; left; split; [exact E1 | discriminate]].
    destruct (write_file _ _ _ _ _) as [fs5|e] eqn:W; intros [= <- <-]; cbn [files];
      [|left; split; [exact E1 | discriminate]].
    right. exists c. split; [reflexivity|].
    apply (write_file_absent_eq _ _ _ _ _ _ Habsent) in W. subst fs5.
    split; [exact Hold|]. split; [rewrite lookup_insert_eq; eauto|].
    intros k c' b m Hk. rewrite lookup_insert_ne by (intros X; apply Hk; symmetry; exact X).
    apply E1. }
  assert (R : ∀ st5 st6 (r6 : result js_error json),
              files st6 = files st5 →
              (∃ c, jpeg env data = Ok c
                    ∧ one_new_file (files st) (files st5) (segments target) c) →
              (same_files (files st) (files st6) ∧ ∀ j, r6 ≠ Ok j)
              ∨ ∃ c, downloaded env c
                     ∧ one_new_file (files st) (files st6) (segments target) c).
  { intros st5 st6 r6 F (c & Hc & Hone). right. rewrite F. exists c. split; [|exact Hone].
    split; [exact Hkey|]. eauto. }
  apply bind_run in E as [([] & st5 & E5 & E) | (e & E5 & ->)].
  2: { apply K in E5 as [[Hs _]|H]; [left; split; [exact Hs | discriminate]|].
       eapply R; [reflexivity | exact H]. }
  apply K in E5 as [[_ H]|H5]; [destruct (H ()); reflexivity|].
  apply bind_run in E as [(md & st6 & E6 & E) | (e & E6 & ->)];
    [|apply reads_only_sharp_metadata in E6; eapply R; eassumption].
  apply reads_only_sharp_metadata in E6.
  apply bind_run in E as [(stats & st7 & E7 & E) | (e & E7 & ->)];
    [|apply reads_only_fs_stat in E7; eapply R; [|exact H5]; congruence].
  apply reads_only_fs_stat in E7. inversion E; subst.
  eapply R; [|exact H5]. congruence.
Qed.

(** X11: the only regular file that [get_street_view] can add is the
    download.  For arguments that the schema accepts, the regular files
    after the call are those from before, or those from before and one
    more: at the path join(OUTPUT_DIR, filename), which was free, the JPEG
    encoding of an answer of the image endpoint to a request that carried the
    API key.  A success is answered in the second case only, so an upstream
    error, a missing key or a buffer that the codec refuses leaves no file
    behind. *)
Theorem street_view_stores_the_download env args v st :
  parse (GetStreetViewSchema args) = Ok v →
  let run := CallTool env "get_street_view" args st in
  let target := segments (join_dir (OUTPUT_DIR env) (sv_filename v)) in
  (same_files (files st) (files run.2)
   ∨ ∃ c, downloaded env c ∧ one_new_file (files st) (files run.2) target c)
  ∧ ∀ res, run.1 = Ok res → isError res = false →
      ∃ c, downloaded env c ∧ one_new_file (files st) (files run.2) target c.
Proof.
  intros Hv run target. subst run. unfold CallTool.
  change (String.eqb "get_street_view" "get_street_view") with true. cbv iota.
  rewrite Hv. unfold get_street_view, try_catch, mbind, M_bind, mret, M_ret.
  destruct (get_street_view_try env v st) as [[j|e] st'] eqn:E; cbn [fst snd];
    apply get_street_view_try_files in E as [[Hs Hr]|(c & Hc & Hone)].
  - destruct (Hr j). reflexivity.
  - split; [right|intros res _ _]; exists c; (split; [exact Hc | exact Hone]).
  - split; [left; exact Hs|]. intros res [= <-]. discriminate.
  - split; [right; exists c; split; [exact Hc | exact Hone]|].
    intros res [= <-]. discriminate.
Qed.

Lemma street_view_stores_the_download_witness :
  (same_files (files sample_state) (files coordinates_run.2)
   ∨ ∃ c, downloaded sample_env c
          ∧ one_new_file (files sample_state) (files coordinates_run.2)
              ["srv"; "output"; "a.jpg"] c)
  ∧ ∀ res, coordinates_run.1 = Ok res → isError res = false →
      ∃ c, downloaded sample_env c
           ∧ one_new_file (files sample_state) (files coordinates_run.2)
               ["srv"; "output"; "a.jpg"] c.
Proof.
  apply (street_view_stores_the_download sample_env (Some coordinates_request)
           coordinates_parsed sample_state).
  vm_compute. reflexivity.
Defined.

Lemma fs_writeFile_run env p data st r st' :
  files st !! segments p = None → fs_writeFile env p data st = (r, st') →
  (r = Ok () ∧ files st' = <[segments p := File data (now env) (now env)]> (files st))
  ∨ ((∃ e, r = Err e) ∧ files st' = files st).
Proof.
  intros Hn. unfold fs_writeFile, emit, update_fs, mbind, M_bind. cbn [files trace].
  destruct (write_file _ _ _ _ _) as [fs'|e] eqn:W; intros [= <- <-]; cbn [files].
  - left. split; [reflexivity|]. eapply write_file_absent_eq; eassumption.
  - right. eauto.
Qed.

Lemma create_html_page_try_files env v st r st' :
  create_html_page_try env v st = (r, st') →
  ((∃ e, r = Err e) ∧ same_files (files st) (files st'))
  ∨ ((∃ j, r = Ok j)
     ∧ one_new_file (files st) (files st') (segments (page_path env (hp_filename v)))
         (page_of v)).
Proof.
  intros E. unfold create_html_page_try in E.
  apply bind_run in E as [([] & st1 & E1 & E) | (e & E1 & ->)];
    [|left; split; [eauto | eapply ensureDirectoryExists_same_files; exact E1]].
  pose proof (ensureDirectoryExists_keeps_nodes _ _ _ _ _ E1) as Hnodes.
  apply ensureDirectoryExists_same_files in E1. cbv zeta in E.
  change (join_dir (HTML_DIR env) (htmlFilename (hp_filename v)))
    with (page_path env (hp_filename v)) in E.
  change (htmlTemplate (hp_title v) (String.concat nl (hp_html_elements v)))
    with (page_of v) in E.
  apply bind_run in E as [([] & st2 & E2 & E) | (e & E2 & ->)];
    [|apply must_not_exist_files in E2; rewrite E2; left; split; [eauto | exact E1]].
  apply must_not_exist_Ok in E2 as (F2 & _ & Habsent). rewrite <- F2 in *.
  assert (Hold : files st !! segments (page_path env (hp_filename v)) = None).
  { destruct (files st !! segments (page_path env (hp_filename v))) as [n|] eqn:En;
      [|reflexivity].
    apply Hnodes in En. congruence. }
  apply bind_run in E as [([] & st3 & E3 & E) | (e & E3 & ->)].
  - apply (fs_writeFile_run _ _ _ _ _ _ Habsent) in E3 as [[_ F3]|[[e He] _]];
      [|discriminate He].
    inversion E; subst. right. split; [eauto|].
    rewrite F3. split; [exact Hold|]. split; [rewrite lookup_insert_eq; eauto|].
    intros k c' b m Hk. rewrite lookup_insert_ne by (intros X; apply Hk; symmetry; exact X).
    apply E1.
  - apply (fs_writeFile_run _ _ _ _ _ _ Habsent) in E3 as [[He _]|[_ F3]];
      [discriminate He|].
    left. split; [eauto|]. rewrite F3. exact E1.
Qed.

(** X12: [create_html_page], for arguments that the schema accepts,
    answers with an error and leaves the regular files as they were, or
    answers with a success and has added exactly one regular file: the page
    of the request, at join(HTML_DIR, htmlFilename), which was free. *)
Theorem page_stored_iff_success env args v st :
  parse (CreateHtmlPageSchema args) = Ok v →
  let run := CallTool env "create_html_page" args st in
  ∃ res, run.1 = Ok res
         ∧ if isError res then same_files (files st) (files run.2)
           else one_new_file (files st) (files run.2)
                  (segments (page_path env (hp_filename v))) (page_of v).
Proof.
  intros Hv run. subst run. unfold CallTool.
  change (String.eqb "create_html_page" "get_street_view") with false.
  change (String.eqb "create_html_page" "get_metadata") with false.
  change (String.eqb "create_html_page" "create_html_page") with true. cbv iota.
  rewrite Hv. unfold create_html_page, try_catch, mbind, M_bind, mret, M_ret.
  destruct (create_html_page_try env v st) as [[j|e] st'] eqn:E; cbn [fst snd];
    apply create_html_page_try_files in E as [[[e' He] Hs]|[[j' Hj] Hone]];
    try discriminate.
  - eexists. split; [reflexivity|]. exact Hone.
  - eexists. split; [reflexivity|]. exact Hs.
Qed.

Lemma page_stored_iff_success_witness :
  ∃ res, tour_run.1 = Ok res
         ∧ if isError res then same_files (files sample_state) (files tour_run.2)
           else one_new_file (files sample_state) (files tour_run.2)
                  ["srv"; "html"; "tour.html"] (page_of tour_parsed).
Proof.
  apply (page_stored_iff_success sample_env (Some tour) tour_parsed sample_state).
  vm_compute. reflexivity.
Defined.

(** ** Without an API key *)

Lemma adds_makeApiRequest_no_key env url ps :
  Boolean (GOOGLE_API_KEY env) = false → adds no_request (makeApiRequest env url ps).
Proof.
  intros H. unfold makeApiRequest. rewrite H. unfold request_failed, log.
  adds_steps; exact I.
Qed.

Lemma adds_makeMetadataRequest_no_key env url ps :
  Boolean (GOOGLE_API_KEY env) = false → adds no_request (makeMetadataRequest env url ps).
Proof.
  intros H. unfold makeMetadataRequest. rewrite H. unfold request_failed, log.
  adds_steps; exact I.
Qed.

Lemma makeMetadataRequest_no_answer env url ps st j st' :
  Boolean (GOOGLE_API_KEY env) = false → makeMetadataRequest env url ps st ≠ (Ok j, st').
Proof.
  intros H. unfold makeMetadataRequest. rewrite H. intros E.
  apply bind_Ok in E as (e & st1 & _ & E). inversion E.
Qed.

Lemma adds_get_street_view_no_key env v :
  Boolean (GOOGLE_API_KEY env) = false → adds no_request (get_street_view env v).
Proof.
  intros H. unfold get_street_view, get_street_view_try.
  apply adds_try_catch; [|intros e; apply adds_ret].
  apply adds_bind; [|intros; apply adds_ret].
  apply adds_bind; [apply adds_ensureDirectoryExists; exact I | intros ? ? ? _].
  cbv zeta.
  apply adds_bind; [apply adds_must_not_exist; exact I | intros ? ? ? _].
  apply adds_bind; [apply adds_set_location | intros ? ? ? _].
  apply adds_bind; [apply adds_makeApiRequest_no_key; exact H | intros ? ? ? _].
  apply adds_bind; [apply adds_sharp_jpeg_toFile; exact I | intros ? ? ? _].
  apply adds_bind; [apply adds_sharp_metadata; exact I | intros ? ? ? _].
  apply adds_bind; [apply adds_fs_stat; exact I | intros ? ? ? _].
  apply adds_ret.
Qed.

Lemma adds_get_metadata_no_key env v :
  Boolean (GOOGLE_API_KEY env) = false → adds no_request (get_metadata env v).
Proof.
  intros H. unfold get_metadata, get_metadata_try.
  apply adds_try_catch; [|intros e; apply adds_ret].
  apply adds_bind; [|intros; apply adds_ret].
  apply adds_bind; [apply adds_set_location | intros ? ? ? _].
  apply adds_bind; [apply adds_makeMetadataRequest_no_key; exact H | intros ? ? ? _].
  apply adds_from_result.
Qed.

Lemma get_street_view_no_key env v st r st' :
  Boolean (GOOGLE_API_KEY env) = false → get_street_view env v st = (r, st') →
  (∃ res, r = Ok res ∧ isError res = true) ∧ same_files (files st) (files st').
Proof.
  intros H. unfold get_street_view, try_catch, mbind, M_bind, mret, M_ret.
  destruct (get_street_view_try env v st) as [[j|e] st1] eqn:E;
    apply get_street_view_try_files in E as [[Hs Hr]|(c & [Hkey _] & _)];
    try congruence.
  - destruct (Hr j). reflexivity.
  - intros [= <- <-]. split; [eexists; split; reflexivity | exact Hs].
Qed.

Lemma get_metadata_no_key env v st r st' :
  Boolean (GOOGLE_API_KEY env) = false → get_metadata env v st = (r, st') →
  ∃ res, r = Ok res ∧ isError res = true.
Proof.
  intros H E. unfold get_metadata in E.
  apply try_catch_run in E as [(res & E & _) | (e & st1 & _ & E)].
  - apply bind_Ok in E as (j & st2 & E & _). unfold get_metadata_try in E.
    apply bind_Ok in E as (ps & st3 & _ & E).
    apply bind_Ok in E as (md & st4 & E & _).
    destruct (makeMetadataRequest_no_answer _ _ _ _ _ _ H E).
  - inversion E; subst. eexists; split; reflexivity.
Qed.

(** X13: without an API key (unset, or the empty string) the two tools
    that take a location always answer with an error, send no request
    upstream, and leave the regular files as they were. *)
Theorem missing_key_stops_before_the_network env name args st :
  Boolean (GOOGLE_API_KEY env) = false → takes_location name →
  let run := CallTool env name args st in
  (∃ res, run.1 = Ok res ∧ isError res = true)
  ∧ same_files (files st) (files run.2)
  ∧ ∃ evs, trace run.2 = trace st ++ evs ∧ Forall no_request evs.
Proof.
  intros H [-> | ->] run; subst run; unfold CallTool.
  - change (String.eqb "get_street_view" "get_street_view") with true. cbv iota.
    destruct (parse (GetStreetViewSchema args)) as [v|e].
    + destruct (get_street_view env v st) as [r st'] eqn:E. cbn [fst snd].
      destruct (get_street_view_no_key _ _ _ _ _ H E) as [Hres Hs].
      split; [exact Hres|]. split; [exact Hs|].
      exact (adds_get_street_view_no_key env v H _ _ _ E).
    + cbn. split; [eexists; split; reflexivity|]. split; [apply same_files_refl|].
      exists []. rewrite app_nil_r. split; [reflexivity | constructor].
  - change (String.eqb "get_metadata" "get_street_view") with false.
    change (String.eqb "get_metadata" "get_metadata") with true. cbv iota.
    destruct (parse (GetMetadataSchema args)) as [v|e].
    + destruct (get_metadata env v st) as [r st'] eqn:E. cbn [fst snd].
      split; [exact (get_metadata_no_key _ _ _ _ _ H E)|].
      split; [rewrite (reads_only_get_metadata env v _ _ _ E); apply same_files_refl|].
      exact (adds_get_metadata_no_key env v H _ _ _ E).
    + cbn. split; [eexists; split; reflexivity|]. split; [apply same_files_refl|].
      exists []. rewrite app_nil_r. split; [reflexivity | constructor].
Qed.

Lemma missing_key_stops_before_the_network_witness :
  (∃ res, no_key_run.1 = Ok res ∧ isError res = true)
  ∧ same_files (files sample_state) (files no_key_run.2)
  ∧ ∃ evs, trace no_key_run.2 = trace sample_state ++ evs ∧ Forall no_request evs.
Proof.
  apply (missing_key_stops_before_the_network no_key_env "get_street_view"
           (Some coordinates_request) sample_state).
  - reflexivity.
  - left. reflexivity.
Defined.

(** ** Requests are not repeated *)

Lemma requests_app evs1 evs2 : requests (evs1 ++ evs2) = (requests evs1 + requests evs2)%nat.
Proof. unfold requests. rewrite List.filter_app, length_app. reflexivity. Qed.

Lemma requests_none evs : Forall no_request evs → requests evs = 0%nat.
Proof.
  induction 1 as [|e evs He _ IH]; [reflexivity|].
  unfold requests in *. destruct e; simpl; try exact IH. destruct He.
Qed.

Lemma sends_none {A} (m : M A) : adds no_request m → sends_at_most 0 m.
Proof.
  intros H st r st' E. destruct (H _ _ _ E) as (evs & T & F).
  exists evs. split; [exact T|]. rewrite (requests_none _ F). lia.
Qed.

Lemma sends_bind {A B} a b (m : M A) (f : A → M B) :
  sends_at_most a m → (∀ x, sends_at_most b (f x)) → sends_at_most (a + b) (m ≫= f).
Proof.
  intros Hm Hf st r st' E.
  apply bind_run in E as [(x & st1 & E1 & E2) | (e & E1 & _)].
  - destruct (Hm _ _ _ E1) as (evs1 & T1 & N1).
    destruct (Hf _ _ _ _ E2) as (evs2 & T2 & N2).
    exists (evs1 ++ evs2). rewrite T2, T1, <- app_assoc. split; [reflexivity|].
    rewrite requests_app. lia.
  - destruct (Hm _ _ _ E1) as (evs1 & T1 & N1). exists evs1. split; [exact T1 | lia].
Qed.

Lemma sends_try_catch {A} a b (m : M A) h :
  sends_at_most a m → (∀ e, sends_at_most b (h e)) → sends_at_most (a + b) (try_catch m h).
Proof.
  intros Hm Hh st r st' E.
  apply try_catch_run in E as [(x & E1 & _) | (e & st1 & E1 & E2)].
  - destruct (Hm _ _ _ E1) as (evs1 & T1 & N1). exists evs1. split; [exact T1 | lia].
  - destruct (Hm _ _ _ E1) as (evs1 & T1 & N1).
    destruct (Hh _ _ _ _ E2) as (evs2 & T2 & N2).
    exists (evs1 ++ evs2). rewrite T2, T1, <- app_assoc. split; [reflexivity|].
    rewrite requests_app. lia.
Qed.

Lemma sends_ret {A} (a : A) : sends_at_most 0 (mret a).
Proof. apply sends_none, adds_ret. Qed.

Lemma sends_emit_request url ps : sends_at_most 1 (emit (HttpGet url ps)).
Proof.
  intros st r st' [= <- <-]. exists [HttpGet url ps]. split; reflexivity.
Qed.

Lemma adds_log P l s : (∀ l s, P (Log l s)) → adds P (log l s).
Proof. intros H. unfold log. apply adds_emit. apply H. Qed.

Lemma sends_makeApiRequest env url ps : sends_at_most 1 (makeApiRequest env url ps).
Proof.
  destruct (Boolean (GOOGLE_API_KEY env)) eqn:K.
  - unfold makeApiRequest. rewrite K. change 1%nat with (0 + (1 + 0))%nat.
    apply sends_bind; [apply sends_none, adds_log; intros; exact I | intros _].
    cbv zeta. apply sends_bind; [apply sends_emit_request | intros _].
    apply sends_none. destruct (http_get env url _) as [[status data]|e].
    + apply adds_bind; [apply adds_log; intros; exact I | intros; apply adds_ret].
    + apply adds_bind; [apply adds_request_failed; intros; exact I | intros; apply adds_throw].
  - intros st r st' E.
    destruct (adds_makeApiRequest_no_key env url ps K _ _ _ E) as (evs & T & F).
    exists evs. split; [exact T|]. rewrite (requests_none _ F). lia.
Qed.

Lemma sends_makeMetadataRequest env url ps : sends_at_most 1 (makeMetadataRequest env url ps).
Proof.
  destruct (Boolean (GOOGLE_API_KEY env)) eqn:K.
  - unfold makeMetadataRequest. rewrite K. change 1%nat with (0 + (1 + 0))%nat.
    apply sends_bind; [apply sends_none, adds_log; intros; exact I | intros _].
    cbv zeta. apply sends_bind; [apply sends_emit_request | intros _].
    apply sends_none. destruct (http_get_json env url _) as [[status data]|e].
    + apply adds_bind; [apply adds_log; intros; exact I | intros; apply adds_ret].
    + apply adds_bind; [apply adds_request_failed; intros; exact I | intros; apply adds_throw].
  - intros st r st' E.
    destruct (adds_makeMetadataRequest_no_key env url ps K _ _ _ E) as (evs & T & F).
    exists evs. split; [exact T|]. rewrite (requests_none _ F). lia.
Qed.

Lemma sends_get_street_view env v : sends_at_most 1 (get_street_view env v).
Proof.
  unfold get_street_view, get_street_view_try.
  change 1%nat with ((0 + (0 + (0 + (1 + 0))) + 0) + 0)%nat.
  apply sends_try_catch; [|intros e; apply sends_ret].
  apply sends_bind; [|intros; apply sends_ret].
  apply sends_bind; [apply sends_none, adds_ensureDirectoryExists; exact I | intros _].
  cbv zeta.
  apply sends_bind; [apply sends_none, adds_must_not_exist; exact I | intros _].
  apply sends_bind; [apply sends_none, adds_set_location | intros ps].
  apply sends_bind; [apply sends_makeApiRequest | intros data].
  apply sends_none.
  apply adds_bind; [apply adds_sharp_jpeg_toFile; exact I | intros ? ? ? _].
  apply adds_bind; [apply adds_sharp_metadata; exact I | intros ? ? ? _].
  apply adds_bind; [apply adds_fs_stat; exact I | intros ? ? ? _].
  apply adds_ret.
Qed.

Lemma sends_get_metadata env v : sends_at_most 1 (get_metadata env v).
Proof.
  unfold get_metadata, get_metadata_try.
  change 1%nat with ((0 + (1 + 0) + 0) + 0)%nat.
  apply sends_try_catch; [|intros e; apply sends_ret].
  apply sends_bind; [|intros; apply sends_ret].
  apply sends_bind; [apply sends_none, adds_set_location | intros ps].
  apply sends_bind; [apply sends_makeMetadataRequest | intros data].
  apply sends_none, adds_from_result.
Qed.

Lemma adds_weaken {A} (P Q : event → Prop) (m : M A) :
  (∀ e, P e → Q e) → adds P m → adds Q m.
Proof.
  intros H Hm st r st' E. destruct (Hm _ _ _ E) as (evs & T & F).
  exists evs. split; [exact T|]. eapply Forall_impl; [exact F | exact H].
Qed.

(** X14: no retries.  A tool call sends at most one request upstream,
    whatever the tool, the arguments and the outcome. *)
Theorem no_retries env name args st :
  ∃ evs, trace (CallTool env name args st).2 = trace st ++ evs ∧ (requests evs ≤ 1)%nat.
Proof.
  assert (H : sends_at_most 1 (CallTool env name args)).
  { unfold CallTool.
    destruct (String.eqb name "get_street_view").
    { destruct (parse _); [apply sends_get_street_view|].
      intros s r s' [= <- <-]. exists []. rewrite app_nil_r. split; [reflexivity | cbn; lia]. }
    destruct (String.eqb name "get_metadata").
    { destruct (parse _); [apply sends_get_metadata|].
      intros s r s' [= <- <-]. exists []. rewrite app_nil_r. split; [reflexivity | cbn; lia]. }
    assert (W : ∀ A (m : M A), sends_at_most 0 m → sends_at_most 1 m).
    { intros A m Hm s r s' E. destruct (Hm _ _ _ E) as (evs & T & N).
      exists evs. split; [exact T | lia]. }
    destruct (String.eqb name "create_html_page").
    { destruct (parse _) as [v|e]; [|apply W, sends_ret].
      apply W, sends_none.
      eapply adds_weaken; [|apply adds_create_html_page].
      intros [] He; try exact I. destruct He. }
    destruct (String.eqb name "list_saved_images"); [|apply W, sends_ret].
    apply W, sends_none.
    eapply adds_weaken; [|apply adds_list_saved_images].
    intros [] He; try exact I. destruct He. }
  destruct (CallTool env name args st) as [r st'] eqn:E. exact (H _ _ _ E).
Qed.

(** ** The directories *)

Lemma mkdir_from_directory now p fs cur rest fs' :
  mkdir_from now p fs cur rest = Ok fs' →
  rest ≠ [] ∨ (∃ d, fs !! cur = Some (Dir d)) →
  ∃ d, fs' !! (cur ++ rest) = Some (Dir d).
Proof.
  revert fs cur. induction rest as [|s rest IH]; intros fs cur; simpl.
  - intros [= <-] [H|H]; [destruct H; reflexivity|]. rewrite app_nil_r. exact H.
  - intros E _. replace (cur ++ s :: rest) with ((cur ++ [s]) ++ rest)
      by (rewrite <- app_assoc; reflexivity).
    destruct (fs !! (cur ++ [s])) as [[d|c0 b0 m0]|] eqn:F; [| discriminate |].
    + apply (IH _ _ E). right. eauto.
    + apply (IH _ _ E). right. rewrite lookup_insert_eq. unfold new_directory. eauto.
Qed.

Lemma mkdir_from_way now p fs cur rest fs' :
  mkdir_from now p fs cur rest = Ok fs' → clear_way fs' cur rest = true.
Proof.
  revert fs cur. induction rest as [|s rest IH]; intros fs cur; simpl; [reflexivity|].
  destruct (fs !! (cur ++ [s])) as [[d|c0 b0 m0]|] eqn:F; [| discriminate |]; intros E.
  - rewrite (mkdir_from_keeps_nodes _ _ _ _ _ _ E _ _ F). exact (IH _ _ E).
  - rewrite (mkdir_from_keeps_nodes _ _ _ _ _ _ E (cur ++ [s]) (new_directory now))
      by apply lookup_insert_eq.
    exact (IH _ _ E).
Qed.

Lemma resolve_directory syscall fs p d :
  has_nul p = false → segments p ≠ [] → clear_way fs [] (segments p) = true →
  fs !! segments p = Some (Dir d) →
  resolve syscall fs p = Ok (Dir d).
Proof.
  intros Hn Hs Hc Hd. unfold resolve. rewrite Hn, (clear_way_file_on_the_way _ _ _ Hc).
  unfold node_at.
  destruct (segments p); [destruct Hs; reflexivity|]. rewrite Hd. reflexivity.
Qed.

(** X15: [ensureDirectoryExists], when it returns, leaves something
    accessible at the path and has removed or changed no node of the file
    system; a second call does nothing but the [access] check. *)
Theorem directory_ensured_once env dir st st' :
  segments dir ≠ [] →
  ensureDirectoryExists env dir st = (Ok (), st') →
  accessible (files st') dir
  ∧ (∀ k n, files st !! k = Some n → files st' !! k = Some n)
  ∧ ensureDirectoryExists env dir st' = (Ok (), mkState (files st') (trace st' ++ [Access dir])).
Proof.
  intros Hs E.
  assert (A : accessible (files st') dir).
  { revert E. unfold ensureDirectoryExists, fs_access, fs_mkdir, try_catch, emit, read_fs,
      update_fs, mbind, M_bind, mret, M_ret. cbn [files trace].
    destruct (resolve "access" (files st) dir) as [n|e] eqn:R.
    - intros [= <-]. cbn [files]. exists n. exact R.
    - cbn [files trace]. unfold mkdir_recursive.
      destruct (has_nul dir) eqn:Hn; [discriminate|].
      destruct (mkdir_from _ _ _ _ _) as [fs'|e'] eqn:Em; [|discriminate].
      intros [= <-]. cbn [files].
      destruct (mkdir_from_directory _ _ _ _ _ _ Em) as [d Hd]; [left; exact Hs|].
      exists (Dir d). apply resolve_directory; try assumption.
      eapply mkdir_from_way. exact Em. }
  split; [exact A|]. split; [eapply ensureDirectoryExists_keeps_nodes; exact E|].
  destruct A as [n Hn]. eapply ensureDirectoryExists_present. exact Hn.
Qed.

Lemma directory_ensured_once_witness :
  accessible (files output_ensured.2) (OUTPUT_DIR sample_env)
  ∧ (∀ k n, files sample_state !! k = Some n → files output_ensured.2 !! k = Some n)
  ∧ ensureDirectoryExists sample_env (OUTPUT_DIR sample_env) output_ensured.2
    = (Ok (), mkState (files output_ensured.2)
                (trace output_ensured.2 ++ [Access (OUTPUT_DIR sample_env)])).
Proof.
  apply (directory_ensured_once sample_env (OUTPUT_DIR sample_env) sample_state output_ensured.2).
  - discriminate.
  - vm_compute. reflexivity.
Defined.

(** ** The entries of the listing *)

Lemma resolve_syscall s1 s2 fs p n : resolve s1 fs p = Ok n → resolve s2 fs p = Ok n.
Proof.
  unfold resolve. destruct (has_nul p); [discriminate|].
  destruct (file_on_the_way _ _ _); [discriminate|].
  destruct (node_at fs (segments p)) as [[d|c b m]|]; [auto | | discriminate].
  destruct (trailingSep p); [discriminate | auto].
Qed.

(** X16: the entry of a file in the listing.  When [stat] succeeds on the
    file, the entry is built whatever the codec says: it has the name and the
    size in KB, and its dimensions and format are what the codec reads from
    the file, left out when the codec cannot read it.  When [stat] fails,
    its error is the error of the entry, and the files are untouched. *)
Theorem undecodable_image_still_listed env file st :
  match resolve "stat" (files st) (join_dir (OUTPUT_DIR env) file) with
  | Ok n =>
      ∃ i st', image_info env file st = (Ok i, st')
        ∧ files st' = files st
        ∧ filename i = file
        ∧ size i = kilobytes (stat_size (stats_of n))
        ∧ dimensions i
          = (λ md, show (width md) +:+ "x" +:+ show (height md)) <$> decoded env n
        ∧ image_format i = md ← decoded env n; format md
  | Err e => (image_info env file st).1 = Err e ∧ files (image_info env file st).2 = files st
  end.
Proof.
  unfold image_info. cbv zeta.
  unfold fs_stat, sharp_metadata, try_catch, emit, read_fs, mbind, M_bind, mret, M_ret.
  cbn [files trace].
  destruct (resolve "stat" (files st) _) as [n|e] eqn:R; [|split; reflexivity].
  cbn [files trace]. rewrite (resolve_syscall _ "open" _ _ _ R).
  destruct n as [d|c b m]; cbn [decoded].
  - do 2 eexists. split; [reflexivity|]. cbn. auto.
  - destruct (metadata_of env c) as [md|msg];
      (do 2 eexists; split; [reflexivity|]; cbn; auto).
Qed.

Lemma is_image_file_suffix f :
  is_image_file f = true ↔ ∃ ext, In ext imageExtensions ∧ has_suffix (toLowerCase f) ext.
Proof.
  unfold is_image_file. rewrite existsb_exists. split; intros (ext & Hin & H); exists ext;
    (split; [exact Hin|]); apply endsWith_has_suffix; exact H.
Qed.

(** X17: a successful [list_saved_images] answers with the output
    directory, the number of images and the images.  The names of the images
    are, up to order, the entries of the output directory that pass the
    filter: a name is listed exactly when it is an entry whose lower-case
    form ends in one of the six image extensions. *)
Theorem listing_holds_the_image_files env args st res st' :
  CallTool env "list_saved_images" args st = (Ok res, st') → isError res = false →
  ∃ images,
    content res
    = Stringified (obj [
        ("output_directory", Some (JString (path_string (OUTPUT_DIR env))));
        ("total_images", Some (JNumber (num (Z.of_nat (length images)))));
        ("images", Some (JArray (image_json <$> images)))])
    ∧ Permutation (filename <$> images)
        (List.filter is_image_file (entries (files st') (segments (OUTPUT_DIR env))))
    ∧ ∀ f, In f (filename <$> images) ↔
           In f (entries (files st') (segments (OUTPUT_DIR env)))
           ∧ ∃ ext, In ext imageExtensions ∧ has_suffix (toLowerCase f) ext.
Proof.
  unfold CallTool.
  change (String.eqb "list_saved_images" "get_street_view") with false.
  change (String.eqb "list_saved_images" "get_metadata") with false.
  change (String.eqb "list_saved_images" "create_html_page") with false.
  change (String.eqb "list_saved_images" "list_saved_images") with true. cbv iota.
  unfold list_saved_images. intros E Hok.
  apply try_catch_run in E as [(a & E & [= <-]) | (e & st1 & _ & E)];
    [|inversion E; subst; discriminate Hok].
  apply bind_Ok in E as (j & st1 & E & E'). inversion E'; subst. clear E' Hok.
  unfold list_saved_images_try in E.
  apply bind_Ok in E as (images & st1 & E & E'). inversion E'; subst. clear E'.
  apply saved_images_run in E as (infos & -> & Hnames & _).
  exists (sort (most_recent_first env) infos). split; [reflexivity|].
  assert (P : Permutation (filename <$> sort (most_recent_first env) infos)
                (List.filter is_image_file (entries (files st') (segments (OUTPUT_DIR env))))).
  { rewrite <- Hnames. apply fmap_Permutation, sort_Permutation. }
  split; [exact P|]. intros f. rewrite <- is_image_file_suffix, <- filter_In.
  split; apply Permutation_in; [exact P | symmetry; exact P].
Qed.

Lemma listing_holds_the_image_files_witness :
  ∃ images,
    content sample_listing_answer
    = Stringified (obj [
        ("output_directory", Some (JString (path_string (OUTPUT_DIR sample_env))));
        ("total_images", Some (JNumber (num (Z.of_nat (length images)))));
        ("images", Some (JArray (image_json <$> images)))])
    ∧ Permutation (filename <$> images)
        (List.filter is_image_file
           (entries (files sample_listing_run.2) (segments (OUTPUT_DIR sample_env))))
    ∧ ∀ f, In f (filename <$> images) ↔
           In f (entries (files sample_listing_run.2) (segments (OUTPUT_DIR sample_env)))
           ∧ ∃ ext, In ext imageExtensions ∧ has_suffix (toLowerCase f) ext.
Proof.
  apply (listing_holds_the_image_files sample_env None (mkState sample_gallery [])
           sample_listing_answer sample_listing_run.2).
  - vm_compute. reflexivity.
  - vm_compute. reflexivity.
Defined.

(** ** Coordinates *)

Lemma split_nonempty c s : split c s ≠ [].
Proof.
  destruct s as [|a s]; simpl; [discriminate|].
  destruct (Ascii.eqb a c); [discriminate|]. destruct (split c s); discriminate.
Qed.

Lemma split_no_separator c s : ¬ In c (list_ascii_of_string s) → split c s = [s].
Proof.
  induction s as [|a s IH]; simpl; [reflexivity|].
  intros H. destruct (Ascii.eqb_spec a c) as [->|_]; [destruct H; left; reflexivity|].
  rewrite IH by (intros Hin; apply H; right; exact Hin). reflexivity.
Qed.

Lemma split_app c s1 s2 : split c (s1 +:+ String c s2) = split c s1 ++ split c s2.
Proof.
  induction s1 as [|a s1 IH]; simpl.
  - rewrite Ascii.eqb_refl. reflexivity.
  - rewrite IH. destruct (Ascii.eqb a c); [reflexivity|].
    pose proof (split_nonempty c s1) as Hne.
    destruct (split c s1) as [|w ws]; [destruct Hne; reflexivity | reflexivity].
Qed.

Lemma split_separator c s : In c (list_ascii_of_string s) → ∃ a b rest, split c s = a :: b :: rest.
Proof.
  induction s as [|x s IH]; simpl; [intros []|].
  intros H. destruct (Ascii.eqb_spec x c) as [->|Hne].
  - pose proof (split_nonempty c s) as Hs.
    destruct (split c s) as [|b rest]; [destruct Hs; reflexivity | eauto].
  - destruct H as [H|H]; [destruct Hne; exact H|].
    destruct (IH H) as (a & b & rest & ->). eauto.
Qed.

(** X18: [parseLatLng] rejects a text without a comma, with its one error
    message. *)
Theorem coordinates_need_a_comma s :
  ¬ In ","%char (list_ascii_of_string s) → parseLatLng s = Err (Error invalid_lat_lng).
Proof.
  intros H. unfold parseLatLng. rewrite (split_no_separator _ _ H). reflexivity.
Qed.

Lemma coordinates_need_a_comma_witness :
  parseLatLng "40.7 -74.0" = Err (Error invalid_lat_lng).
Proof.
  apply (coordinates_need_a_comma "40.7 -74.0").
  intros H. cbn in H. repeat (destruct H as [H|H]; [discriminate H|]). exact H.
Defined.

(** X19: [parseLatLng] reads the first two components only.  What follows
    a second comma is ignored: a text with one more component parses like the
    text without it. *)
Theorem extra_components_ignored s extra :
  In ","%char (list_ascii_of_string s) →
  parseLatLng (s +:+ "," +:+ extra) = parseLatLng s.
Proof.
  intros H. unfold parseLatLng.
  change (s +:+ "," +:+ extra) with (s +:+ String "," extra).
  rewrite split_app. destruct (split_separator _ _ H) as (a & b & rest & ->). reflexivity.
Qed.

Lemma extra_components_ignored_witness :
  parseLatLng ("40.7,-74.0" +:+ "," +:+ "north") = parseLatLng "40.7,-74.0".
Proof.
  apply (extra_components_ignored "40.7,-74.0" "north").
  cbn. do 4 right. left. reflexivity.
Defined.

(** X20: the file name of a page always ends in ".html", and the rule
    that adds the extension changes nothing when it is applied again. *)
Theorem html_extension_added_once f :
  has_suffix (htmlFilename f) ".html" ∧ htmlFilename (htmlFilename f) = htmlFilename f.
Proof.
  pose proof (htmlFilename_html f) as H.
  split; [apply endsWith_has_suffix; exact H|].
  unfold htmlFilename at 1. rewrite H. reflexivity.
Qed.

(** ** The answers *)

Lemma makeMetadataRequest_Ok env url ps st data st' :
  makeMetadataRequest env url ps st = (Ok data, st') →
  let sent := with_key ps (default "" (GOOGLE_API_KEY env)) in
  (∃ status, http_get_json env url sent = Ok (status, data))
  ∧ st' = mkState (files st)
            (trace st ++ [Log info "Making metadata API request"; HttpGet url sent;
                          Log info "Metadata API request successful"]).
Proof.
  unfold makeMetadataRequest. destruct (Boolean (GOOGLE_API_KEY env)).
  - cbv zeta. unfold log, emit, mbind, M_bind, mret, M_ret. cbn [files trace].
    destruct (http_get_json env url _) as [[status d]|e].
    + intros [= <- <-]. split; [eauto|]. rewrite <- !app_assoc. reflexivity.
    + intros E. exfalso. revert E. unfold request_failed, log, emit, throw, mbind, M_bind,
        mret, M_ret.
      destruct e as [a|e]; [destruct (axios_response a) as [[]|]; [|destruct (axios_request a)]|];
        discriminate.
  - unfold request_failed, log, emit, throw, mbind, M_bind, mret, M_ret. discriminate.
Qed.

Lemma set_location_state env l ll p params st r st' :
  set_location env l ll p params st = (r, st') → st' = st.
Proof.
  unfold set_location, from_result, mbind, M_bind, mret, M_ret.
  destruct (truthy l); [intros [= _ <-]; reflexivity|].
  destruct (truthy ll).
  - destruct (parseLatLng _) as [[lat lng]|e]; intros [= _ <-]; reflexivity.
  - destruct (truthy p); intros [= _ <-]; reflexivity.
Qed.

Lemma property_of_answer (a b c d e : option json) (q : json) k :
  In k passed_through →
  property (obj [("status", a); ("copyright", b); ("date", c); ("pano_id", d); ("location", e);
                 ("query", Some q)]) k
  = default None (list_to_map (M := gmap string (option json))
      [("status", a); ("copyright", b); ("date", c); ("pano_id", d); ("location", e)] !! k).
Proof.
  intros H. unfold passed_through in H. cbn [In] in H.
  destruct H as [<-|[<-|[<-|[<-|[<-|[]]]]]];
    destruct a, b, c, d, e; reflexivity.
Qed.

(** X21: a successful [get_metadata] has sent exactly one request, to the
    metadata endpoint and with the API key, has written the two log lines
    around it and nothing else, and passes the members status, copyright,
    date, pano_id and location of the upstream body through as they are (a
    member that is missing upstream is missing in the answer). *)
Theorem metadata_passed_through env args st res st' :
  CallTool env "get_metadata" args st = (Ok res, st') → isError res = false →
  ∃ ps status data answer,
    http_get_json env METADATA_URL (with_key ps (default "" (GOOGLE_API_KEY env)))
    = Ok (status, data)
    ∧ st' = mkState (files st)
              (trace st ++ [Log info "Making metadata API request";
                            HttpGet METADATA_URL (with_key ps (default "" (GOOGLE_API_KEY env)));
                            Log info "Metadata API request successful"])
    ∧ content res = Stringified answer
    ∧ ∀ k, In k passed_through → property answer k = property data k.
Proof.
  unfold CallTool.
  change (String.eqb "get_metadata" "get_street_view") with false.
  change (String.eqb "get_metadata" "get_metadata") with true. cbv iota.
  destruct (parse (GetMetadataSchema args)) as [v|e];
    [|intros [= <- <-]; discriminate].
  unfold get_metadata. intros E Hok.
  apply try_catch_run in E as [(a & E & [= <-]) | (e & st1 & _ & E)];
    [|inversion E; subst; discriminate Hok].
  apply bind_Ok in E as (j & st1 & E & E'). inversion E'; subst. clear E' Hok.
  unfold get_metadata_try in E.
  apply bind_Ok in E as (ps & st1 & E1 & E).
  apply set_location_state in E1. subst st1.
  apply bind_Ok in E as (data & st2 & E2 & E).
  unfold from_result in E. injection E as Ha <-.
  apply makeMetadataRequest_Ok in E2 as [[status Hget] Hst]. cbv zeta in Hst.
  exists ps, status, data, j. split; [exact Hget|]. split; [exact Hst|].
  split; [reflexivity|]. intros k Hk.
  assert (Hj : j = obj [("status", property data "status");
                        ("copyright", property data "copyright");
                        ("date", property data "date");
                        ("pano_id", property data "pano_id");
                        ("location", property data "location");
                        ("query", Some (obj [
                           ("location",
                            JString <$> or_else (md_location v)
                                          (or_else (md_lat_lng v) (md_pano_id v)));
                           ("radius", match truthy (md_pano_id v) with
                                      | Some _ => None
                                      | None => Some (JNumber (md_radius v))
                                      end);
                           ("source", Some (JString (md_source v)))]))]).
  { unfold metadata_answer in Ha. destruct data; first [discriminate Ha | congruence]. }
  rewrite Hj, (property_of_answer _ _ _ _ _ _ _ Hk).
  unfold passed_through in Hk. cbn [In] in Hk.
  destruct Hk as [<-|[<-|[<-|[<-|[<-|[]]]]]]; reflexivity.
Qed.

Lemma metadata_passed_through_witness :
  ∃ ps status data answer,
    http_get_json sample_env METADATA_URL (with_key ps (default "" (GOOGLE_API_KEY sample_env)))
    = Ok (status, data)
    ∧ lookup_panorama_run.2
      = mkState (files sample_state)
          (trace sample_state
           ++ [Log info "Making metadata API request";
               HttpGet METADATA_URL (with_key ps (default "" (GOOGLE_API_KEY sample_env)));
               Log info "Metadata API request successful"])
    ∧ content lookup_panorama_answer = Stringified answer
    ∧ ∀ k, In k passed_through → property answer k = property data k.
Proof.
  apply (metadata_passed_through sample_env (Some lookup_panorama) sample_state
           lookup_panorama_answer lookup_panorama_run.2).
  - vm_compute. reflexivity.
  - vm_compute. reflexivity.
Defined.

Lemma get_street_view_try_object env v st j st' :
  get_street_view_try env v st = (Ok j, st') →
  ∃ members, j = JObject members ∧ property j "status" = Some (JString "success").
Proof.
  unfold get_street_view_try. intros E.
  repeat (apply bind_Ok in E as (? & ? & _ & E); cbv zeta in E).
  inversion E; subst. eexists. split; reflexivity.
Qed.

Lemma get_metadata_try_object env v st j st' :
  get_metadata_try env v st = (Ok j, st') → ∃ members, j = JObject members.
Proof.
  unfold get_metadata_try. intros E.
  repeat (apply bind_Ok in E as (? & ? & _ & E); cbv zeta in E).
  unfold from_result in E. injection E as Ha _. unfold metadata_answer in Ha.
  match type of Ha with match ?d with _ => _ end = _ => destruct d end;
    first [discriminate Ha | injection Ha as <-; eexists; reflexivity].
Qed.

Lemma create_html_page_try_object env v st j st' :
  create_html_page_try env v st = (Ok j, st') →
  ∃ members, j = JObject members ∧ property j "status" = Some (JString "success").
Proof.
  unfold create_html_page_try. intros E.
  repeat (apply bind_Ok in E as (? & ? & _ & E); cbv zeta in E).
  inversion E; subst. eexists. split; reflexivity.
Qed.

(** X22: the answers of all tools share one envelope.  An answer without
    the error flag carries an object, which for [get_street_view] and
    [create_html_page] has the status "success".  An answer with the error
    flag carries the error of a schema, the line for an unknown tool, or an
    object whose only member is the error message, which starts with the
    words of the tool that failed. *)
Theorem answers_share_an_envelope env name args st res st' :
  CallTool env name args st = (Ok res, st') → envelope name res.
Proof.
  unfold CallTool.
  destruct (String.eqb_spec name "get_street_view") as [->|H1].
  { destruct (parse _) as [v|e]; [|intros [= <- _]; left; eauto].
    unfold get_street_view. intros E.
    destruct (get_street_view_try env v st) as [[j|e] st1] eqn:T;
      unfold try_catch, mbind, M_bind, mret, M_ret in E; rewrite T in E;
      inversion E; subst; clear E.
    - apply get_street_view_try_object in T as (members & -> & Hs).
      exists members. split; [reflexivity | intros _; exact Hs].
    - right. right. exists e. reflexivity. }
  destruct (String.eqb_spec name "get_metadata") as [->|H2].
  { destruct (parse _) as [v|e]; [|intros [= <- _]; left; eauto].
    unfold get_metadata. intros E.
    destruct (get_metadata_try env v st) as [[j|e] st1] eqn:T;
      unfold try_catch, mbind, M_bind, mret, M_ret in E; rewrite T in E;
      inversion E; subst; clear E.
    - apply get_metadata_try_object in T as (members & ->).
      exists members. split; [reflexivity | intros [|]; discriminate].
    - right. right. exists e. reflexivity. }
  destruct (String.eqb_spec name "create_html_page") as [->|H3].
  { destruct (parse _) as [v|e]; [|intros [= <- _]; left; eauto].
    unfold create_html_page. intros E.
    destruct (create_html_page_try env v st) as [[j|e] st1] eqn:T;
      unfold try_catch, mbind, M_bind, mret, M_ret in E; rewrite T in E;
      inversion E; subst; clear E.
    - apply create_html_page_try_object in T as (members & -> & Hs).
      exists members. split; [reflexivity | intros _; exact Hs].
    - right. right. exists e. reflexivity. }
  destruct (String.eqb_spec name "list_saved_images") as [->|H4].
  { unfold list_saved_images. intros E.
    destruct (list_saved_images_try env st) as [[j|e] st1] eqn:T;
      unfold try_catch, mbind, M_bind, mret, M_ret in E; rewrite T in E;
      inversion E; subst; clear E.
    - unfold list_saved_images_try in T. apply bind_Ok in T as (images & st2 & _ & T).
      inversion T; subst. eexists. split; [reflexivity | intros [|]; discriminate].
    - right. right. exists e. unfold failure, failure_prefix.
      destruct (String.eqb_spec "list_saved_images" "get_street_view"); [discriminate|].
      reflexivity. }
  intros [= <- _]. right. left. reflexivity.
Qed.

Lemma answers_share_an_envelope_witness : envelope "get_metadata" lookup_panorama_answer.
Proof.
  apply (answers_share_an_envelope sample_env "get_metadata" (Some lookup_panorama) sample_state
           lookup_panorama_answer lookup_panorama_run.2).
  vm_compute. reflexivity.
Defined.

(** ** Paths and pages *)

Lemma join_plain dir f :
  plain_name f = true → f ≠ "" → f ≠ "." → f ≠ ".." → join dir f = mkPath (dir ++ [f]) false.
Proof.
  intros Hp H0 H1 H2. unfold join.
  destruct (String.eqb_spec f "") as [E|_]; [destruct (H0 E)|].
  rewrite (split_plain _ Hp), (endsWith_sep_plain _ Hp). cbn [fold_left].
  unfold normalize_segment.
  destruct (String.eqb_spec f "") as [E|_]; [destruct (H0 E)|].
  destruct (String.eqb_spec f ".") as [E|_]; [destruct (H1 E)|].
  destruct (String.eqb_spec f "..") as [E|_]; [destruct (H2 E)|].
  reflexivity.
Qed.

Lemma join_parent dir d f :
  plain_name f = true → f ≠ "" → f ≠ "." → f ≠ ".." →
  join (dir ++ [d]) ("../" +:+ f) = mkPath (dir ++ [f]) false.
Proof.
  intros Hp H0 H1 H2. unfold join.
  change ("../" +:+ f) with (String "." (String "." (String "/" f))).
  change (String.eqb (String "." (String "." (String "/" f))) "") with false. cbv iota.
  assert (Hs : split "/" (String "." (String "." (String "/" f))) = [".."; f]).
  { cbn [split]. change (Ascii.eqb "." "/") with false. change (Ascii.eqb "/" "/") with true.
    cbv iota. rewrite (split_plain _ Hp). reflexivity. }
  assert (He : endsWith (String "." (String "." (String "/" f))) "/" = false).
  { cbn [endsWith]. rewrite (endsWith_sep_plain _ Hp).
    change (String.eqb (String "." (String "." (String "/" f))) "/") with false.
    change (String.eqb (String "." (String "/" f)) "/") with false.
    destruct (String.eqb_spec (String "/" f) "/") as [E|_]; [|reflexivity].
    inversion E. contradiction. }
  rewrite Hs, He. cbn [fold_left]. unfold normalize_segment at 2.
  change (String.eqb ".." "" || String.eqb ".." ".") with false.
  change (String.eqb ".." "..") with true. cbv iota.
  rewrite removelast_last. unfold normalize_segment.
  destruct (String.eqb_spec f "") as [E|_]; [destruct (H0 E)|].
  destruct (String.eqb_spec f ".") as [E|_]; [destruct (H1 E)|].
  destruct (String.eqb_spec f "..") as [E|_]; [destruct (H2 E)|].
  reflexivity.
Qed.

(** X23: file names are joined to the directory, not confined to it.  A
    plain name (no separator, not ".", not "..") lands in the output
    directory; the same name after "../" lands beside the output directory,
    in the working directory, and so does the page of [create_html_page]. *)
Theorem file_names_are_not_confined env f :
  plain_name f = true → f ≠ "" → f ≠ "." → f ≠ ".." →
  join_dir (OUTPUT_DIR env) f = mkPath (cwd env ++ ["output"; f]) false
  ∧ join_dir (OUTPUT_DIR env) ("../" +:+ f) = mkPath (cwd env ++ [f]) false
  ∧ page_path env ("../" +:+ f) = mkPath (cwd env ++ [htmlFilename f]) false.
Proof.
  intros Hp H0 H1 H2. unfold page_path, join_dir.
  rewrite OUTPUT_DIR_path, HTML_DIR_path. cbn [segments].
  split; [|split].
  - rewrite (join_plain _ _ Hp H0 H1 H2), <- app_assoc. reflexivity.
  - apply join_parent; assumption.
  - assert (Hh : htmlFilename ("../" +:+ f) = "../" +:+ htmlFilename f).
    { unfold htmlFilename.
      change ("../" +:+ f) with (String "." (String "." (String "/" f))).
      cbn [endsWith].
      change (String.eqb (String "." (String "." (String "/" f))) ".html") with
        (String.eqb (String "." (String "/" f)) "html").
      destruct (String.eqb_spec (String "." (String "/" f)) "html") as [E|_]; [discriminate E|].
      destruct (String.eqb_spec (String "." (String "/" f)) ".html") as [E|_]; [discriminate E|].
      destruct (String.eqb_spec (String "/" f) ".html") as [E|_]; [discriminate E|].
      cbn [orb]. destruct (endsWith f ".html"); reflexivity. }
    rewrite Hh. pose proof (htmlFilename_html f) as Hhtml.
    apply join_parent; [apply htmlFilename_plain; exact Hp | | |];
      intros E; rewrite E in Hhtml; discriminate Hhtml.
Qed.

Lemma file_names_are_not_confined_witness :
  join_dir (OUTPUT_DIR sample_env) "x.jpg" = mkPath (cwd sample_env ++ ["output"; "x.jpg"]) false
  ∧ join_dir (OUTPUT_DIR sample_env) ("../" +:+ "x.jpg") = mkPath (cwd sample_env ++ ["x.jpg"]) false
  ∧ page_path sample_env ("../" +:+ "x.jpg")
    = mkPath (cwd sample_env ++ [htmlFilename "x.jpg"]) false.
Proof.
  apply (file_names_are_not_confined sample_env "x.jpg"); [reflexivity | discriminate ..].
Defined.

Lemma string_app_assoc (s t u : string) : (s +:+ t) +:+ u = s +:+ t +:+ u.
Proof.
  induction s as [|a s IH]; [reflexivity|].
  change (String a ((s +:+ t) +:+ u) = String a (s +:+ t +:+ u)). f_equal. exact IH.
Qed.

(** X24: the page is the fixed template around the title and the fragments
    of the request.  There are three fixed strings such that every page is
    the first, the title, the second, the fragments joined by newlines in the
    order given, and the third: title and fragments are inserted as they are,
    without escaping. *)
Theorem page_embeds_the_fragments_verbatim :
  ∃ before between after, ∀ v,
    page_of v
    = before +:+ hp_title v +:+ between +:+ String.concat nl (hp_html_elements v) +:+ after.
Proof.
  exists (String.concat nl page_head +:+ nl +:+ "    <title>"),
         ("</title>" +:+ nl +:+ String.concat nl page_style +:+ nl),
         (nl +:+ "</body>" +:+ nl +:+ "</html>").
  intros v. unfold page_of, htmlTemplate.
  generalize (String.concat nl (hp_html_elements v)) as content. generalize (hp_title v) as title.
  intros title content. unfold page_head, page_style, nl, dquote.
  cbn [app String.concat]. rewrite !string_app_assoc. reflexivity.
Qed.

(** ** The answer and the file *)

Lemma file_on_the_way_cons fs cur s s' rest :
  file_on_the_way fs cur (s :: s' :: rest)
  = match fs !! (cur ++ [s]) with
    | Some (File _ _ _) => true
    | _ => file_on_the_way fs (cur ++ [s]) (s' :: rest)
    end.
Proof. reflexivity. Qed.

Lemma file_on_the_way_insert fs cur rest n :
  file_on_the_way (<[cur ++ rest := n]> fs) cur rest = file_on_the_way fs cur rest.
Proof.
  revert cur. induction rest as [|s rest IH]; intros cur; [reflexivity|].
  destruct rest as [|s' rest]; [reflexivity|].
  rewrite !file_on_the_way_cons, lookup_insert_ne.
  - replace (cur ++ s :: s' :: rest) with ((cur ++ [s]) ++ s' :: rest)
      by (rewrite <- app_assoc; reflexivity).
    rewrite IH. reflexivity.
  - intros E. apply (f_equal length) in E. rewrite !length_app in E. simpl in E. lia.
Qed.

Lemma sharp_jpeg_toFile_Ok env data p st st' :
  files st !! segments p = None →
  sharp_jpeg_toFile env data p st = (Ok (), st') →
  ∃ c, jpeg env data = Ok c
       ∧ files st' = <[segments p := File c (now env) (now env)]> (files st)
       ∧ has_nul p = false ∧ trailingSep p = false ∧ segments p ≠ []
       ∧ file_on_the_way (files st') [] (segments p) = false.
Proof.
  intros Hn. unfold sharp_jpeg_toFile, emit, update_fs, throw, mbind, M_bind. cbn [files trace].
  destruct (jpeg env data) as [c|msg]; [|discriminate].
  destruct (write_file _ _ _ _ _) as [fs'|e] eqn:W; [|discriminate].
  intros [= <-]. cbn [files]. exists c. split; [reflexivity|].
  pose proof (write_file_absent_eq _ _ _ _ _ _ Hn W) as ->.
  split; [reflexivity|].
  cbn [files] in W. revert W. unfold write_file. destruct (has_nul p); [discriminate|].
  destruct (trailingSep p); [discriminate|].
  destruct (file_on_the_way (files st) [] (segments p)) eqn:Hw; [discriminate|].
  destruct (segments p) as [|s l] eqn:Es; [intros W; discriminate W|]. intros _.
  repeat split; [discriminate|].
  rewrite (file_on_the_way_insert _ [] (s :: l)). exact Hw.
Qed.

Lemma resolve_file syscall fs p c b m :
  has_nul p = false → trailingSep p = false → segments p ≠ [] →
  file_on_the_way fs [] (segments p) = false →
  fs !! segments p = Some (File c b m) → resolve syscall fs p = Ok (File c b m).
Proof.
  intros Hn Ht Hs Hw Hf. unfold resolve. rewrite Hn, Hw. unfold node_at.
  destruct (segments p); [destruct Hs; reflexivity|]. rewrite Hf, Ht. reflexivity.
Qed.

Lemma sharp_metadata_Ok env p st md st' c b m :
  resolve "open" (files st) p = Ok (File c b m) →
  sharp_metadata env p st = (Ok md, st') → files st' = files st ∧ metadata_of env c = Ok md.
Proof.
  intros R. unfold sharp_metadata, emit, read_fs, mbind, M_bind. cbn [files trace]. rewrite R.
  destruct (metadata_of env c) as [md'|msg]; [|discriminate].
  intros [= <- <-]. split; reflexivity.
Qed.

(** X25: the success answer of [get_street_view] describes the file that was
    stored.  The file is at join(OUTPUT_DIR, filename), stamped with the
    time of the call; the answer names the file and that path; width, height
    and format are what the codec reads from the stored file, and the size is
    that of the stored bytes, the re-encoded JPEG, in KB. *)
Theorem street_view_answer_describes_the_file env args v st res st' :
  parse (GetStreetViewSchema args) = Ok v →
  CallTool env "get_street_view" args st = (Ok res, st') →
  isError res = false →
  let filePath := join_dir (OUTPUT_DIR env) (sv_filename v) in
  ∃ c md answer,
    files st' !! segments filePath = Some (File c (now env) (now env))
    ∧ metadata_of env c = Ok md
    ∧ content res = Stringified answer
    ∧ property answer "filename" = Some (JString (sv_filename v))
    ∧ property answer "path" = Some (JString (path_string filePath))
    ∧ property answer "metadata" = Some (described c md).
Proof.
  intros Hv E Hok filePath. revert E. unfold CallTool.
  change (String.eqb "get_street_view" "get_street_view") with true. cbv iota.
  rewrite Hv. unfold get_street_view. intros E.
  apply try_catch_run in E as [(a & E & [= <-]) | (e & st1 & _ & E)];
    [|inversion E; subst; discriminate Hok].
  apply bind_Ok in E as (j & st1 & E & E'). inversion E'; subst. clear E' Hok.
  unfold get_street_view_try in E.
  apply bind_Ok in E as ([] & st1 & _ & E). cbv zeta in E. fold filePath in E.
  apply bind_Ok in E as ([] & st2 & E2 & E).
  apply must_not_exist_Ok in E2 as (F2 & _ & Habsent). rewrite <- F2 in Habsent.
  apply bind_Ok in E as (ps & st3 & E3 & E).
  apply reads_only_set_location in E3. rewrite <- E3 in Habsent.
  apply bind_Ok in E as (data & st4 & E4 & E).
  apply reads_only_makeApiRequest in E4. rewrite <- E4 in Habsent.
  apply bind_Ok in E as ([] & st5 & E5 & E).
  apply (sharp_jpeg_toFile_Ok _ _ _ _ _ Habsent) in E5 as (c & _ & F5 & Hn & Ht & Hs & Hw).
  assert (L : files st5 !! segments filePath = Some (File c (now env) (now env))).
  { rewrite F5. apply lookup_insert_eq. }
  apply bind_Ok in E as (md & st6 & E6 & E).
  apply (sharp_metadata_Ok _ _ _ _ _ _ _ _
           (resolve_file "open" _ _ _ _ _ Hn Ht Hs Hw L)) in E6 as [F6 Hmd].
  apply bind_Ok in E as (stats & st7 & E7 & E).
  apply fs_stat_run in E7 as (F7 & n & Rn & ->).
  rewrite F6, (resolve_file "stat" _ _ _ _ _ Hn Ht Hs Hw L) in Rn. injection Rn as <-.
  inversion E; subst. clear E.
  exists c, md. eexists. rewrite F7, F6.
  split; [exact L|]. split; [exact Hmd|]. split; [reflexivity|].
  repeat split.
Qed.

Lemma street_view_answer_describes_the_file_witness :
  ∃ c md answer,
    files coordinates_run.2 !! ["srv"; "output"; "a.jpg"]
    = Some (File c (now sample_env) (now sample_env))
    ∧ metadata_of sample_env c = Ok md
    ∧ content coordinates_answer = Stringified answer
    ∧ property answer "filename" = Some (JString "a.jpg")
    ∧ property answer "path" = Some (JString "/srv/output/a.jpg")
    ∧ property answer "metadata" = Some (described c md).
Proof.
  apply (street_view_answer_describes_the_file sample_env (Some coordinates_request)
           coordinates_parsed sample_state coordinates_answer coordinates_run.2).
  - vm_compute. reflexivity.
  - vm_compute. reflexivity.
  - vm_compute. reflexivity.
Defined.
